(** * keysharp corpus explorer: n-gram analysis, CSV export and URL state

    A shallow embedding of the TypeScript sources
      - analysis/ngrams.ts   (calculateNGrams, filterAndReaggregate,
                              mapToRankedArray, calculateFilteredNGrams)
      - export/csv.ts        (escapeCSVField, exportToCSV)
      - url-state/serializer.ts, url-state/deserializer.ts
    together with the properties the specification states about them.

    Conventions.
      - A JavaScript string is the list of its UTF-16 code units; [text[i]]
        and [text.length] work on code units, and so does the model.
      - A JavaScript number holding a count, rank or limit is an integer
        of [Z]; below 2^53 in magnitude every integer is a Number, and
        where a Number is made from a larger integer ([parseInt]) or
        written as text ([toString]) the model rounds to binary64 or
        leaves the text to the platform. The percentage of the CSV export
        is an IEEE-754 binary64 value ([spec_float] at precision 53).
      - The methods of [URLSearchParams] convert their arguments to
        USVStrings, replacing lone surrogates.
      - A [Map<string, number>] is an association list in insertion order:
        [set] on a present key updates it in place, on a new key appends.
      - [String.prototype.toLowerCase] and [String.prototype.localeCompare]
        are platform functions outside the repository; they are the two
        fields of the class [Builtins]. *)

From Stdlib Require Import ZArith NArith List Bool Lia Permutation Sorted.
From Stdlib Require Ascii String DecimalPos.
Import String.StringSyntax.
From Stdlib Require Import Floats.SpecFloat.
Import ListNotations.

Local Open Scope Z_scope.

(* ================================================================== *)
(** * Platform primitives *)

Module JS.

(** A UTF-16 code unit. *)
Definition jschar := N.

(** A JavaScript string. *)
Definition jsstring := list jschar.

(** Code units of an ASCII literal of the source. *)
Fixpoint lit (s : String.string) : jsstring :=
  match s with
  | String.EmptyString => []
  | String.String c s' => Ascii.N_of_ascii c :: lit s'
  end.

Arguments lit s%_string_scope.

Fixpoint str_eqb (a b : jsstring) : bool :=
  match a, b with
  | [], [] => true
  | x :: a', y :: b' => N.eqb x y && str_eqb a' b'
  | _, _ => false
  end.

(** The class [\s] of an ECMAScript regular expression: WhiteSpace and
    LineTerminator code points. *)
Definition isWhiteSpaceUnit (c : jschar) : bool :=
  ((9 <=? c) && (c <=? 13) || (c =? 32) || (c =? 160) || (c =? 5760)
   || (8192 <=? c) && (c <=? 8202)
   || (c =? 8232) || (c =? 8233) || (c =? 8239) || (c =? 8287)
   || (c =? 12288) || (c =? 65279))%N.

(** The class [\w] of an ECMAScript regular expression without the
    unicode and ignore-case flags: [A-Za-z0-9_]. *)
Definition isWordUnit (c : jschar) : bool :=
  ((65 <=? c) && (c <=? 90) || (97 <=? c) && (c <=? 122)
   || (48 <=? c) && (c <=? 57) || (c =? 95))%N.

(** [/\s/.test(s)] *)
Definition testWhitespace (s : jsstring) : bool :=
  existsb isWhiteSpaceUnit s.

(** [/[^\w\s]/.test(s)] *)
Definition testNonWordNonSpace (s : jsstring) : bool :=
  existsb (fun c => negb (isWordUnit c) && negb (isWhiteSpaceUnit c)) s.

(** [s[i]]: a one-unit string, or [undefined] out of range, which string
    concatenation renders as the word "undefined". *)
Definition charAt (s : jsstring) (i : nat) : jsstring :=
  match nth_error s i with
  | Some c => [c]
  | None => lit "undefined"
  end.

(** ** [Map<string, number>] *)

Definition JSMap := list (jsstring * Z).

Fixpoint map_get (m : JSMap) (k : jsstring) : option Z :=
  match m with
  | [] => None
  | (k', v) :: m' => if str_eqb k' k then Some v else map_get m' k
  end.

Fixpoint map_set (m : JSMap) (k : jsstring) (v : Z) : JSMap :=
  match m with
  | [] => [(k, v)]
  | (k', v') :: m' =>
      if str_eqb k' k then (k', v) :: m' else (k', v') :: map_set m' k v
  end.

(** [m.entries()], in insertion order. *)
Definition entries (m : JSMap) : list (jsstring * Z) := m.

(** [x || 0] for the result of [Map.get]: [undefined] and [0] are falsy. *)
Definition orZero (o : option Z) : Z :=
  match o with
  | Some v => if v =? 0 then 0 else v
  | None => 0
  end.

(** ** [Array.prototype.sort]

    The sort is stable (ECMAScript 2019), so for a consistent comparator
    its result is the stable sorted arrangement, which insertion from the
    right computes: an element goes before the first later element that
    does not compare smaller than it. *)

Section Sort.
Context {A : Type} (cmp : A -> A -> Z).

Fixpoint insert (x : A) (l : list A) : list A :=
  match l with
  | [] => [x]
  | y :: l' => if cmp x y <=? 0 then x :: l else y :: insert x l'
  end.

Fixpoint sort (l : list A) : list A :=
  match l with
  | [] => []
  | x :: l' => insert x (sort l')
  end.

End Sort.

(** [Array.prototype.map] with the index argument. *)
Fixpoint mapi_from {A B : Type} (f : A -> Z -> B) (i : Z) (l : list A)
  : list B :=
  match l with
  | [] => []
  | x :: l' => f x i :: mapi_from f (i + 1) l'
  end.

Definition mapi {A B : Type} (f : A -> Z -> B) (l : list A) : list B :=
  mapi_from f 0 l.

(** The platform's string functions used by the analysis. *)
Class Builtins := {
  toLowerCase : jsstring -> jsstring;
  localeCompare : jsstring -> jsstring -> Z
}.

(** ECMA-262 requires [localeCompare] to be a consistent comparator that
    defines a total ordering on all strings (the sign of the result is
    what matters, and distinct strings may compare as equal). *)
Class ConsistentComparator (B : Builtins) : Prop := {
  lc_refl : forall a, localeCompare a a = 0;
  lc_flip : forall a b, localeCompare a b < 0 <-> 0 < localeCompare b a;
  lc_trans : forall a b c,
    localeCompare a b <= 0 -> localeCompare b c <= 0 ->
    localeCompare a c <= 0
}.

End JS.

Import JS.

(* ================================================================== *)
(** * analysis/ngrams.ts *)

Module NGrams.

Record RawNGramCounts := {
  monograms : JSMap;
  bigrams : JSMap;
  trigrams : JSMap;
  skipgrams : JSMap;
  words : JSMap
}.

Record CountMap := {
  map : JSMap;
  total : Z
}.

Record FilterSettings := {
  filterWhitespace : bool;
  filterPunctuation : bool;
  caseSensitive : bool
}.

Record NGramData := {
  sequence : jsstring;
  frequency : Z;
  rank : Z
}.

Definition isWhitespace (char : jsstring) : bool := testWhitespace char.

(** [m.set(k, (m.get(k) || 0) + 1)] *)
Definition increment (m : JSMap) (k : jsstring) : JSMap :=
  map_set m k (orZero (map_get m k) + 1).

(** The variables the loop of [calculateNGrams] updates. *)
Record ScanState := {
  monogramCounts : JSMap;
  bigramCounts : JSMap;
  trigramCounts : JSMap;
  skipgramCounts : JSMap;
  wordCounts : JSMap;
  currentWord : jsstring
}.

Definition initialScan : ScanState :=
  {| monogramCounts := []; bigramCounts := []; trigramCounts := [];
     skipgramCounts := []; wordCounts := []; currentWord := [] |}.

(** One iteration of the loop [for (let i = 0; i < text.length; i++)]. *)
Definition scanStep (text : jsstring) (st : ScanState) (i : nat)
  : ScanState :=
  let char := charAt text i in
  let mono := increment (monogramCounts st) char in
  let bi :=
    if (i + 1 <? length text)%nat
    then increment (bigramCounts st) (charAt text i ++ charAt text (i + 1))
    else bigramCounts st in
  let tri :=
    if (i + 2 <? length text)%nat
    then increment (trigramCounts st)
           (charAt text i ++ charAt text (i + 1) ++ charAt text (i + 2))
    else trigramCounts st in
  let skip :=
    if (i + 2 <? length text)%nat
    then increment (skipgramCounts st) (charAt text i ++ charAt text (i + 2))
    else skipgramCounts st in
  if isWhitespace char then
    if (0 <? length (currentWord st))%nat then
      {| monogramCounts := mono; bigramCounts := bi; trigramCounts := tri;
         skipgramCounts := skip;
         wordCounts := increment (wordCounts st) (currentWord st);
         currentWord := [] |}
    else
      {| monogramCounts := mono; bigramCounts := bi; trigramCounts := tri;
         skipgramCounts := skip;
         wordCounts := wordCounts st;
         currentWord := currentWord st |}
  else
    {| monogramCounts := mono; bigramCounts := bi; trigramCounts := tri;
       skipgramCounts := skip;
       wordCounts := wordCounts st;
       currentWord := currentWord st ++ char |}.

(** The state after the first [n] iterations. *)
Definition scanLoop (text : jsstring) (n : nat) : ScanState :=
  fold_left (scanStep text) (seq 0 n) initialScan.

Definition calculateNGrams (text : jsstring) : RawNGramCounts :=
  let st := scanLoop text (length text) in
  let wordCounts' :=
    if (0 <? length (currentWord st))%nat
    then increment (wordCounts st) (currentWord st)
    else wordCounts st in
  {| monograms := monogramCounts st;
     bigrams := bigramCounts st;
     trigrams := trigramCounts st;
     skipgrams := skipgramCounts st;
     words := wordCounts' |}.

Definition containsWhitespace (sequence : jsstring) : bool :=
  testWhitespace sequence.

Definition containsPunctuation (sequence : jsstring) : bool :=
  testNonWordNonSpace sequence.

Section WithBuiltins.
Context {B : Builtins}.

Definition normalizeSequence (sequence : jsstring) (caseSensitive : bool)
  : jsstring :=
  if caseSensitive then sequence else toLowerCase sequence.

(** The body of [for (const [sequence, frequency] of counts.entries())]. *)
Definition filterStep (filters : FilterSettings) (acc : CountMap)
  (entry : jsstring * Z) : CountMap :=
  let '(sequence, frequency) := entry in
  if filterWhitespace filters && containsWhitespace sequence then acc
  else if filterPunctuation filters && containsPunctuation sequence then acc
  else
    let normalized := normalizeSequence sequence (caseSensitive filters) in
    let existingCount := orZero (map_get (map acc) normalized) in
    {| map := map_set (map acc) normalized (existingCount + frequency);
       total := total acc + frequency |}.

Definition filterAndReaggregate (counts : JSMap) (filters : FilterSettings)
  : CountMap :=
  fold_left (filterStep filters) (entries counts) {| map := []; total := 0 |}.

(** The comparator handed to [entries.sort]. *)
Definition compareEntries (a b : jsstring * Z) : Z :=
  if negb (snd b =? snd a) then snd b - snd a
  else localeCompare (fst a) (fst b).

Definition mapToRankedArray (countMap : CountMap) : list NGramData :=
  mapi (fun '(sequence, frequency) index =>
          {| sequence := sequence; frequency := frequency;
             rank := index + 1 |})
       (sort compareEntries (entries (map countMap))).

Record Totals := {
  t_monograms : Z;
  t_bigrams : Z;
  t_trigrams : Z;
  t_skipgrams : Z;
  t_words : Z
}.

Record FilteredNGrams := {
  r_monograms : list NGramData;
  r_bigrams : list NGramData;
  r_trigrams : list NGramData;
  r_skipgrams : list NGramData;
  r_words : list NGramData;
  totals : Totals
}.

Definition calculateFilteredNGrams (text : jsstring)
  (filters : FilterSettings) : FilteredNGrams :=
  let rawCounts := calculateNGrams text in
  let filteredMonograms := filterAndReaggregate (monograms rawCounts) filters in
  let filteredBigrams := filterAndReaggregate (bigrams rawCounts) filters in
  let filteredTrigrams := filterAndReaggregate (trigrams rawCounts) filters in
  let filteredSkipgrams := filterAndReaggregate (skipgrams rawCounts) filters in
  let filteredWords := filterAndReaggregate (words rawCounts) filters in
  let totals :=
    {| t_monograms := total filteredMonograms;
       t_bigrams := total filteredBigrams;
       t_trigrams := total filteredTrigrams;
       t_skipgrams := total filteredSkipgrams;
       t_words := total filteredWords |} in
  {| r_monograms := mapToRankedArray filteredMonograms;
     r_bigrams := mapToRankedArray filteredBigrams;
     r_trigrams := mapToRankedArray filteredTrigrams;
     r_skipgrams := mapToRankedArray filteredSkipgrams;
     r_words := mapToRankedArray filteredWords;
     totals := totals |}.

End WithBuiltins.

End NGrams.

Import NGrams.

(* ================================================================== *)
(** * Numbers as text *)

Module Num.

Fixpoint digitsOf (u : Decimal.uint) : jsstring :=
  match u with
  | Decimal.Nil => []
  | Decimal.D0 u' => 48%N :: digitsOf u'
  | Decimal.D1 u' => 49%N :: digitsOf u'
  | Decimal.D2 u' => 50%N :: digitsOf u'
  | Decimal.D3 u' => 51%N :: digitsOf u'
  | Decimal.D4 u' => 52%N :: digitsOf u'
  | Decimal.D5 u' => 53%N :: digitsOf u'
  | Decimal.D6 u' => 54%N :: digitsOf u'
  | Decimal.D7 u' => 55%N :: digitsOf u'
  | Decimal.D8 u' => 56%N :: digitsOf u'
  | Decimal.D9 u' => 57%N :: digitsOf u'
  end.

(** The decimal representation of an integer: its digits, most
    significant first, after a minus sign for a negative one. *)
Definition decimalDigits (z : Z) : jsstring :=
  match z with
  | Z0 => lit "0"
  | Zpos p => digitsOf (Pos.to_uint p)
  | Zneg p => lit "-" ++ digitsOf (Pos.to_uint p)
  end.

(** The binary64 value nearest to an integer, ties to even; infinite from
    2^1024 - 2^970 on. *)
Definition toNumber (z : Z) : spec_float := binary_normalize 53 1024 z 0 false.

(** A safe integer: below 2^53 in magnitude. Every safe integer is a
    Number, and consecutive safe integers are different Numbers. *)
Definition isSafeInteger (z : Z) : bool := Z.abs z <? 2 ^ 53.

(** An integer-valued Number is written as the integer it is, and the
    Numbers plus and minus infinity as 2^1024 and -2^1024, which no finite
    Number equals and which compare with every finite Number as the
    infinities do. [numberFor z] is the Number for the mathematical
    integer [z]: [z] itself when it is safe, and otherwise the value of the
    nearest binary64. *)
Definition numberFor (z : Z) : Z :=
  if isSafeInteger z then z
  else
    match toNumber z with
    | S754_finite s m e =>
        let v := Z.shiftl (Zpos m) e in if s then - v else v
    | S754_infinity s => if s then - 2 ^ 1024 else 2 ^ 1024
    | _ => 0
    end.

Definition isDigitUnit (c : jschar) : bool := ((48 <=? c) && (c <=? 57))%N.

(** The mathematical integer a run of decimal digits stands for, read
    after [acc]; reading stops at the first unit that is not a digit. This
    is [mathInt] in the definition of [parseInt], before it is made a
    Number. *)
Fixpoint decimalValue (acc : Z) (s : jsstring) : Z :=
  match s with
  | [] => acc
  | c :: s' =>
      if isDigitUnit c then decimalValue (10 * acc + (Z.of_N c - 48)) s'
      else acc
  end.

Fixpoint skipWhiteSpace (s : jsstring) : jsstring :=
  match s with
  | c :: s' => if isWhiteSpaceUnit c then skipWhiteSpace s' else s
  | [] => []
  end.

(** The integer a string begins with, [None] when it does not begin with
    a digit. *)
Definition leadingInteger (t : jsstring) : option Z :=
  match t with
  | c :: _ => if isDigitUnit c then Some (decimalValue 0 t) else None
  | [] => None
  end.

(** The signed mathematical integer [parseInt] reads; [None] where it
    returns [NaN]. Leading whitespace is skipped and one sign is read (45
    is the minus sign, 43 the plus sign). *)
Definition signedInteger (s : jsstring) : option Z :=
  match skipWhiteSpace s with
  | c :: t =>
      if N.eqb c 45 then option_map Z.opp (leadingInteger t)
      else if N.eqb c 43 then leadingInteger t
      else leadingInteger (c :: t)
  | [] => None
  end.

(** [parseInt(s, 10)]: the Number for the integer read; [None] is [NaN].
    (Past the 20th significant digit ECMA-262 lets an implementation read
    zeros for the digits; here, as in the engines, every digit counts.) *)
Definition parseInt10 (s : jsstring) : option Z :=
  option_map numberFor (signedInteger s).

(** [Number::toString] of a finite positive Number that is not a safe
    integer: the shortest digits that read back as the Number, padded
    with zeros below 1e21 and in exponent notation from 1e21 on. *)
Class NumberFormat := {
  largeToString : spec_float -> jsstring
}.

(** [Number.prototype.toString] of an integer-valued Number: the decimal
    digits of a safe integer, and the platform's text for a larger
    magnitude. *)
Definition numberToString {F : NumberFormat} (z : Z) : jsstring :=
  if isSafeInteger z then decimalDigits z
  else
    (if z <? 0 then lit "-" else [])
    ++ match toNumber (Z.abs z) with
       | S754_infinity _ => lit "Infinity"
       | x => largeToString x
       end.

(** Steps 9 and 10 of [Number.prototype.toFixed]: [n] is the integer
    nearest to [x * 10^f], the larger one on a tie. *)
Definition fixedNotation (n : Z) (f : nat) : jsstring :=
  let m := if n =? 0 then lit "0" else decimalDigits n in
  let m := if (length m <=? f)%nat
           then repeat 48%N (f + 1 - length m) ++ m else m in
  let k := length m in
  firstn (k - f) m ++ lit "." ++ skipn (k - f) m.

(** The integer nearest to [m * 2^e * 10^f], the larger one on a tie. *)
Definition scaledNearest (m : positive) (e : Z) (f : nat) : Z :=
  let p := 10 ^ Z.of_nat f in
  if 0 <=? e then Zpos m * 2 ^ e * p
  else (2 * Zpos m * p + 2 ^ (- e)) / 2 ^ (- e + 1).

Section WithFormat.
Context {F : NumberFormat}.

(** [x.toFixed(f)] *)
Definition toFixed (x : spec_float) (f : nat) : jsstring :=
  match x with
  | S754_nan => lit "NaN"
  | S754_infinity s => if s then lit "-Infinity" else lit "Infinity"
  | S754_zero _ => fixedNotation 0 f
  | S754_finite s m e =>
      (if s then lit "-" else [])
      ++ (if SFleb (toNumber (10 ^ 21)) (S754_finite false m e)
          then largeToString (S754_finite false m e)
          else fixedNotation (scaledNearest m e f) f)
  end.

End WithFormat.

End Num.

Import Num.

(* ================================================================== *)
(** * types.ts *)

Module Types.

Inductive NGramType := Monograms | Bigrams | Trigrams | Skipgrams | Words.

(** The string literal a value of [NGramType] is at run time. *)
Definition typeName (t : NGramType) : jsstring :=
  match t with
  | Monograms => lit "monograms"
  | Bigrams => lit "bigrams"
  | Trigrams => lit "trigrams"
  | Skipgrams => lit "skipgrams"
  | Words => lit "words"
  end.

Definition NGramType_eqb (a b : NGramType) : bool :=
  match a, b with
  | Monograms, Monograms | Bigrams, Bigrams | Trigrams, Trigrams
  | Skipgrams, Skipgrams | Words, Words => true
  | _, _ => false
  end.

Record CorpusData := {
  name : jsstring;
  text : jsstring;
  isCustom : bool
}.

Record SearchSettings := {
  query : jsstring;
  useRegex : bool;
  filters : FilterSettings;
  limit : Z
}.

(** [CorpusExplorerState] without its [analysis] field, which the URL
    state never reads or writes. *)
Record CorpusExplorerState := {
  corpus : option CorpusData;
  search : SearchSettings;
  selectedNGramType : NGramType
}.

(** [Partial<CorpusExplorerState>]: every field may be absent. *)
Record PartialState := {
  p_corpus : option (option CorpusData);
  p_search : option SearchSettings;
  p_selectedNGramType : option NGramType
}.

End Types.

Import Types.

(* ================================================================== *)
(** * export/csv.ts *)

Module Csv.

Definition getSequenceColumnLabel (type : NGramType) : jsstring :=
  match type with
  | Monograms => lit "Monogram"
  | Bigrams => lit "Bigram"
  | Trigrams => lit "Trigram"
  | Skipgrams => lit "Skipgram"
  | Words => lit "Word"
  end.

Definition comma : jschar := 44%N.
Definition quote : jschar := 34%N.
Definition newline : jschar := 10%N.

(** [value.includes(c)] for a one-unit string [c]. *)
Definition includes (value : jsstring) (c : jschar) : bool :=
  existsb (N.eqb c) value.

(** [value.replace] with the global pattern of one quote character: every
    quote becomes two quotes. *)
Definition doubleQuotes (value : jsstring) : jsstring :=
  flat_map (fun c => if N.eqb c quote then [quote; quote] else [c]) value.

Definition escapeCSVField (value : jsstring) : jsstring :=
  if includes value comma || includes value quote || includes value newline
  then [quote] ++ doubleQuotes value ++ [quote]
  else value.

(** [lines.join(sep)] *)
Fixpoint join (sep : jsstring) (lines : list jsstring) : jsstring :=
  match lines with
  | [] => []
  | [l] => l
  | l :: rest => l ++ sep ++ join sep rest
  end.

Section WithFormat.
Context {F : NumberFormat}.

(** [((ngram.frequency / total) * 100)] in binary64 arithmetic. *)
Definition percentage (frequency total : Z) : spec_float :=
  SFmul 53 1024 (SFdiv 53 1024 (toNumber frequency) (toNumber total))
        (toNumber 100).

(** The line pushed for one entry. *)
Definition dataRow (total : Z) (ngram : NGramData) : jsstring :=
  let sequence := escapeCSVField ([quote] ++ sequence ngram ++ [quote]) in
  let counts := numberToString (frequency ngram) in
  let frequency :=
    if 0 <? total then toFixed (percentage (frequency ngram) total) 3
    else lit "0.000" in
  numberToString (rank ngram) ++ [comma] ++ sequence ++ [comma] ++ counts
  ++ [comma] ++ frequency ++ lit "%".

Definition headerRow (type : NGramType) : jsstring :=
  lit "Rank," ++ getSequenceColumnLabel type ++ lit ",Counts,Frequency".

Definition csvLines (ngramData : list NGramData) (type : NGramType)
  (total : Z) : list jsstring :=
  headerRow type :: List.map (dataRow total) ngramData.

(** [exportToCSV] downloads a file: its name and its content. *)
Definition exportToCSV (ngramData : list NGramData) (type : NGramType)
  (total : Z) : jsstring * jsstring :=
  (typeName type ++ lit "_export.csv",
   join [newline] (csvLines ngramData type total)).

End WithFormat.

End Csv.

Import Csv.

(* ================================================================== *)
(** * url-state/serializer.ts and url-state/deserializer.ts *)

Module UrlState.

(** [URLSearchParams]: name/value pairs in order; [null] is [None]. *)
Definition URLSearchParams := list (jsstring * jsstring).

Definition isHighSurrogate (c : jschar) : bool :=
  ((55296 <=? c) && (c <=? 56319))%N.

Definition isLowSurrogate (c : jschar) : bool :=
  ((56320 <=? c) && (c <=? 57343))%N.

(** The conversion of a string to a [USVString], which the methods of
    [URLSearchParams] apply to their arguments: a high surrogate followed
    by a low surrogate is kept, and any other surrogate is replaced by
    U+FFFD (65533). *)
Fixpoint toUSVString (s : jsstring) : jsstring :=
  match s with
  | [] => []
  | c :: rest =>
      if isHighSurrogate c then
        match rest with
        | d :: rest' =>
            if isLowSurrogate d then c :: d :: toUSVString rest'
            else 65533%N :: toUSVString rest
        | [] => [65533%N]
        end
      else if isLowSurrogate c then 65533%N :: toUSVString rest
      else c :: toUSVString rest
  end.

(** The list operation of [get]: the value of the first pair of a name. *)
Fixpoint firstValue (params : URLSearchParams) (name : jsstring)
  : option jsstring :=
  match params with
  | [] => None
  | (n, v) :: rest => if str_eqb n name then Some v else firstValue rest name
  end.

(** [params.get(name)] *)
Definition params_get (params : URLSearchParams) (name : jsstring)
  : option jsstring :=
  firstValue params (toUSVString name).

(** The list operation of [set]: the first pair of that name takes the
    value and the others of that name are removed; a new name is
    appended. *)
Fixpoint setValue (params : URLSearchParams) (name value : jsstring)
  : URLSearchParams :=
  match params with
  | [] => [(name, value)]
  | (n, v) :: rest =>
      if str_eqb n name
      then (n, value) :: filter (fun p => negb (str_eqb (fst p) name)) rest
      else (n, v) :: setValue rest name value
  end.

(** [params.set(name, value)] *)
Definition params_set (params : URLSearchParams) (name value : jsstring)
  : URLSearchParams :=
  setValue params (toUSVString name) (toUSVString value).

(** Truthiness of a string: the empty string is falsy. *)
Definition truthy (s : jsstring) : bool :=
  match s with
  | [] => false
  | _ :: _ => true
  end.

Section WithFormat.
Context {F : NumberFormat}.

Definition serializeState (state : PartialState) : URLSearchParams :=
  let params : URLSearchParams := [] in
  let params :=
    match p_corpus state with
    | Some (Some c) =>
        if isCustom c then params_set params (lit "corpus") (lit "custom")
        else params_set params (lit "corpus") (name c)
    | _ => params
    end in
  let params :=
    match p_selectedNGramType state with
    | Some t =>
        if truthy (typeName t) && negb (str_eqb (typeName t) (lit "bigrams"))
        then params_set params (lit "type") (typeName t)
        else params
    | None => params
    end in
  match p_search state with
  | Some s =>
      let params :=
        if 0 <? limit s
        then params_set params (lit "limit") (numberToString (limit s))
        else params in
      let params :=
        if truthy (query s) then params_set params (lit "search") (query s)
        else params in
      let params :=
        if useRegex s then params_set params (lit "regex") (lit "true")
        else params in
      let params :=
        if negb (filterWhitespace (filters s))
        then params_set params (lit "whitespace") (lit "false")
        else params in
      let params :=
        if filterPunctuation (filters s)
        then params_set params (lit "punct") (lit "true")
        else params in
      if caseSensitive (filters s)
      then params_set params (lit "case") (lit "true")
      else params
  | None => params
  end.

End WithFormat.

(** The array [validTypes] of the deserializer. *)
Definition validTypes : list NGramType := [Monograms; Bigrams; Trigrams; Words].

(** A field of a partial object has been assigned. *)
Definition isSome {A : Type} (o : option A) : bool :=
  match o with Some _ => true | None => false end.

(** [o.field !== undefined ? o.field : d], and [o.field || d] where the
    falsy values of the field are the default itself. *)
Definition orElse {A : Type} (o : option A) (d : A) : A :=
  match o with Some x => x | None => d end.

(** [param === 'literal'] on the result of [params.get]. *)
Definition isLiteral (param : option jsstring) (s : jsstring) : bool :=
  match param with
  | Some v => str_eqb v s
  | None => false
  end.

Definition deserializeState (params : URLSearchParams) : PartialState :=
  let corpusParam := params_get params (lit "corpus") in
  let corpus' : option (option CorpusData) :=
    match corpusParam with
    | Some c =>
        if truthy c then
          if str_eqb c (lit "custom") then Some None
          else Some (Some {| name := c; text := []; isCustom := false |})
        else None
    | None => None
    end in
  let typeParam := params_get params (lit "type") in
  (* [validTypes.includes(typeParam)] and the cast to [NGramType] *)
  let selected : option NGramType :=
    match typeParam with
    | Some t =>
        if truthy t
        then find (fun v => str_eqb (typeName v) t) validTypes
        else None
    | None => None
    end in
  let limitParam := params_get params (lit "limit") in
  let settingsLimit : option Z :=
    match limitParam with
    | Some l =>
        if truthy l then
          match parseInt10 l with
          | Some limit => if 0 <? limit then Some limit else None
          | None => None
          end
        else None
    | None => None
    end in
  let settingsQuery : option jsstring := params_get params (lit "search") in
  let settingsRegex : option bool :=
    if isLiteral (params_get params (lit "regex")) (lit "true")
    then Some true else None in
  let fWhitespace : option bool :=
    if isLiteral (params_get params (lit "whitespace")) (lit "false")
    then Some false else None in
  let fPunctuation : option bool :=
    if isLiteral (params_get params (lit "punct")) (lit "true")
    then Some true else None in
  let fCase : option bool :=
    if isLiteral (params_get params (lit "case")) (lit "true")
    then Some true else None in
  let search' : option SearchSettings :=
    if isSome settingsLimit || isSome settingsQuery || isSome settingsRegex
       || (isSome fWhitespace || isSome fPunctuation || isSome fCase)
    then Some {| query := orElse settingsQuery [];
                 useRegex := orElse settingsRegex false;
                 limit := orElse settingsLimit 0;
                 filters :=
                   {| filterWhitespace := orElse fWhitespace true;
                      filterPunctuation := orElse fPunctuation false;
                      caseSensitive := orElse fCase false |} |}
    else None in
  {| p_corpus := corpus'; p_search := search';
     p_selectedNGramType := selected |}.

End UrlState.

Import UrlState.

(* ================================================================== *)
(** * index.ts: the state the URL is written from and read into *)

Module Explorer.

(** The initial value of [currentState]. *)
Definition initialState : CorpusExplorerState :=
  {| corpus := None;
     search := {| query := []; useRegex := false;
                  filters := {| filterWhitespace := true;
                                filterPunctuation := false;
                                caseSensitive := false |};
                  limit := 0 |};
     selectedNGramType := Bigrams |}.

(** [updateURL(currentState)] hands the whole state to [serializeState]. *)
Definition asPartial (state : CorpusExplorerState) : PartialState :=
  {| p_corpus := Some (corpus state);
     p_search := Some (search state);
     p_selectedNGramType := Some (selectedNGramType state) |}.

(** [initializeCorpusExplorer]: the URL state is laid over [currentState].
    A [search] that is present carries all four fields and all three
    filters, so the two spreads replace the whole of [currentState.search]. *)
Definition applyURLState (currentState : CorpusExplorerState)
  (urlState : PartialState) : CorpusExplorerState :=
  let selected :=
    match p_selectedNGramType urlState with
    | Some t => t
    | None => selectedNGramType currentState
    end in
  let search' :=
    match p_search urlState with
    | Some s => s
    | None => search currentState
    end in
  {| corpus := corpus currentState; search := search';
     selectedNGramType := selected |}.

(** What a page load restores from the URL written for [state]. *)
Definition restore {F : NumberFormat} (state : CorpusExplorerState)
  : CorpusExplorerState :=
  applyURLState initialState (deserializeState (serializeState (asPartial state))).

End Explorer.

Import Explorer.

(* ================================================================== *)
(** * Vocabulary of the specification *)

Module Spec.

(** Sum of the counts of a table. *)
Definition sumCounts (m : JSMap) : Z :=
  fold_right (fun e acc => snd e + acc) 0 m.

(** Sum of the frequencies of a ranked list. *)
Definition sumFrequency (l : list NGramData) : Z :=
  fold_right (fun e acc => frequency e + acc) 0 l.

(** A raw pair survives the whitespace and punctuation filters. *)
Definition survives (filters : FilterSettings) (entry : jsstring * Z) : bool :=
  negb (filterWhitespace filters && containsWhitespace (fst entry))
  && negb (filterPunctuation filters && containsPunctuation (fst entry)).

(** Splitting a text on whitespace characters, in the words of the
    specification: every whitespace unit ends the current token and starts
    a new one, so that the tokens are the runs between whitespace units
    (empty between two adjacent ones and at either end). *)
Fixpoint splitOnWhitespace (text : jsstring) : list jsstring :=
  match text with
  | [] => [[]]
  | c :: rest =>
      if isWhiteSpaceUnit c then [] :: splitOnWhitespace rest
      else match splitOnWhitespace rest with
           | tok :: toks => (c :: tok) :: toks
           | [] => [[c]]
           end
  end.

Definition nonEmpty (s : jsstring) : bool := negb (str_eqb s []).

(** The non-empty tokens: the maximal runs of non-whitespace units. *)
Definition nonEmptyTokens (text : jsstring) : list jsstring :=
  filter nonEmpty (splitOnWhitespace text).

(** Number of occurrences of [w] in a list of tokens. *)
Definition occurrences (w : jsstring) (toks : list jsstring) : Z :=
  Z.of_nat (length (filter (str_eqb w) toks)).

(** Lexicographic comparison of two strings, unit by unit (the order of the
    relational operators on strings): negative, zero or positive. *)
Fixpoint lexCompare (a b : jsstring) : Z :=
  match a, b with
  | [], [] => 0
  | [], _ :: _ => -1
  | _ :: _, [] => 1
  | x :: a', y :: b' =>
      match N.compare x y with
      | Lt => -1
      | Gt => 1
      | Eq => lexCompare a' b'
      end
  end.

(** The keys of a table are pairwise distinct, as in any [Map]. *)
Definition distinctKeys (m : JSMap) : Prop := NoDup (List.map fst m).

End Spec.

Import Spec.

(* ================================================================== *)
(** * Sample platform functions, for concrete evaluation *)

Module Samples.

Definition asciiLowerUnit (c : jschar) : jschar :=
  if ((65 <=? c) && (c <=? 90))%N then (c + 32)%N else c.

Definition asciiLower (s : jsstring) : jsstring := List.map asciiLowerUnit s.

(** The plainest consistent comparator: the lexicographic one. *)
Definition codeUnitBuiltins : Builtins :=
  {| toLowerCase := asciiLower; localeCompare := lexCompare |}.

(** A comparator with two traits of the collations behind [localeCompare].
    Letters are ordered alphabetically before case is looked at, so that
    the small letter a comes before the capital letter B. And canonically
    equivalent strings compare as equal, which ECMA-262 requires of
    [localeCompare] also for distinguishable strings; here for U+00E9
    (e with acute), equivalent to U+0065 U+0301, and for U+212A KELVIN
    SIGN, equivalent to U+004B. *)
Definition decompose (c : jschar) : jsstring :=
  if N.eqb c 233 then [101%N; 769%N]
  else if N.eqb c 8490 then [75%N]
  else [c].

Definition canonicalForm (s : jsstring) : jsstring := flat_map decompose s.

Definition collationCompare (a b : jsstring) : Z :=
  let primary :=
    lexCompare (asciiLower (canonicalForm a)) (asciiLower (canonicalForm b)) in
  if primary =? 0 then lexCompare (canonicalForm b) (canonicalForm a)
  else primary.

Definition collationBuiltins : Builtins :=
  {| toLowerCase := asciiLower; localeCompare := collationCompare |}.

Definition plainFormat : NumberFormat :=
  {| largeToString := fun _ => lit "1e+21" |}.

End Samples.

Import Samples.

(* ================================================================== *)
(** * Auxiliary definitions of the proofs *)

(** An entry has a key of shape [P] and a count of at least one. *)
Definition wellShaped (P : jsstring -> Prop) (e : jsstring * Z) : Prop :=
  P (fst e) /\ 1 <= snd e.

(** The word part of one iteration, on the unit read. *)
Definition wordStep (acc : JSMap * jsstring) (c : jschar) : JSMap * jsstring :=
  let '(table, cur) := acc in
  if isWhiteSpaceUnit c then
    if (0 <? length cur)%nat then (increment table cur, []) else (table, cur)
  else (table, cur ++ [c]).

(** The final flush of the accumulator. *)
Definition flushWord (acc : JSMap * jsstring) : JSMap :=
  let '(table, cur) := acc in
  if (0 <? length cur)%nat then increment table cur else table.

(** A word: not empty and free of whitespace. *)
Definition isWord (k : jsstring) : Prop := k <> [] /\ testWhitespace k = false.

(** The count a table holds for [w], zero for an absent key. *)
Definition countOf (m : JSMap) (w : jsstring) : Z := orZero (map_get m w).

(** [a] may stand before [b] in the sorted array. *)
Definition precedes {B : Builtins} (a b : jsstring * Z) : Prop :=
  compareEntries a b <= 0.

(** The value is one [toFixed] writes in fixed notation: zero, or finite
    and below 1e21 in magnitude. *)
Definition fixedRange (x : spec_float) : bool :=
  match x with
  | S754_zero _ => true
  | S754_finite _ m e => negb (SFleb (toNumber (10 ^ 21)) (S754_finite false m e))
  | _ => false
  end.

(** The position of the quotient [N / D] between the integers [m] and
    [m + 1], as a [location] of the rounding functions tells it. *)
Definition located (N D m : Z) (l : location) : Prop :=
  match l with
  | loc_Exact => N = m * D
  | loc_Inexact Lt => m * D < N /\ 2 * N < (2 * m + 1) * D
  | loc_Inexact Eq => 2 * N = (2 * m + 1) * D
  | loc_Inexact Gt => (2 * m + 1) * D < 2 * N /\ N < (m + 1) * D
  end.

(** A text does not go on with a digit. *)
Definition endsNumber (rest : jsstring) : Prop :=
  match rest with
  | c :: _ => isDigitUnit c = false
  | [] => True
  end.

(** The parameters written for the corpus. *)
Definition corpusParams (c : option CorpusData) : URLSearchParams :=
  match c with
  | Some c =>
      if isCustom c then params_set [] (lit "corpus") (lit "custom")
      else params_set [] (lit "corpus") (name c)
  | None => []
  end.

(* ================================================================== *)
(** * ui/analysis.ts: the data behind the table *)

Module Display.

(** [AnalysisResults]. [performAnalysis] builds the object without the
    property [skipgrams], which then reads as [undefined]: [None]. *)
Record AnalysisResults := {
  a_monograms : list NGramData;
  a_bigrams : list NGramData;
  a_trigrams : list NGramData;
  a_skipgrams : option (list NGramData);
  a_words : list NGramData;
  a_totals : Totals
}.

(** [matchesSearch] of search/matcher.ts, a module that is not among the
    sources at hand. *)
Class Matcher := {
  matchesSearch : jsstring -> SearchSettings -> bool
}.

(** [results[selectedType]], and [results.words] for the type words. *)
Definition dataOf (results : AnalysisResults) (selectedType : NGramType)
  : option (list NGramData) :=
  match selectedType with
  | Monograms => Some (a_monograms results)
  | Bigrams => Some (a_bigrams results)
  | Trigrams => Some (a_trigrams results)
  | Skipgrams => a_skipgrams results
  | Words => Some (a_words results)
  end.

(** [results.totals[selectedType]] *)
Definition totalOf (totals : Totals) (selectedType : NGramType) : Z :=
  match selectedType with
  | Monograms => t_monograms totals
  | Bigrams => t_bigrams totals
  | Trigrams => t_trigrams totals
  | Skipgrams => t_skipgrams totals
  | Words => t_words totals
  end.

(** [ngramData.reduce((sum, ngram) => sum + ngram.frequency, 0)] *)
Definition sumOfCounts (ngramData : list NGramData) : Z :=
  fold_left (fun sum ngram => sum + frequency ngram) ngramData 0.

(** [ngramData.map((ngram, index) => ({...ngram, rank: index + 1}))] *)
Definition rerank (ngramData : list NGramData) : list NGramData :=
  mapi (fun ngram index =>
          {| sequence := sequence ngram; frequency := frequency ngram;
             rank := index + 1 |}) ngramData.

(** [ngramData.slice(0, limit)] for an integer [limit]. *)
Definition sliceTo (ngramData : list NGramData) (limit : Z)
  : list NGramData :=
  firstn (Z.to_nat limit) ngramData.

(** The search filter with the ranks recalculated, applied when the query
    is not empty. *)
Definition applySearch {M : Matcher} (ngramData : list NGramData)
  (settings : SearchSettings) : list NGramData :=
  if truthy (query settings)
  then rerank (filter (fun ngram => matchesSearch (sequence ngram) settings)
                 ngramData)
  else ngramData.

(** The limit, applied when it is positive. *)
Definition applyLimit (ngramData : list NGramData)
  (settings : SearchSettings) : list NGramData :=
  if 0 <? limit settings then sliceTo ngramData (limit settings)
  else ngramData.

(** What [createAnalysisDisplay] computes for the table and the statistics
    line. *)
Record Shown := {
  shownRows : list NGramData;
  shownTotal : Z;
  preFilterCount : Z;
  displayedCount : Z;
  shownPercentage : spec_float;
  hasFilters : bool
}.

(** The outcome of [createAnalysisDisplay]: the message that no results are
    available, or the table. *)
Inductive Rendering :=
| NoResults
| Table (shown : Shown).

Section WithMatcher.
Context {M : Matcher}.

(** [createAnalysisDisplay], the data it puts on the page; [None] is the
    TypeError of calling [reduce] on [undefined]. *)
Definition createAnalysisDisplay (results : option AnalysisResults)
  (selectedType : NGramType) (searchSettings : option SearchSettings)
  : option Rendering :=
  match results with
  | None => Some NoResults
  | Some results =>
      match dataOf results selectedType with
      | None => None
      | Some ngramData =>
          let total := totalOf (a_totals results) selectedType in
          let preFilterCount := sumOfCounts ngramData in
          let ngramData :=
            match searchSettings with
            | Some settings => applySearch ngramData settings
            | None => ngramData
            end in
          let ngramData :=
            match searchSettings with
            | Some settings => applyLimit ngramData settings
            | None => ngramData
            end in
          let displayedCount := sumOfCounts ngramData in
          let percentage :=
            if 0 <? preFilterCount
            then SFmul 53 1024
                   (SFdiv 53 1024 (toNumber displayedCount)
                      (toNumber preFilterCount))
                   (toNumber 100)
            else toNumber 0 in
          let hasFilters :=
            match searchSettings with
            | Some settings =>
                truthy (query settings) || (0 <? limit settings)
            | None => false
            end in
          Some (Table {| shownRows := ngramData; shownTotal := total;
                         preFilterCount := preFilterCount;
                         displayedCount := displayedCount;
                         shownPercentage := percentage;
                         hasFilters := hasFilters |})
      end
  end.

End WithMatcher.

(** ** The rows of the virtual scroller *)

Definition ROW_HEIGHT : Z := 40.
Definition BUFFER : Z := 10.

(** A row of the table body: a spacer of a height in pixels, or the row
    [createTableRow] builds for an entry. *)
Inductive BodyRow :=
| SpacerRow (height : Z)
| EntryRow (ngram : NGramData).

(** The height the scroller works with: [clientHeight], or when that is 0
    the parent's ([undefined] and 0 give way to 400). *)
Definition containerHeightOf (clientHeight : Z)
  (parentClientHeight : option Z) : Z :=
  if clientHeight =? 0 then
    match parentClientHeight with
    | Some h => if h =? 0 then 400 else h
    | None => 400
    end
  else clientHeight.

(** [Math.ceil(a / b)] for integers, [b] positive. *)
Definition ceilDiv (a b : Z) : Z := - ((- a) / b).

(** [startIndex] and [endIndex] for a scroll offset in whole pixels;
    [Math.floor] of the quotient is the quotient of [Z]. *)
Definition visibleRange (scrollTop containerHeight length : Z) : Z * Z :=
  let visibleCount := ceilDiv containerHeight ROW_HEIGHT in
  let startIndex := Z.max 0 (scrollTop / ROW_HEIGHT - BUFFER) in
  let endIndex := Z.min length (startIndex + visibleCount + BUFFER * 2) in
  (startIndex, endIndex).

(** The loop [for (let i = startIndex; i < endIndex; i++)] with [count]
    iterations left; [None] is the TypeError of [createTableRow] on
    [ngrams[i]] being [undefined]. *)
Fixpoint entryRows (ngrams : list NGramData) (i : Z) (count : nat)
  : option (list BodyRow) :=
  match count with
  | O => Some []
  | S count' =>
      if i <? 0 then None
      else
        match nth_error ngrams (Z.to_nat i) with
        | Some ngram =>
            option_map (cons (EntryRow ngram)) (entryRows ngrams (i + 1) count')
        | None => None
        end
  end.

(** [updateVisibleRows]: the rows put into the table body. *)
Definition updateVisibleRows (ngrams : list NGramData)
  (scrollTop clientHeight : Z) (parentClientHeight : option Z)
  : option (list BodyRow) :=
  let containerHeight := containerHeightOf clientHeight parentClientHeight in
  let length := Z.of_nat (List.length ngrams) in
  let '(startIndex, endIndex) :=
    visibleRange scrollTop containerHeight length in
  let top :=
    if 0 <? startIndex then [SpacerRow (startIndex * ROW_HEIGHT)] else [] in
  let bottom :=
    if endIndex <? length
    then [SpacerRow ((length - endIndex) * ROW_HEIGHT)] else [] in
  match entryRows ngrams startIndex (Z.to_nat (endIndex - startIndex)) with
  | Some rows => Some (top ++ rows ++ bottom)
  | None => None
  end.

End Display.

Import Display.

(* ================================================================== *)
(** * index.ts: analysis and export *)

Module Handlers.

(** The module state of index.ts: [currentState] with its [analysis] field
    kept apart, and whether [analysisSection] has been created. *)
Record Session := {
  currentState : CorpusExplorerState;
  analysis : option AnalysisResults;
  analysisSection : bool
}.

(** The calls that change the module state after the page is set up: the
    three handlers and the callback [createControlsPanel] is given for a
    loaded corpus. *)
Inductive Event :=
| TypeChange (type : NGramType)
| FilterChange (newFilters : FilterSettings)
| SearchChange (settings : SearchSettings)
| CorpusLoad (text name : jsstring) (isCustom : bool).

(** [initializeCorpusExplorer]: the name handed to [loadPreset], if any,
    under the test [urlState.corpus && !urlState.corpus.isCustom]. *)
Definition presetToLoad (urlState : PartialState) : option jsstring :=
  match p_corpus urlState with
  | Some (Some c) => if negb (isCustom c) then Some (name c) else None
  | _ => None
  end.

Section WithPlatform.
Context {B : Builtins} {M : Matcher} {F : NumberFormat}.

(** [performAnalysis]: the state it leaves (the page updates apart). *)
Definition performAnalysis (s : Session) : Session :=
  match corpus (currentState s) with
  | None => s
  | Some c =>
      if negb (analysisSection s) then s
      else
        let ngramResults :=
          calculateFilteredNGrams (text c) (filters (search (currentState s))) in
        let results :=
          {| a_monograms := r_monograms ngramResults;
             a_bigrams := r_bigrams ngramResults;
             a_trigrams := r_trigrams ngramResults;
             a_skipgrams := None;
             a_words := r_words ngramResults;
             a_totals := totals ngramResults |} in
        {| currentState := currentState s; analysis := Some results;
           analysisSection := analysisSection s |}
  end.

(** [handleFilterChange] *)
Definition handleFilterChange (s : Session) (newFilters : FilterSettings)
  : Session :=
  let st := currentState s in
  performAnalysis
    {| currentState :=
         {| corpus := corpus st;
            search := {| query := query (search st);
                         useRegex := useRegex (search st);
                         filters := newFilters;
                         limit := limit (search st) |};
            selectedNGramType := selectedNGramType st |};
       analysis := analysis s; analysisSection := analysisSection s |}.

(** [handleSearchChange] *)
Definition handleSearchChange (s : Session) (settings : SearchSettings)
  : Session :=
  let st := currentState s in
  {| currentState :=
       {| corpus := corpus st;
          search := {| query := query settings;
                       useRegex := useRegex settings;
                       limit := limit settings;
                       filters := filters (search st) |};
          selectedNGramType := selectedNGramType st |};
     analysis := analysis s; analysisSection := analysisSection s |}.

(** [handleNGramTypeChange] *)
Definition handleNGramTypeChange (s : Session) (type : NGramType) : Session :=
  let st := currentState s in
  {| currentState :=
       {| corpus := corpus st; search := search st;
          selectedNGramType := type |};
     analysis := analysis s; analysisSection := analysisSection s |}.

(** The callback of [updateControlsPanel] for a loaded corpus;
    [isCustom || false] is [isCustom]. *)
Definition handleCorpusLoad (s : Session) (text name : jsstring)
  (isCustom : bool) : Session :=
  let st := currentState s in
  performAnalysis
    {| currentState :=
         {| corpus := Some {| name := name; text := text;
                              isCustom := isCustom |};
            search := search st;
            selectedNGramType := selectedNGramType st |};
       analysis := analysis s; analysisSection := analysisSection s |}.

Definition step (s : Session) (e : Event) : Session :=
  match e with
  | TypeChange type => handleNGramTypeChange s type
  | FilterChange newFilters => handleFilterChange s newFilters
  | SearchChange settings => handleSearchChange s settings
  | CorpusLoad text name isCustom => handleCorpusLoad s text name isCustom
  end.

(** The calls of a list, one after the other. *)
Definition run (events : list Event) (s : Session) : Session :=
  fold_left step events s.

(** The outcome of [handleExportCSV]: it returns without an export, or
    downloads a file. *)
Inductive Export :=
| NoExport
| Download (file : jsstring * jsstring).

(** [handleExportCSV]; [None] is the TypeError of using [undefined] as the
    list of entries ([filter], [slice], or the loop of [exportToCSV]). *)
Definition handleExportCSV (s : Session) : option Export :=
  match analysis s with
  | None => Some NoExport
  | Some results =>
      if negb (analysisSection s) then Some NoExport
      else
        let st := currentState s in
        let total := totalOf (a_totals results) (selectedNGramType st) in
        match dataOf results (selectedNGramType st) with
        | None => None
        | Some ngramData =>
            let ngramData :=
              if truthy (query (search st))
              then rerank (filter (fun ngram =>
                                     matchesSearch (sequence ngram) (search st))
                             ngramData)
              else ngramData in
            let ngramData :=
              if 0 <? limit (search st)
              then sliceTo ngramData (limit (search st))
              else ngramData in
            Some (Download (exportToCSV ngramData (selectedNGramType st) total))
        end
  end.

End WithPlatform.

End Handlers.

Import Handlers.

(* ================================================================== *)
(** * Vocabulary of the further properties *)

Module Windows.

(** The sequences the scanner counts, in the order of the text. *)
Definition monogramsOf (text : jsstring) : list jsstring :=
  List.map (fun c => [c]) text.

Fixpoint bigramsOf (text : jsstring) : list jsstring :=
  match text with
  | a :: ((b :: _) as rest) => [a; b] :: bigramsOf rest
  | _ => []
  end.

Fixpoint trigramsOf (text : jsstring) : list jsstring :=
  match text with
  | a :: ((b :: c :: _) as rest) => [a; b; c] :: trigramsOf rest
  | _ => []
  end.

Fixpoint skipgramsOf (text : jsstring) : list jsstring :=
  match text with
  | a :: ((_ :: c :: _) as rest) => [a; c] :: skipgramsOf rest
  | _ => []
  end.

(** A table filled by counting the keys of a list one after the other. *)
Definition tally (keys : list jsstring) : JSMap := fold_left increment keys [].

(** A sequence passes the whitespace and punctuation filters. *)
Definition passes (filters : FilterSettings) (k : jsstring) : bool :=
  survives filters (k, 0).

(** A sequence passes the filters and is normalized to [s]. *)
Definition landsOn {B : Builtins} (filters : FilterSettings) (s k : jsstring)
  : bool :=
  passes filters k
  && str_eqb (normalizeSequence k (caseSensitive filters)) s.

(** The entry of a ranked list as a pair of the table. *)
Definition asPair (e : NGramData) : jsstring * Z := (sequence e, frequency e).

(** A ranked list accounts for the occurrences of a list of sequences: each
    entry has the number of occurrences that pass the filters and are
    normalized to its sequence, at least one; every occurrence that passes
    the filters has its entry; and no sequence has two entries. *)
Definition accountsFor {B : Builtins} (filters : FilterSettings)
  (occurring : list jsstring) (ranked : list NGramData) : Prop :=
  (forall e, In e ranked ->
     1 <= frequency e
     /\ frequency e
        = Z.of_nat (length (filter (landsOn filters (sequence e)) occurring)))
  /\ (forall w, In w occurring -> passes filters w = true ->
      exists e, In e ranked
                /\ sequence e = normalizeSequence w (caseSensitive filters))
  /\ NoDup (List.map sequence ranked).

(** Two entries tie under the comparator of the ranking. *)
Definition ties {B : Builtins} (x e : jsstring * Z) : bool :=
  compareEntries x e =? 0.

(** The height of a row of the table body. *)
Definition rowHeight (r : BodyRow) : Z :=
  match r with
  | SpacerRow h => h
  | EntryRow _ => ROW_HEIGHT
  end.

(** The height of the table body. *)
Definition bodyHeight (rows : list BodyRow) : Z :=
  fold_right (fun r acc => rowHeight r + acc) 0 rows.

(** The names of the parameters of a serialized state. *)
Definition names (params : URLSearchParams) : list jsstring :=
  List.map fst params.

(** The eight names the serializer writes, in the order of its code. *)
Definition parameterNames : list jsstring :=
  [ lit "corpus"; lit "type"; lit "limit"; lit "search"; lit "regex";
    lit "whitespace"; lit "punct"; lit "case" ].

(** [l] is [m] with some of its elements left out. *)
Fixpoint subsequence (l m : list jsstring) : bool :=
  match l, m with
  | [], _ => true
  | _ :: _, [] => false
  | x :: l', y :: m' =>
      if str_eqb x y then subsequence l' m' else subsequence l m'
  end.

(** The analysis of a text under filter settings, as [performAnalysis]
    stores it. *)
Definition analysisOf {B : Builtins} (text : jsstring)
  (filters : FilterSettings) : AnalysisResults :=
  let ngramResults := calculateFilteredNGrams text filters in
  {| a_monograms := r_monograms ngramResults;
     a_bigrams := r_bigrams ngramResults;
     a_trigrams := r_trigrams ngramResults;
     a_skipgrams := None;
     a_words := r_words ngramResults;
     a_totals := totals ngramResults |}.

(** The stored analysis, if any, is the one of the current corpus under the
    current filter settings. *)
Definition analysisIsCurrent {B : Builtins} (s : Session) : Prop :=
  forall results, analysis s = Some results ->
    analysisSection s = true
    /\ exists c, corpus (currentState s) = Some c
                 /\ results
                    = analysisOf (text c) (filters (search (currentState s))).

(** The session of a page before any call. *)
Definition initialSession (created : bool) : Session :=
  {| currentState := initialState; analysis := None;
     analysisSection := created |}.

(** A sample of [matchesSearch]: the sequence begins with the query. *)
Fixpoint startsWith (s prefix : jsstring) : bool :=
  match prefix, s with
  | [], _ => true
  | _ :: _, [] => false
  | x :: prefix', y :: s' => N.eqb x y && startsWith s' prefix'
  end.

Definition prefixMatcher : Matcher :=
  {| matchesSearch := fun sequence settings =>
                        startsWith sequence (query settings) |}.

(** Sample data: a ranked list, an analysis holding it, search settings
    and sessions with a preset corpus. *)
Definition sampleBigrams : list NGramData :=
  [ {| sequence := lit "th"; frequency := 3; rank := 1 |};
    {| sequence := lit "he"; frequency := 2; rank := 2 |};
    {| sequence := lit "ta"; frequency := 1; rank := 3 |} ].

Definition sampleResults : AnalysisResults :=
  {| a_monograms := []; a_bigrams := sampleBigrams; a_trigrams := [];
     a_skipgrams := None; a_words := [];
     a_totals := {| t_monograms := 0; t_bigrams := 6; t_trigrams := 0;
                    t_skipgrams := 0; t_words := 0 |} |}.

Definition sampleSettings : SearchSettings :=
  {| query := lit "t"; useRegex := false;
     filters := filters (search initialState); limit := 1 |}.

Definition sampleCorpus : CorpusData :=
  {| name := lit "e200.txt"; text := lit "the cat"; isCustom := false |}.

Definition sampleSession (stored : option AnalysisResults) : Session :=
  {| currentState := {| corpus := Some sampleCorpus; search := sampleSettings;
                        selectedNGramType := Bigrams |};
     analysis := stored; analysisSection := true |}.

End Windows.

Import Windows.

(* ================================================================== *)
(** * Strings and maps *)

Lemma str_eqb_eq (a b : jsstring) : str_eqb a b = true <-> a = b.
Proof.
  revert b; induction a as [|x a IH]; intros [|y b]; simpl;
    try (split; [discriminate | discriminate]); try tauto.
  rewrite andb_true_iff, N.eqb_eq, IH.
  split; [intros [-> ->]; reflexivity | intros H; inversion H; auto].
Qed.

Lemma str_eqb_refl (a : jsstring) : str_eqb a a = true.
Proof. apply str_eqb_eq; reflexivity. Qed.

Lemma str_eqb_neq (a b : jsstring) : str_eqb a b = false <-> a <> b.
Proof.
  rewrite <- str_eqb_eq. destruct (str_eqb a b); split; congruence.
Qed.

Lemma str_eqb_sym (a b : jsstring) : str_eqb a b = str_eqb b a.
Proof.
  destruct (str_eqb a b) eqn:E.
  - apply str_eqb_eq in E; subst; symmetry; apply str_eqb_refl.
  - apply str_eqb_neq in E. symmetry; apply str_eqb_neq; congruence.
Qed.

Lemma orZero_id (o : option Z) :
  orZero o = match o with Some v => v | None => 0 end.
Proof.
  destruct o as [v|]; simpl; auto.
  destruct (Z.eqb_spec v 0); congruence.
Qed.

Lemma sumCounts_cons e (m : JSMap) :
  sumCounts (e :: m) = snd e + sumCounts m.
Proof. reflexivity. Qed.

Lemma sumCounts_set (m : JSMap) (k : jsstring) (v : Z) :
  sumCounts (map_set m k v)
  = sumCounts m - match map_get m k with Some x => x | None => 0 end + v.
Proof.
  induction m as [|[k' v'] m IH]; simpl.
  - lia.
  - destruct (str_eqb k' k); simpl.
    + lia.
    + rewrite IH; lia.
Qed.

(** Adding [f] to the count of [k] adds [f] to the sum of the table. *)
Lemma sumCounts_add (m : JSMap) (k : jsstring) (f : Z) :
  sumCounts (map_set m k (orZero (map_get m k) + f)) = sumCounts m + f.
Proof. rewrite sumCounts_set, orZero_id. lia. Qed.

Lemma sumCounts_increment (m : JSMap) (k : jsstring) :
  sumCounts (increment m k) = sumCounts m + 1.
Proof. apply sumCounts_add. Qed.

Lemma map_set_Forall (Q : jsstring * Z -> Prop) m k v :
  Forall Q m -> Q (k, v) -> Forall Q (map_set m k v).
Proof.
  intros Hm Hk; induction Hm as [|[k' v'] m Hx Hm IH]; simpl.
  - auto.
  - destruct (str_eqb k' k) eqn:E.
    + apply str_eqb_eq in E; subst; auto.
    + auto.
Qed.

Lemma map_get_In m k v : map_get m k = Some v -> In (k, v) m.
Proof.
  induction m as [|[k' v'] m IH]; simpl; [discriminate|].
  destruct (str_eqb k' k) eqn:E.
  - apply str_eqb_eq in E; intros [= ->]; subst; auto.
  - auto.
Qed.

Lemma map_get_None m k : map_get m k = None <-> ~ In k (List.map fst m).
Proof.
  induction m as [|[k' v'] m IH]; simpl; [tauto|].
  destruct (str_eqb k' k) eqn:E.
  - apply str_eqb_eq in E; subst. split; [discriminate | tauto].
  - apply str_eqb_neq in E. rewrite IH. tauto.
Qed.

Lemma map_set_fresh m k v :
  ~ In k (List.map fst m) -> map_set m k v = m ++ [(k, v)].
Proof.
  induction m as [|[k' v'] m IH]; simpl; intros H; auto.
  destruct (str_eqb k' k) eqn:E.
  - apply str_eqb_eq in E; subst; tauto.
  - rewrite IH; tauto.
Qed.

Lemma increment_wellShaped (P : jsstring -> Prop) m k :
  Forall (wellShaped P) m -> P k -> Forall (wellShaped P) (increment m k).
Proof.
  intros Hm Hk. apply map_set_Forall; auto.
  split; simpl; auto.
  rewrite orZero_id. destruct (map_get m k) as [v|] eqn:E; [|lia].
  apply map_get_In in E. rewrite Forall_forall in Hm.
  destruct (Hm _ E) as [_ Hv]; simpl in Hv; lia.
Qed.

(* ================================================================== *)
(** * The scanner *)

Lemma scanLoop_S text n :
  scanLoop text (S n) = scanStep text (scanLoop text n) n.
Proof.
  unfold scanLoop. rewrite seq_S, fold_left_app. reflexivity.
Qed.

Lemma charAt_in_range text i :
  (i < length text)%nat -> exists c, nth_error text i = Some c /\ charAt text i = [c].
Proof.
  intros H. unfold charAt.
  destruct (nth_error text i) as [c|] eqn:E.
  - eauto.
  - apply nth_error_None in E; lia.
Qed.

Lemma scanStep_monograms text st i :
  monogramCounts (scanStep text st i)
  = increment (monogramCounts st) (charAt text i).
Proof.
  unfold scanStep.
  destruct (isWhitespace _); [destruct (0 <? _)%nat|]; reflexivity.
Qed.

Lemma scanStep_bigrams text st i :
  bigramCounts (scanStep text st i)
  = if (i + 1 <? length text)%nat
    then increment (bigramCounts st) (charAt text i ++ charAt text (i + 1))
    else bigramCounts st.
Proof.
  unfold scanStep.
  destruct (isWhitespace _); [destruct (0 <? _)%nat|]; reflexivity.
Qed.

Lemma scanStep_trigrams text st i :
  trigramCounts (scanStep text st i)
  = if (i + 2 <? length text)%nat
    then increment (trigramCounts st)
           (charAt text i ++ charAt text (i + 1) ++ charAt text (i + 2))
    else trigramCounts st.
Proof.
  unfold scanStep.
  destruct (isWhitespace _); [destruct (0 <? _)%nat|]; reflexivity.
Qed.

Lemma scanStep_skipgrams text st i :
  skipgramCounts (scanStep text st i)
  = if (i + 2 <? length text)%nat
    then increment (skipgramCounts st) (charAt text i ++ charAt text (i + 2))
    else skipgramCounts st.
Proof.
  unfold scanStep.
  destruct (isWhitespace _); [destruct (0 <? _)%nat|]; reflexivity.
Qed.

(** The sums of the four n-gram tables after [n] iterations. *)
Lemma scanLoop_sums text n :
  (n <= length text)%nat ->
  let st := scanLoop text n in
  sumCounts (monogramCounts st) = Z.of_nat n
  /\ sumCounts (bigramCounts st) = Z.of_nat (Nat.min n (length text - 1))
  /\ sumCounts (trigramCounts st) = Z.of_nat (Nat.min n (length text - 2))
  /\ sumCounts (skipgramCounts st) = Z.of_nat (Nat.min n (length text - 2)).
Proof.
  induction n as [|n IH]; intros Hn; cbn zeta.
  - unfold scanLoop; simpl. repeat split; reflexivity.
  - rewrite scanLoop_S.
    rewrite scanStep_monograms, scanStep_bigrams, scanStep_trigrams,
      scanStep_skipgrams.
    destruct IH as (Hm & Hb & Ht & Hs); [lia|].
    repeat split.
    + rewrite sumCounts_increment, Hm; lia.
    + destruct (Nat.ltb_spec (n + 1) (length text)).
      * rewrite sumCounts_increment, Hb; lia.
      * rewrite Hb; lia.
    + destruct (Nat.ltb_spec (n + 2) (length text)).
      * rewrite sumCounts_increment, Ht; lia.
      * rewrite Ht; lia.
    + destruct (Nat.ltb_spec (n + 2) (length text)).
      * rewrite sumCounts_increment, Hs; lia.
      * rewrite Hs; lia.
Qed.

(** C4. For every text the counts of the raw monogram table sum to the
    length of the text; the counts of the raw bigram table sum to
    length - 1 when the length is at least 2 and to 0 otherwise; the counts
    of the raw trigram table and of the raw skipgram table each sum to
    length - 2 when the length is at least 3 and to 0 otherwise; and the
    empty text yields five empty tables. *)
Theorem raw_table_sums (text : jsstring) :
  let raw := calculateNGrams text in
  let len := Z.of_nat (length text) in
  sumCounts (monograms raw) = len
  /\ sumCounts (bigrams raw) = (if 2 <=? len then len - 1 else 0)
  /\ sumCounts (trigrams raw) = (if 3 <=? len then len - 2 else 0)
  /\ sumCounts (skipgrams raw) = (if 3 <=? len then len - 2 else 0)
  /\ calculateNGrams [] =
       {| monograms := []; bigrams := []; trigrams := []; skipgrams := [];
          words := [] |}.
Proof.
  cbn zeta. unfold calculateNGrams at 1 2 3 4; simpl.
  destruct (scanLoop_sums text (length text) (Nat.le_refl _))
    as (Hm & Hb & Ht & Hs).
  rewrite Hm, Hb, Ht, Hs.
  repeat split.
  - destruct (Z.leb_spec 2 (Z.of_nat (length text))); lia.
  - destruct (Z.leb_spec 3 (Z.of_nat (length text))); lia.
  - destruct (Z.leb_spec 3 (Z.of_nat (length text))); lia.
Qed.

Lemma isWhitespace_unit c : isWhitespace [c] = isWhiteSpaceUnit c.
Proof. unfold isWhitespace, testWhitespace; simpl. apply orb_false_r. Qed.

Lemma scanStep_words text st i c :
  charAt text i = [c] ->
  (wordCounts (scanStep text st i), currentWord (scanStep text st i))
  = wordStep (wordCounts st, currentWord st) c.
Proof.
  intros Hc. unfold scanStep, wordStep. rewrite Hc, isWhitespace_unit.
  destruct (isWhiteSpaceUnit c); [destruct (0 <? _)%nat|]; reflexivity.
Qed.

Lemma firstn_snoc {A} (l : list A) n c :
  nth_error l n = Some c -> firstn (S n) l = firstn n l ++ [c].
Proof.
  revert n; induction l as [|x l IH]; intros [|n]; simpl; try discriminate.
  - intros [= ->]; reflexivity.
  - intros H; rewrite <- IH by exact H. reflexivity.
Qed.

(** The word table and the accumulator after [n] iterations are those of a
    left-to-right pass over the first [n] units. *)
Lemma scanLoop_words text n :
  (n <= length text)%nat ->
  (wordCounts (scanLoop text n), currentWord (scanLoop text n))
  = fold_left wordStep (firstn n text) ([], []).
Proof.
  induction n as [|n IH]; intros Hn.
  - reflexivity.
  - destruct (charAt_in_range text n) as (c & Hnth & Hc); [lia|].
    rewrite scanLoop_S, (scanStep_words _ _ _ _ Hc), IH by lia.
    rewrite (firstn_snoc _ _ _ Hnth), fold_left_app. reflexivity.
Qed.

Lemma calculateNGrams_words text :
  words (calculateNGrams text) = flushWord (fold_left wordStep text ([], [])).
Proof.
  unfold calculateNGrams; simpl.
  pose proof (scanLoop_words text (length text) (Nat.le_refl _)) as H.
  rewrite firstn_all in H. rewrite <- H. reflexivity.
Qed.

Lemma length_pos_nonnil {A} (l : list A) : (0 <? length l)%nat = true -> l <> [].
Proof. destruct l; simpl; [discriminate | discriminate]. Qed.

Lemma wordStep_shape acc c :
  Forall (wellShaped isWord) (fst acc) -> testWhitespace (snd acc) = false ->
  Forall (wellShaped isWord) (fst (wordStep acc c))
  /\ testWhitespace (snd (wordStep acc c)) = false.
Proof.
  destruct acc as [table cur]; simpl; intros Ht Hc.
  destruct (isWhiteSpaceUnit c) eqn:Ec.
  - destruct (0 <? length cur)%nat eqn:El; simpl; auto.
    split; auto. apply increment_wellShaped; auto.
    split; auto. apply length_pos_nonnil; auto.
  - simpl; split; auto.
    unfold testWhitespace in *. rewrite existsb_app, Hc; simpl.
    rewrite Ec; reflexivity.
Qed.

Lemma wordFold_shape s acc :
  Forall (wellShaped isWord) (fst acc) -> testWhitespace (snd acc) = false ->
  Forall (wellShaped isWord) (fst (fold_left wordStep s acc))
  /\ testWhitespace (snd (fold_left wordStep s acc)) = false.
Proof.
  revert acc; induction s as [|c s IH]; intros acc Ht Hc; simpl; auto.
  destruct (wordStep_shape acc c Ht Hc) as [Ht' Hc']. apply IH; auto.
Qed.

Lemma words_shape text : Forall (wellShaped isWord) (words (calculateNGrams text)).
Proof.
  rewrite calculateNGrams_words.
  destruct (wordFold_shape text ([], [])) as [Ht Hc]; simpl; auto.
  destruct (fold_left wordStep text ([], [])) as [table cur]; simpl in *.
  destruct (0 <? length cur)%nat eqn:El; auto.
  apply increment_wellShaped; auto.
  split; auto. apply length_pos_nonnil; auto.
Qed.

Lemma scanLoop_shapes text n :
  (n <= length text)%nat ->
  let st := scanLoop text n in
  Forall (wellShaped (fun k => length k = 1%nat)) (monogramCounts st)
  /\ Forall (wellShaped (fun k => length k = 2%nat)) (bigramCounts st)
  /\ Forall (wellShaped (fun k => length k = 3%nat)) (trigramCounts st)
  /\ Forall (wellShaped (fun k => length k = 2%nat)) (skipgramCounts st).
Proof.
  induction n as [|n IH]; intros Hn; cbn zeta.
  - unfold scanLoop; simpl. repeat split; constructor.
  - rewrite scanLoop_S.
    rewrite scanStep_monograms, scanStep_bigrams, scanStep_trigrams,
      scanStep_skipgrams.
    destruct IH as (Hm & Hb & Ht & Hs); [lia|].
    destruct (charAt_in_range text n) as (c0 & _ & E0); [lia|].
    repeat split.
    + apply increment_wellShaped; auto. rewrite E0; reflexivity.
    + destruct (Nat.ltb_spec (n + 1) (length text)); auto.
      destruct (charAt_in_range text (n + 1)) as (c1 & _ & E1); [lia|].
      apply increment_wellShaped; auto. rewrite E0, E1; reflexivity.
    + destruct (Nat.ltb_spec (n + 2) (length text)); auto.
      destruct (charAt_in_range text (n + 1)) as (c1 & _ & E1); [lia|].
      destruct (charAt_in_range text (n + 2)) as (c2 & _ & E2); [lia|].
      apply increment_wellShaped; auto. rewrite E0, E1, E2; reflexivity.
    + destruct (Nat.ltb_spec (n + 2) (length text)); auto.
      destruct (charAt_in_range text (n + 2)) as (c2 & _ & E2); [lia|].
      apply increment_wellShaped; auto. rewrite E0, E2; reflexivity.
Qed.

(** C10. For every text, every key of the raw monogram table has length 1,
    of the raw bigram table length 2, of the raw trigram table length 3, of
    the raw skipgram table length 2; every key of the raw word table is
    non-empty and contains no whitespace character; and every count stored
    in any of the five raw tables is at least 1. *)
Theorem raw_table_shapes (text : jsstring) :
  let raw := calculateNGrams text in
  Forall (fun e => length (fst e) = 1%nat /\ 1 <= snd e) (monograms raw)
  /\ Forall (fun e => length (fst e) = 2%nat /\ 1 <= snd e) (bigrams raw)
  /\ Forall (fun e => length (fst e) = 3%nat /\ 1 <= snd e) (trigrams raw)
  /\ Forall (fun e => length (fst e) = 2%nat /\ 1 <= snd e) (skipgrams raw)
  /\ Forall (fun e => (fst e <> [] /\ containsWhitespace (fst e) = false)
                      /\ 1 <= snd e) (words raw).
Proof.
  cbn zeta.
  destruct (scanLoop_shapes text (length text) (Nat.le_refl _))
    as (Hm & Hb & Ht & Hs).
  pose proof (words_shape text) as Hw.
  repeat split; auto.
Qed.

(* ================================================================== *)
(** * The word table *)

Lemma map_get_set m k v w :
  map_get (map_set m k v) w = if str_eqb k w then Some v else map_get m w.
Proof.
  induction m as [|[k' v'] m IH]; simpl.
  - reflexivity.
  - destruct (str_eqb k' k) eqn:E; simpl.
    + apply str_eqb_eq in E; subst. destruct (str_eqb k w); reflexivity.
    + destruct (str_eqb k' w) eqn:E'.
      * apply str_eqb_eq in E'; subst. rewrite str_eqb_sym, E. reflexivity.
      * apply IH.
Qed.

Lemma countOf_increment m k w :
  countOf (increment m k) w = countOf m w + (if str_eqb k w then 1 else 0).
Proof.
  unfold countOf, increment. rewrite map_get_set, !orZero_id.
  destruct (str_eqb k w) eqn:E.
  - apply str_eqb_eq in E; subst. lia.
  - lia.
Qed.

Lemma splitOnWhitespace_prefix cur s :
  testWhitespace cur = false ->
  splitOnWhitespace (cur ++ s)
  = match splitOnWhitespace s with
    | tok :: toks => (cur ++ tok) :: toks
    | [] => [cur]
    end.
Proof.
  unfold testWhitespace.
  induction cur as [|c cur IH]; simpl; intros H.
  - destruct (splitOnWhitespace s) eqn:E; auto.
    destruct s; simpl in E; try discriminate.
    destruct (isWhiteSpaceUnit j); try discriminate.
    destruct (splitOnWhitespace s); discriminate.
  - apply orb_false_iff in H as [Hc Hcur]. rewrite Hc, IH by exact Hcur.
    destruct (splitOnWhitespace s); reflexivity.
Qed.

Lemma occurrences_cons w t toks :
  occurrences w (t :: toks)
  = (if str_eqb w t then 1 else 0) + occurrences w toks.
Proof.
  unfold occurrences; cbn [filter]. destruct (str_eqb w t).
  - cbn [length]. rewrite Nat2Z.inj_succ. lia.
  - lia.
Qed.

Lemma wordFold_counts s table cur w :
  testWhitespace cur = false ->
  countOf (flushWord (fold_left wordStep s (table, cur))) w
  = countOf table w + occurrences w (nonEmptyTokens (cur ++ s)).
Proof.
  revert table cur; induction s as [|c s IH]; intros table cur Hcur.
  - unfold nonEmptyTokens.
    rewrite (splitOnWhitespace_prefix cur [] Hcur); simpl.
    rewrite app_nil_r.
    destruct cur as [|x cur]; simpl.
    + unfold occurrences; simpl; lia.
    + rewrite countOf_increment, occurrences_cons, str_eqb_sym.
      unfold occurrences; simpl; lia.
  - cbn [fold_left].
    assert (Hstep : wordStep (table, cur) c
                    = if isWhiteSpaceUnit c then
                        if (0 <? length cur)%nat
                        then (increment table cur, []) else (table, cur)
                      else (table, cur ++ [c])) by reflexivity.
    rewrite Hstep; clear Hstep.
    destruct (isWhiteSpaceUnit c) eqn:Ec.
    + unfold nonEmptyTokens.
      rewrite (splitOnWhitespace_prefix cur (c :: s) Hcur).
      cbn [splitOnWhitespace]. rewrite Ec, app_nil_r.
      destruct cur as [|x cur]; cbn [length Nat.ltb Nat.leb filter nonEmpty
                                       str_eqb negb].
      * exact (IH table [] eq_refl).
      * etransitivity; [exact (IH (increment table (x :: cur)) [] eq_refl)|].
        rewrite countOf_increment, occurrences_cons, (str_eqb_sym w).
        cbn [app]. unfold nonEmptyTokens. lia.
    + rewrite IH.
      * rewrite <- app_assoc. reflexivity.
      * unfold testWhitespace in *. rewrite existsb_app, Hcur; simpl.
        rewrite Ec; reflexivity.
Qed.

(** C5. For every text and every string [w], the raw word table holds for
    [w] exactly the number of non-empty tokens equal to [w] that splitting
    the text on whitespace characters yields (the maximal non-whitespace
    runs, the last one included when the text does not end in whitespace):
    [w] is absent from the table when there is no such token, and is
    present with that number as its count otherwise. *)
Theorem word_table_counts_tokens (text w : jsstring) :
  map_get (words (calculateNGrams text)) w
  = (let n := occurrences w (nonEmptyTokens text) in
     if n =? 0 then None else Some n).
Proof.
  pose proof (wordFold_counts text [] [] w eq_refl) as H.
  rewrite <- calculateNGrams_words in H. cbn [app] in H.
  unfold countOf in H. change (orZero (map_get [] w)) with 0 in H.
  rewrite orZero_id, Z.add_0_l in H.
  pose proof (words_shape text) as Hs.
  cbn zeta.
  destruct (map_get (words (calculateNGrams text)) w) as [v|] eqn:E.
  - apply map_get_In in E. rewrite Forall_forall in Hs.
    destruct (Hs _ E) as [_ Hv]; cbn [snd] in Hv.
    rewrite <- H. destruct (Z.eqb_spec v 0); [lia | reflexivity].
  - rewrite <- H. reflexivity.
Qed.

(* ================================================================== *)
(** * Filtering and re-aggregation *)

Section Aggregator.
Context {B : Builtins}.

Lemma filterStep_survives filters acc entry :
  survives filters entry = true ->
  filterStep filters acc entry
  = {| map := map_set (map acc)
                (normalizeSequence (fst entry) (caseSensitive filters))
                (orZero (map_get (map acc)
                           (normalizeSequence (fst entry)
                              (caseSensitive filters))) + snd entry);
       total := total acc + snd entry |}.
Proof.
  destruct entry as [k v]; unfold survives, filterStep; cbn [fst snd].
  destruct (filterWhitespace filters && containsWhitespace k);
    [discriminate|].
  destruct (filterPunctuation filters && containsPunctuation k);
    [discriminate | reflexivity].
Qed.

Lemma filterStep_discards filters acc entry :
  survives filters entry = false -> filterStep filters acc entry = acc.
Proof.
  destruct entry as [k v]; unfold survives, filterStep; cbn [fst snd].
  destruct (filterWhitespace filters && containsWhitespace k);
    [reflexivity|].
  destruct (filterPunctuation filters && containsPunctuation k);
    [reflexivity | discriminate].
Qed.

(** The running total and the sum of the output table grow together, by the
    count of every surviving raw pair. *)
Lemma filter_fold_totals filters counts acc :
  sumCounts (map acc) = total acc ->
  let out := fold_left (filterStep filters) counts acc in
  sumCounts (map out) = total out
  /\ total out = total acc + sumCounts (filter (survives filters) counts).
Proof.
  revert acc; induction counts as [|e counts IH]; intros acc Hacc; cbn zeta.
  - simpl; split; [assumption | lia].
  - cbn [fold_left filter].
    destruct (survives filters e) eqn:Es.
    + rewrite (filterStep_survives _ _ _ Es).
      match goal with |- context [fold_left _ counts ?a] =>
        destruct (IH a) as [H1 H2] end.
      { cbn [map total]. rewrite sumCounts_add, Hacc. reflexivity. }
      split; [exact H1|]. rewrite H2, sumCounts_cons. cbn [total]. lia.
    + rewrite (filterStep_discards _ _ _ Es). apply IH; assumption.
Qed.

Lemma filterAndReaggregate_totals counts filters :
  let out := filterAndReaggregate counts filters in
  sumCounts (map out) = total out
  /\ total out = sumCounts (filter (survives filters) counts).
Proof.
  unfold filterAndReaggregate, entries.
  destruct (filter_fold_totals filters counts {| map := []; total := 0 |})
    as [H1 H2]; [reflexivity|].
  split; [exact H1 | rewrite H2; reflexivity].
Qed.

Lemma insert_perm {A} (cmp : A -> A -> Z) x l :
  Permutation (insert cmp x l) (x :: l).
Proof.
  induction l as [|y l IH]; simpl; auto.
  destruct (cmp x y <=? 0); auto.
  rewrite IH. apply perm_swap.
Qed.

Lemma sort_perm {A} (cmp : A -> A -> Z) l : Permutation (sort cmp l) l.
Proof.
  induction l as [|x l IH]; simpl; auto.
  rewrite insert_perm. auto.
Qed.

Lemma sumCounts_perm l l' : Permutation l l' -> sumCounts l = sumCounts l'.
Proof.
  induction 1; simpl; lia.
Qed.

Lemma sumFrequency_ranked i l :
  sumFrequency
    (mapi_from (fun '(sequence, frequency) index =>
                  {| sequence := sequence; frequency := frequency;
                     rank := index + 1 |}) i l)
  = sumCounts l.
Proof.
  revert i; induction l as [|[k v] l IH]; intros i; simpl.
  - reflexivity.
  - rewrite IH. reflexivity.
Qed.

Lemma mapToRankedArray_sum countMap :
  sumFrequency (mapToRankedArray countMap) = sumCounts (map countMap).
Proof.
  unfold mapToRankedArray, mapi, entries.
  rewrite sumFrequency_ranked. apply sumCounts_perm, sort_perm.
Qed.

Lemma ranked_total counts filters :
  let out := filterAndReaggregate counts filters in
  sumFrequency (mapToRankedArray out) = total out
  /\ total out = sumCounts (filter (survives filters) counts).
Proof.
  cbn zeta. rewrite mapToRankedArray_sum.
  apply filterAndReaggregate_totals.
Qed.

(** C1. For every corpus text and every FilterSettings, the frequencies of
    each of the five ranked lists returned by [calculateFilteredNGrams] sum
    to the corresponding entry of [totals], and that entry is the sum of
    the counts of the raw pairs that pass the whitespace and punctuation
    filters, taken before case folding merges keys. *)
Theorem ranked_lists_sum_to_totals (text : jsstring) (filters : FilterSettings) :
  let r := calculateFilteredNGrams text filters in
  let raw := calculateNGrams text in
  (sumFrequency (r_monograms r) = t_monograms (totals r)
   /\ t_monograms (totals r)
      = sumCounts (filter (survives filters) (monograms raw)))
  /\ (sumFrequency (r_bigrams r) = t_bigrams (totals r)
      /\ t_bigrams (totals r)
         = sumCounts (filter (survives filters) (bigrams raw)))
  /\ (sumFrequency (r_trigrams r) = t_trigrams (totals r)
      /\ t_trigrams (totals r)
         = sumCounts (filter (survives filters) (trigrams raw)))
  /\ (sumFrequency (r_skipgrams r) = t_skipgrams (totals r)
      /\ t_skipgrams (totals r)
         = sumCounts (filter (survives filters) (skipgrams raw)))
  /\ (sumFrequency (r_words r) = t_words (totals r)
      /\ t_words (totals r)
         = sumCounts (filter (survives filters) (words raw))).
Proof.
  cbn zeta. unfold calculateFilteredNGrams.
  cbn [r_monograms r_bigrams r_trigrams r_skipgrams r_words totals
       t_monograms t_bigrams t_trigrams t_skipgrams t_words].
  repeat split; apply ranked_total.
Qed.

(** With every filter off and case kept, a pair goes to the end of the
    output unchanged. *)
Lemma identity_fold filters rest m t :
  filterWhitespace filters = false -> filterPunctuation filters = false ->
  caseSensitive filters = true ->
  NoDup (List.map fst (m ++ rest)) ->
  fold_left (filterStep filters) rest {| map := m; total := t |}
  = {| map := m ++ rest; total := t + sumCounts rest |}.
Proof.
  intros Hw Hp Hc. revert m t; induction rest as [|[k v] rest IH]; intros m t Hnd.
  - simpl. rewrite app_nil_r, Z.add_0_r. reflexivity.
  - cbn [fold_left]. unfold filterStep at 2.
    rewrite Hw, Hp, Hc. cbn [andb normalizeSequence map total].
    assert (Hk : ~ In k (List.map fst m)).
    { rewrite map_app in Hnd. cbn [List.map fst] in Hnd.
      apply NoDup_remove_2 in Hnd. intros Hin; apply Hnd.
      apply in_or_app; left; exact Hin. }
    assert (Hget : map_get m k = None) by (apply map_get_None; exact Hk).
    rewrite Hget. cbn [orZero]. rewrite Z.add_0_l.
    rewrite (map_set_fresh m k v Hk).
    rewrite IH.
    + rewrite <- app_assoc, sumCounts_cons. cbn [app snd].
      f_equal. lia.
    + rewrite <- app_assoc. exact Hnd.
Qed.

(** C9. For every raw frequency table (a Map, so with pairwise distinct
    keys), the filter/re-aggregation step with filterWhitespace=false,
    filterPunctuation=false and caseSensitive=true is the identity on the
    table: the output map holds exactly the input's (key, count) pairs,
    unchanged and in the same order, and the returned total is the sum of
    all input counts. *)
Theorem filter_identity_when_all_off (counts : JSMap) :
  distinctKeys counts ->
  filterAndReaggregate counts
    {| filterWhitespace := false; filterPunctuation := false;
       caseSensitive := true |}
  = {| map := counts; total := sumCounts counts |}.
Proof.
  intros Hnd. unfold filterAndReaggregate, entries.
  rewrite identity_fold; auto.
Qed.

End Aggregator.

(* ================================================================== *)
(** * Ranking *)

Section Ranking.
Context {B : Builtins} {CC : ConsistentComparator B}.

Lemma localeCompare_flip_le a b :
  ~ localeCompare a b <= 0 -> localeCompare b a <= 0.
Proof.
  intros H. assert (H' : localeCompare b a < 0) by (apply lc_flip; lia). lia.
Qed.

Lemma localeCompare_both_le a b :
  localeCompare a b <= 0 -> localeCompare b a <= 0 -> localeCompare a b = 0.
Proof.
  intros H1 H2.
  destruct (Z.eq_dec (localeCompare a b) 0) as [|Hne]; auto.
  assert (H : 0 < localeCompare b a) by (apply lc_flip; lia). lia.
Qed.

Lemma precedes_iff a b :
  precedes a b
  <-> snd b < snd a
      \/ (snd a = snd b /\ localeCompare (fst a) (fst b) <= 0).
Proof.
  unfold precedes, compareEntries.
  destruct (Z.eqb_spec (snd b) (snd a)); cbn [negb]; lia.
Qed.

Lemma precedes_total a b : ~ precedes a b -> precedes b a.
Proof.
  rewrite !precedes_iff. intros H.
  destruct (Z.lt_trichotomy (snd a) (snd b)) as [Hlt|[Heq|Hgt]]; auto.
  - right; split; auto. apply localeCompare_flip_le. intros Hle; apply H; auto.
  - exfalso; apply H; auto.
Qed.

Lemma precedes_trans a b c : precedes a b -> precedes b c -> precedes a c.
Proof.
  rewrite !precedes_iff.
  intros [H1|[H1 L1]] [H2|[H2 L2]]; try (left; lia).
  right; split; [lia|]. eapply lc_trans; eauto.
Qed.

Lemma insert_HdRel x y l :
  HdRel precedes y l -> precedes y x ->
  HdRel precedes y (insert compareEntries x l).
Proof.
  intros Hl Hx. destruct l as [|z l]; simpl.
  - constructor; exact Hx.
  - destruct (compareEntries x z <=? 0); constructor; auto.
    inversion Hl; auto.
Qed.

Lemma insert_sorted x l :
  Sorted precedes l -> Sorted precedes (insert compareEntries x l).
Proof.
  induction 1 as [|y l Hs IH Hd]; simpl.
  - repeat constructor.
  - destruct (Z.leb_spec (compareEntries x y) 0) as [Hle|Hgt].
    + constructor; [constructor; auto | constructor; exact Hle].
    + constructor; auto.
      apply insert_HdRel; auto.
      apply precedes_total. unfold precedes. lia.
Qed.

Lemma sort_sorted l : Sorted precedes (sort compareEntries l).
Proof.
  induction l as [|x l IH]; simpl; [constructor | apply insert_sorted; auto].
Qed.

Lemma Sorted_adjacent {A} (R : A -> A -> Prop) l i a b :
  Sorted R l -> nth_error l i = Some a -> nth_error l (S i) = Some b -> R a b.
Proof.
  intros Hs; revert i; induction Hs as [|x l Hs IH Hd]; intros i Ha Hb.
  - destruct i; discriminate.
  - destruct i as [|i]; simpl in Ha, Hb.
    + injection Ha as ->. destruct l as [|y l]; [discriminate|].
      simpl in Hb. injection Hb as ->. inversion Hd; auto.
    + eapply IH; eauto.
Qed.

Lemma nth_error_mapi_from {A C} (f : A -> Z -> C) k l i :
  nth_error (mapi_from f k l) i
  = option_map (fun x => f x (k + Z.of_nat i)) (nth_error l i).
Proof.
  revert k i; induction l as [|x l IH]; intros k [|i]; simpl; auto.
  - rewrite Z.add_0_r; reflexivity.
  - rewrite IH. destruct (nth_error l i); simpl; auto.
    do 2 f_equal. lia.
Qed.

(** An entry of the ranked array is the entry of the sorted array at the
    same index, with the index plus one as its rank. *)
Lemma ranked_nth countMap i a :
  nth_error (mapToRankedArray countMap) i = Some a ->
  exists e, nth_error (sort compareEntries (entries (map countMap))) i = Some e
            /\ sequence a = fst e /\ frequency a = snd e
            /\ rank a = Z.of_nat i + 1.
Proof.
  unfold mapToRankedArray, mapi. rewrite nth_error_mapi_from.
  destruct (nth_error _ i) as [[k v]|]; simpl; [|discriminate].
  intros [= <-]. exists (k, v); simpl. repeat split; lia.
Qed.

(** C2, as amended. For every ranked list produced by the Aggregator: the
    entry at index [i] has rank [i + 1] (so the first entry has rank 1),
    and for every pair of adjacent entries (a, b): a.frequency >=
    b.frequency, a.rank + 1 == b.rank, and whenever a.frequency ==
    b.frequency, a.sequence precedes or equals b.sequence in the ascending
    order of [localeCompare], the comparison the sort uses for ties:
    localeCompare(a.sequence, b.sequence) <= 0. *)
Theorem ranked_list_order (countMap : CountMap) :
  let ranked := mapToRankedArray countMap in
  (forall i a, nth_error ranked i = Some a -> rank a = Z.of_nat i + 1)
  /\ (forall i a b,
        nth_error ranked i = Some a -> nth_error ranked (S i) = Some b ->
        frequency a >= frequency b
        /\ rank a + 1 = rank b
        /\ (frequency a = frequency b ->
            localeCompare (sequence a) (sequence b) <= 0)).
Proof.
  cbn zeta; split.
  - intros i a Ha. destruct (ranked_nth _ _ _ Ha) as (e & _ & _ & _ & Hr).
    exact Hr.
  - intros i a b Ha Hb.
    destruct (ranked_nth _ _ _ Ha) as (ea & Hea & Sa & Fa & Ra).
    destruct (ranked_nth _ _ _ Hb) as (eb & Heb & Sb & Fb & Rb).
    pose proof (Sorted_adjacent _ _ _ _ _ (sort_sorted _) Hea Heb) as Hp.
    apply precedes_iff in Hp. rewrite Sa, Sb, Fa, Fb, Ra, Rb.
    repeat split; lia.
Qed.

Lemma sort_strongly_sorted l : StronglySorted precedes (sort compareEntries l).
Proof.
  apply Sorted_StronglySorted; [|apply sort_sorted].
  intros a b c; apply precedes_trans.
Qed.

(** Two strongly sorted arrangements of the same entries agree when no two
    different entries may stand in either order. *)
Lemma sorted_arrangement_unique {A} (R : A -> A -> Prop) l l' :
  (forall a b, In a l -> In b l -> R a b -> R b a -> a = b) ->
  StronglySorted R l -> StronglySorted R l' -> Permutation l l' -> l = l'.
Proof.
  revert l'; induction l as [|a l IH]; intros l' Hanti Hs Hs' Hp.
  - apply Permutation_nil in Hp; subst; reflexivity.
  - destruct l' as [|b l'].
    + symmetry in Hp; apply Permutation_nil in Hp; discriminate.
    + apply StronglySorted_inv in Hs as [Hs Ha].
      apply StronglySorted_inv in Hs' as [Hs' Hb].
      rewrite Forall_forall in Ha, Hb.
      assert (Hab : a = b).
      { assert (Hina : In a (b :: l'))
          by (eapply Permutation_in; [exact Hp | left; reflexivity]).
        assert (Hinb : In b (a :: l))
          by (eapply Permutation_in;
              [symmetry; exact Hp | left; reflexivity]).
        destruct Hina as [->|Hina]; auto.
        destruct Hinb as [->|Hinb]; auto.
        apply Hanti; [left; reflexivity | right; exact Hinb | | ]; auto. }
      subst b. f_equal.
      apply IH; auto.
      * intros x y Hx Hy; apply Hanti; right; assumption.
      * eapply Permutation_cons_inv; exact Hp.
Qed.

(** C7, as amended. Two runs of [calculateFilteredNGrams] on the identical
    (corpus, filters) input produce identical ranked lists and totals; and
    the ranked output is invariant under any permutation of the order in
    which the table's (key, count) pairs are presented to the ranking step
    provided no two distinct keys that have the same count compare as equal
    under [localeCompare]. *)
Theorem ranking_independent_of_presentation_order (countMap countMap' : CountMap) :
  Permutation (map countMap) (map countMap') ->
  (forall k1 k2 v,
     In (k1, v) (map countMap) -> In (k2, v) (map countMap) ->
     localeCompare k1 k2 = 0 -> k1 = k2) ->
  (forall text1 text2 filters1 filters2,
     text1 = text2 -> filters1 = filters2 ->
     calculateFilteredNGrams text1 filters1
     = calculateFilteredNGrams text2 filters2)
  /\ mapToRankedArray countMap = mapToRankedArray countMap'.
Proof.
  intros Hperm Hdistinct. split.
  - intros ? ? ? ? -> ->; reflexivity.
  - unfold mapToRankedArray. f_equal. unfold entries.
    apply (sorted_arrangement_unique precedes).
    + intros [k1 v1] [k2 v2] H1 H2 H12 H21.
      assert (Hin1 : In (k1, v1) (map countMap))
        by (eapply Permutation_in; [apply sort_perm | exact H1]).
      assert (Hin2 : In (k2, v2) (map countMap))
        by (eapply Permutation_in; [apply sort_perm | exact H2]).
      apply precedes_iff in H12, H21. cbn [fst snd] in H12, H21.
      assert (Hv : v1 = v2) by lia. subst v2.
      assert (Hk : k1 = k2).
      { apply (Hdistinct k1 k2 v1); auto.
        apply localeCompare_both_le; lia. }
      subst; reflexivity.
    + apply sort_strongly_sorted.
    + apply sort_strongly_sorted.
    + rewrite !sort_perm. exact Hperm.
Qed.

End Ranking.

(* ================================================================== *)
(** * The sample comparators are consistent *)

Lemma lexCompare_refl a : lexCompare a a = 0.
Proof.
  induction a as [|x a IH]; simpl; auto.
  rewrite N.compare_refl; exact IH.
Qed.

Lemma lexCompare_flip a b : lexCompare a b < 0 <-> 0 < lexCompare b a.
Proof.
  revert b; induction a as [|x a IH]; intros [|y b]; simpl; try lia.
  rewrite (N.compare_antisym x y).
  destruct (x ?= y)%N; simpl; auto; lia.
Qed.

Lemma lexCompare_trans a b c :
  lexCompare a b <= 0 -> lexCompare b c <= 0 -> lexCompare a c <= 0.
Proof.
  revert b c; induction a as [|x a IH]; intros [|y b] [|z c]; simpl; try lia.
  destruct (N.compare_spec x y) as [Hxy|Hxy|Hxy]; try lia;
    destruct (N.compare_spec y z) as [Hyz|Hyz|Hyz]; try lia; intros H1 H2.
  - subst. rewrite N.compare_refl. eapply IH; eauto.
  - subst. rewrite (proj2 (N.compare_lt_iff y z)) by assumption. lia.
  - subst. rewrite (proj2 (N.compare_lt_iff x z)) by assumption. lia.
  - rewrite (proj2 (N.compare_lt_iff x z)) by lia. lia.
Qed.

Lemma lexCompare_eq a b : lexCompare a b = 0 -> a = b.
Proof.
  revert b; induction a as [|x a IH]; intros [|y b]; simpl;
    try discriminate; auto.
  destruct (N.compare_spec x y) as [Hxy|Hxy|Hxy]; try discriminate.
  intros Hrest; subst; f_equal; auto.
Qed.

Lemma codeUnit_consistent : ConsistentComparator codeUnitBuiltins.
Proof.
  constructor; cbn [localeCompare codeUnitBuiltins].
  - apply lexCompare_refl.
  - apply lexCompare_flip.
  - apply lexCompare_trans.
Qed.

(** A comparison on a first key, then in reverse on a second key, is a
    consistent comparator. *)
Lemma two_level_consistent (f g : jsstring -> jsstring) :
  let cmp a b :=
    if lexCompare (f a) (f b) =? 0 then lexCompare (g b) (g a)
    else lexCompare (f a) (f b) in
  (forall a, cmp a a = 0)
  /\ (forall a b, cmp a b < 0 <-> 0 < cmp b a)
  /\ (forall a b c, cmp a b <= 0 -> cmp b c <= 0 -> cmp a c <= 0).
Proof.
  cbn zeta. split; [|split].
  - intros a. rewrite !lexCompare_refl; reflexivity.
  - intros a b.
    destruct (Z.eqb_spec (lexCompare (f a) (f b)) 0) as [E|E].
    + apply lexCompare_eq in E. rewrite E, lexCompare_refl. cbn [Z.eqb].
      apply lexCompare_flip.
    + destruct (Z.eqb_spec (lexCompare (f b) (f a)) 0) as [E'|E'].
      * apply lexCompare_eq in E'. rewrite E', lexCompare_refl in E.
        congruence.
      * apply lexCompare_flip.
  - intros a b c Hab Hbc.
    assert (Hstrict : forall x y z,
               lexCompare x y < 0 -> lexCompare y z <= 0 ->
               lexCompare x z < 0).
    { intros x y z Hxy Hyz.
      assert (Hxz : lexCompare x z <= 0)
        by (eapply lexCompare_trans; [|exact Hyz]; lia).
      destruct (Z.eq_dec (lexCompare x z) 0) as [E0|E0]; [|lia].
      apply lexCompare_eq in E0; subst z.
      apply lexCompare_flip in Hxy. lia. }
    destruct (Z.eqb_spec (lexCompare (f a) (f b)) 0) as [Eab|Eab];
      destruct (Z.eqb_spec (lexCompare (f b) (f c)) 0) as [Ebc|Ebc].
    + apply lexCompare_eq in Eab, Ebc. rewrite Eab, Ebc, lexCompare_refl.
      cbn [Z.eqb]. eapply lexCompare_trans; eauto.
    + apply lexCompare_eq in Eab. rewrite Eab.
      destruct (Z.eqb_spec (lexCompare (f b) (f c)) 0); [congruence | exact Hbc].
    + apply lexCompare_eq in Ebc. rewrite <- Ebc.
      destruct (Z.eqb_spec (lexCompare (f a) (f b)) 0); [congruence | exact Hab].
    + assert (H : lexCompare (f a) (f c) < 0)
        by (apply (Hstrict _ (f b)); lia).
      destruct (Z.eqb_spec (lexCompare (f a) (f c)) 0); lia.
Qed.

Lemma collation_consistent : ConsistentComparator collationBuiltins.
Proof.
  destruct (two_level_consistent
              (fun s => asciiLower (canonicalForm s)) canonicalForm)
    as (Hrefl & Hflip & Htrans).
  constructor; cbn [localeCompare collationBuiltins]; unfold collationCompare;
    cbn zeta.
  - exact Hrefl.
  - exact Hflip.
  - exact Htrans.
Qed.

(* ================================================================== *)
(** * Concrete runs *)

(** The corpus "ab ab" of the specification under the default filters. *)
Example end_to_end_ab_ab :
  let r := calculateFilteredNGrams (B := codeUnitBuiltins) (lit "ab ab")
             {| filterWhitespace := true; filterPunctuation := false;
                caseSensitive := false |} in
  r_monograms r
  = [ {| sequence := lit "a"; frequency := 2; rank := 1 |};
      {| sequence := lit "b"; frequency := 2; rank := 2 |} ]
  /\ r_bigrams r = [ {| sequence := lit "ab"; frequency := 2; rank := 1 |} ]
  /\ r_words r = [ {| sequence := lit "ab"; frequency := 2; rank := 1 |} ]
  /\ t_bigrams (totals r) = 2 /\ t_words (totals r) = 2
  /\ bigrams (calculateNGrams (lit "ab ab"))
     = [ (lit "ab", 2); (lit "b ", 1); (lit " a", 1) ].
Proof. vm_compute. repeat split. Qed.

(** With case folding, "The" and "the" collapse into one entry. *)
Example aggregation_collapse :
  r_words (calculateFilteredNGrams (B := codeUnitBuiltins) (lit "The the")
             {| filterWhitespace := true; filterPunctuation := false;
                caseSensitive := false |})
  = [ {| sequence := lit "the"; frequency := 2; rank := 1 |} ].
Proof. vm_compute. reflexivity. Qed.

Lemma raw_table_of_ab_witness_data :
  distinctKeys [ (lit "ab", 2); (lit "b ", 1); (lit " a", 1) ].
Proof.
  unfold distinctKeys; cbn [List.map fst].
  repeat constructor; simpl; intuition discriminate.
Qed.

Lemma filter_identity_when_all_off_witness :
  distinctKeys [ (lit "ab", 2); (lit "b ", 1); (lit " a", 1) ]
  /\ filterAndReaggregate (B := codeUnitBuiltins)
       [ (lit "ab", 2); (lit "b ", 1); (lit " a", 1) ]
       {| filterWhitespace := false; filterPunctuation := false;
          caseSensitive := true |}
     = {| map := [ (lit "ab", 2); (lit "b ", 1); (lit " a", 1) ];
          total := 4 |}.
Proof.
  split.
  - exact raw_table_of_ab_witness_data.
  - exact (filter_identity_when_all_off (B := codeUnitBuiltins) _
             raw_table_of_ab_witness_data).
Defined.

Lemma ranked_list_order_witness :
  let ranked :=
    mapToRankedArray (B := codeUnitBuiltins)
      {| map := [ (lit "b", 2); (lit "c", 5); (lit "a", 2) ]; total := 9 |} in
  (forall i a, nth_error ranked i = Some a -> rank a = Z.of_nat i + 1)
  /\ (forall i a b,
        nth_error ranked i = Some a -> nth_error ranked (S i) = Some b ->
        frequency a >= frequency b
        /\ rank a + 1 = rank b
        /\ (frequency a = frequency b ->
            lexCompare (sequence a) (sequence b) <= 0)).
Proof.
  exact (ranked_list_order (B := codeUnitBuiltins) (CC := codeUnit_consistent)
           {| map := [ (lit "b", 2); (lit "c", 5); (lit "a", 2) ];
              total := 9 |}).
Defined.

Lemma ranking_independent_of_presentation_order_witness :
  mapToRankedArray (B := codeUnitBuiltins)
    {| map := [ (lit "b", 2); (lit "c", 5); (lit "a", 2) ]; total := 9 |}
  = mapToRankedArray (B := codeUnitBuiltins)
      {| map := [ (lit "a", 2); (lit "b", 2); (lit "c", 5) ]; total := 9 |}.
Proof.
  refine (proj2 (ranking_independent_of_presentation_order
                   (B := codeUnitBuiltins) (CC := codeUnit_consistent)
                   {| map := [ (lit "b", 2); (lit "c", 5); (lit "a", 2) ];
                      total := 9 |}
                   {| map := [ (lit "a", 2); (lit "b", 2); (lit "c", 5) ];
                      total := 9 |} _ _)).
  - cbn [map].
    apply (Permutation_trans
             (l' := [ (lit "b", 2); (lit "a", 2); (lit "c", 5) ]));
      [apply perm_skip, perm_swap | apply perm_swap].
  - intros k1 k2 v _ _ H. exact (lexCompare_eq k1 k2 H).
Defined.

(** Two entries with the same count whose keys compare as equal are ranked
    in the order they are presented in, whatever the platform. *)
Lemma tie_keeps_presentation_order (B : Builtins) (k1 k2 : jsstring)
  (v t : Z) :
  localeCompare k1 k2 = 0 ->
  mapToRankedArray {| map := [ (k1, v); (k2, v) ]; total := t |}
  = [ {| sequence := k1; frequency := v; rank := 1 |};
      {| sequence := k2; frequency := v; rank := 2 |} ].
Proof.
  intros H. unfold mapToRankedArray, entries. cbn [map sort insert].
  unfold compareEntries. cbn [fst snd]. rewrite Z.eqb_refl. cbn [negb].
  rewrite H. reflexivity.
Qed.

(** C7, as stated, fails: with a comparator that is consistent and honours
    canonical equivalence, as ECMA-262 requires of [localeCompare], the
    table that holds U+00E9 and then U+0065 U+0301 (both e with acute, one
    occurrence each) and the table that holds them the other way round are
    permutations of each other and are ranked differently, each in the
    order it was presented in. *)
Lemma ranking_depends_on_presentation_order :
  ~ (forall (B : Builtins), ConsistentComparator B ->
     forall countMap countMap' : CountMap,
       distinctKeys (map countMap) ->
       Permutation (map countMap) (map countMap') ->
       mapToRankedArray countMap = mapToRankedArray countMap').
Proof.
  intros H.
  specialize (H collationBuiltins collation_consistent
                {| map := [ ([233%N], 1); ([101%N; 769%N], 1) ]; total := 2 |}
                {| map := [ ([101%N; 769%N], 1); ([233%N], 1) ]; total := 2 |}).
  assert (Hnd : distinctKeys [ ([233%N], 1); ([101%N; 769%N], 1) ]).
  { unfold distinctKeys; cbn [List.map fst].
    repeat constructor; simpl; intuition discriminate. }
  specialize (H Hnd (perm_swap _ _ _)).
  pose proof (tie_keeps_presentation_order collationBuiltins [233%N]
                [101%N; 769%N] 1 2 eq_refl) as E1.
  pose proof (tie_keeps_presentation_order collationBuiltins [101%N; 769%N]
                [233%N] 1 2 eq_refl) as E2.
  assert (Hc : [ {| sequence := [233%N]; frequency := 1; rank := 1 |};
                 {| sequence := [101%N; 769%N]; frequency := 1; rank := 2 |} ]
               = [ {| sequence := [101%N; 769%N]; frequency := 1; rank := 1 |};
                   {| sequence := [233%N]; frequency := 1; rank := 2 |} ]).
  { etransitivity; [symmetry; exact E1|].
    etransitivity; [exact H | exact E2]. }
  discriminate Hc.
Qed.

(** The two tables come out of the pipeline, under the default filters, as
    the word tables of the two texts that hold the two spellings of the
    word in either order. *)
Example equivalent_words_ranked_in_text_order :
  let filters := {| filterWhitespace := true; filterPunctuation := false;
                    caseSensitive := false |} in
  List.map sequence
    (r_words (calculateFilteredNGrams (B := collationBuiltins)
                [233%N; 32%N; 101%N; 769%N] filters))
  = [ [233%N]; [101%N; 769%N] ]
  /\ List.map sequence
       (r_words (calculateFilteredNGrams (B := collationBuiltins)
                   [101%N; 769%N; 32%N; 233%N] filters))
     = [ [101%N; 769%N]; [233%N] ].
Proof. vm_compute. split; reflexivity. Qed.

(** C2, as stated, fails: with a comparator that is consistent and orders
    letters alphabetically before case, as the collations behind
    [localeCompare] do, the table B: 1, a: 1 is ranked a, B, and the small
    letter a does not precede the capital letter B in lexicographic string
    order. *)
Lemma ranked_ties_not_in_lexicographic_order :
  ~ (forall (B : Builtins), ConsistentComparator B ->
     forall countMap : CountMap,
       distinctKeys (map countMap) ->
       forall i a b,
         nth_error (mapToRankedArray countMap) i = Some a ->
         nth_error (mapToRankedArray countMap) (S i) = Some b ->
         frequency a >= frequency b
         /\ rank a + 1 = rank b
         /\ (frequency a = frequency b ->
             lexCompare (sequence a) (sequence b) <= 0)).
Proof.
  intros H.
  assert (Hnd : distinctKeys [ (lit "B", 1); (lit "a", 1) ]).
  { unfold distinctKeys; cbn [List.map fst].
    repeat constructor; simpl; intuition discriminate. }
  destruct (H collationBuiltins collation_consistent
              {| map := [ (lit "B", 1); (lit "a", 1) ]; total := 2 |} Hnd
              0%nat
              {| sequence := lit "a"; frequency := 1; rank := 1 |}
              {| sequence := lit "B"; frequency := 1; rank := 2 |}
              eq_refl eq_refl) as (_ & _ & Hlex).
  specialize (Hlex eq_refl).
  assert (E : lexCompare (lit "a") (lit "B") = 1) by reflexivity.
  cbn [sequence] in Hlex. rewrite E in Hlex. lia.
Qed.

(** The same ranking comes out of the pipeline for the text Ba when case
    is kept. *)
Example mixed_case_text_ranked_alphabetically :
  List.map sequence
    (r_monograms (calculateFilteredNGrams (B := collationBuiltins) (lit "Ba")
                    {| filterWhitespace := true; filterPunctuation := false;
                       caseSensitive := true |}))
  = [ lit "a"; lit "B" ].
Proof. vm_compute. reflexivity. Qed.

(* ================================================================== *)
(** * The punctuation filter *)

(** What the regular expression of [containsPunctuation] matches: a unit
    outside [A-Za-z0-9_] that is not whitespace. *)
Lemma containsPunctuation_iff (s : jsstring) :
  containsPunctuation s = true
  <-> exists c, In c s /\ isWordUnit c = false /\ isWhiteSpaceUnit c = false.
Proof.
  unfold containsPunctuation, testNonWordNonSpace. rewrite existsb_exists.
  split; intros (c & Hin & H); exists c; split; auto.
  - apply andb_true_iff in H as [H1 H2].
    apply negb_true_iff in H1, H2; auto.
  - destruct H as [H1 H2]; rewrite H1, H2; reflexivity.
Qed.

(** C3. With filterPunctuation enabled the code does not discard exactly
    the keys that hold a character that is neither alphanumeric nor
    whitespace: the key of the one non-ASCII letter U+00E9 (e with acute)
    is discarded, and the key of the one underscore is kept. *)
Theorem punctuation_filter_class_boundaries (B : Builtins) :
  let filters := {| filterWhitespace := true; filterPunctuation := true;
                    caseSensitive := true |} in
  containsWhitespace [233%N] = false
  /\ containsPunctuation [233%N] = true
  /\ filterAndReaggregate [([233%N], 1)] filters = {| map := []; total := 0 |}
  /\ containsWhitespace (lit "_") = false
  /\ containsPunctuation (lit "_") = false
  /\ filterAndReaggregate [(lit "_", 1)] filters
     = {| map := [(lit "_", 1)]; total := 1 |}.
Proof. cbn zeta. repeat split. Qed.

(* ================================================================== *)
(** * Decimal digits *)

Lemma digitsOf_digits u : Forall (fun c => isDigitUnit c = true) (digitsOf u).
Proof. induction u; simpl; constructor; auto. Qed.

Lemma digitsOf_nonnil u : u <> Decimal.Nil -> digitsOf u <> [].
Proof. destruct u; simpl; congruence. Qed.

Lemma decimalDigits_nonneg z :
  0 <= z ->
  decimalDigits z <> []
  /\ Forall (fun c => isDigitUnit c = true) (decimalDigits z).
Proof.
  destruct z as [|p|p]; simpl; intros Hz.
  - split; [discriminate | repeat constructor].
  - split; [|apply digitsOf_digits].
    apply digitsOf_nonnil, DecimalPos.Unsigned.to_uint_nonnil.
  - lia.
Qed.

Lemma of_uint_digit_value d :
  (Pos.of_uint (Decimal.D0 d) = Pos.of_uint d
   /\ Pos.of_uint (Decimal.D1 d)
      = Pos.of_uint d + 1 * 10 ^ DecimalPos.Unsigned.usize d
   /\ Pos.of_uint (Decimal.D2 d)
      = Pos.of_uint d + 2 * 10 ^ DecimalPos.Unsigned.usize d
   /\ Pos.of_uint (Decimal.D3 d)
      = Pos.of_uint d + 3 * 10 ^ DecimalPos.Unsigned.usize d
   /\ Pos.of_uint (Decimal.D4 d)
      = Pos.of_uint d + 4 * 10 ^ DecimalPos.Unsigned.usize d
   /\ Pos.of_uint (Decimal.D5 d)
      = Pos.of_uint d + 5 * 10 ^ DecimalPos.Unsigned.usize d
   /\ Pos.of_uint (Decimal.D6 d)
      = Pos.of_uint d + 6 * 10 ^ DecimalPos.Unsigned.usize d
   /\ Pos.of_uint (Decimal.D7 d)
      = Pos.of_uint d + 7 * 10 ^ DecimalPos.Unsigned.usize d
   /\ Pos.of_uint (Decimal.D8 d)
      = Pos.of_uint d + 8 * 10 ^ DecimalPos.Unsigned.usize d
   /\ Pos.of_uint (Decimal.D9 d)
      = Pos.of_uint d + 9 * 10 ^ DecimalPos.Unsigned.usize d)%N.
Proof.
  repeat split; try reflexivity;
    cbn [Pos.of_uint];
    rewrite DecimalPos.Unsigned.of_uint_acc_rev,
      <- DecimalPos.Unsigned.of_uint_alt; reflexivity.
Qed.

(** Reading the digits of [d] after [acc] appends them to [acc]. *)
Lemma decimalValue_digitsOf d acc :
  decimalValue acc (digitsOf d)
  = acc * 10 ^ Z.of_N (DecimalPos.Unsigned.usize d) + Z.of_N (Pos.of_uint d).
Proof.
  revert acc; induction d; intros acc;
    cbn [digitsOf decimalValue DecimalPos.Unsigned.usize];
    [ cbn; lia | .. ];
    match goal with
    | IH : forall a, decimalValue a (digitsOf ?d0) = _ |- _ =>
        destruct (of_uint_digit_value d0)
          as (E0 & E1 & E2 & E3 & E4 & E5 & E6 & E7 & E8 & E9);
        match goal with
        | |- context [isDigitUnit ?c] => change (isDigitUnit c) with true
        end;
        cbv iota; rewrite IH, N2Z.inj_succ, Z.pow_succ_r by lia;
        rewrite ?E0, ?E1, ?E2, ?E3, ?E4, ?E5, ?E6, ?E7, ?E8, ?E9;
        rewrite ?N2Z.inj_add, ?N2Z.inj_mul, ?N2Z.inj_pow;
        change (Z.of_N 10) with 10; cbn [Z.of_N]; ring
    end.
Qed.

Lemma digit_not_space_or_sign c :
  isDigitUnit c = true ->
  isWhiteSpaceUnit c = false /\ N.eqb c 45 = false /\ N.eqb c 43 = false.
Proof.
  unfold isDigitUnit. intros Hc.
  apply andb_true_iff in Hc as [H1 H2]. apply N.leb_le in H1, H2.
  assert (Hcases : (c = 48 \/ c = 49 \/ c = 50 \/ c = 51 \/ c = 52 \/ c = 53
                    \/ c = 54 \/ c = 55 \/ c = 56 \/ c = 57)%N) by lia.
  repeat (destruct Hcases as [->|Hcases]; [repeat split; reflexivity|]).
  subst; repeat split; reflexivity.
Qed.

Lemma decimalValue_app ds rest acc :
  Forall (fun c => isDigitUnit c = true) ds ->
  decimalValue acc (ds ++ rest) = decimalValue (decimalValue acc ds) rest.
Proof.
  intros H. revert acc. induction H as [|c ds Hc _ IH]; intros acc.
  - reflexivity.
  - cbn [app decimalValue]. rewrite Hc. apply IH.
Qed.


(** The digits of a non-negative integer read back as the integer. *)
Lemma decimalDigits_value z : 0 <= z -> decimalValue 0 (decimalDigits z) = z.
Proof.
  destruct z as [|p|p]; try lia; intros _; [reflexivity|].
  cbn [decimalDigits]. rewrite decimalValue_digitsOf.
  rewrite DecimalPos.Unsigned.of_to. reflexivity.
Qed.

Lemma decimalValue_leading_zeros k s :
  decimalValue 0 (repeat 48%N k ++ s) = decimalValue 0 s.
Proof. induction k as [|k IH]; [reflexivity | exact IH]. Qed.

(** The text of [fixedNotation n 3]: an integer part, a point, and exactly
    three decimals, which read without the point are the digits of [n]. *)
Lemma fixedNotation_value n :
  0 <= n ->
  exists int frac,
    fixedNotation n 3 = int ++ lit "." ++ frac
    /\ int <> []
    /\ Forall (fun c => isDigitUnit c = true) int
    /\ length frac = 3%nat
    /\ Forall (fun c => isDigitUnit c = true) frac
    /\ decimalValue 0 (int ++ frac) = n.
Proof.
  intros Hn. unfold fixedNotation.
  set (m0 := if n =? 0 then lit "0" else decimalDigits n).
  assert (Hm0 : m0 <> [] /\ Forall (fun c => isDigitUnit c = true) m0
                /\ decimalValue 0 m0 = n).
  { unfold m0. destruct (Z.eqb_spec n 0) as [->|Hne].
    - split; [discriminate|]. split; [repeat constructor | reflexivity].
    - destruct (decimalDigits_nonneg n Hn) as [H1 H2].
      split; [exact H1|]. split; [exact H2 | apply decimalDigits_value; exact Hn]. }
  destruct Hm0 as (Hne & Hdig & Hval).
  clearbody m0.
  assert (Hpos : (1 <= length m0)%nat)
    by (destruct m0; [congruence | simpl; lia]).
  set (m := if (length m0 <=? 3)%nat
            then repeat 48%N (3 + 1 - length m0) ++ m0 else m0).
  assert (Hm : (4 <= length m)%nat
               /\ Forall (fun c => isDigitUnit c = true) m
               /\ decimalValue 0 m = n).
  { unfold m. destruct (Nat.leb_spec (length m0) 3).
    - split; [|split].
      + rewrite length_app, repeat_length.
        unfold jsstring, jschar in *. lia.
      + apply Forall_app; split; auto.
        apply Forall_forall. intros c Hc.
        apply repeat_spec in Hc; subst; reflexivity.
      + rewrite decimalValue_leading_zeros. exact Hval.
    - split; [unfold jsstring, jschar in *; lia | auto]. }
  destruct Hm as (Hlen & Hmd & Hmv). clearbody m.
  unfold jsstring, jschar in *.
  exists (firstn (length m - 3) m), (skipn (length m - 3) m).
  rewrite firstn_skipn.
  rewrite <- (firstn_skipn (length m - 3) m) in Hmd.
  apply Forall_app in Hmd as [Hf Hs].
  repeat split; auto.
  - intros Hnil. apply (f_equal (@length _)) in Hnil.
    rewrite length_firstn in Hnil. simpl in Hnil. lia.
  - rewrite length_skipn. lia.
Qed.

(** [scaledNearest m e f] is within one half of [m * 2^e * 10^f], and is
    the upper neighbour at exactly one half. *)
Lemma scaledNearest_nearest m e f :
  let n := scaledNearest m e f in
  (0 <= e -> n = Zpos m * 2 ^ e * 10 ^ Z.of_nat f)
  /\ (e < 0 ->
      2 * n * 2 ^ (- e) <= 2 * (Zpos m * 10 ^ Z.of_nat f) + 2 ^ (- e)
      /\ 2 * (Zpos m * 10 ^ Z.of_nat f) + 2 ^ (- e) < 2 * (n + 1) * 2 ^ (- e)).
Proof.
  cbn zeta. unfold scaledNearest. split.
  - intros He. destruct (Z.leb_spec 0 e); [reflexivity | lia].
  - intros He. destruct (Z.leb_spec 0 e); [lia|].
    assert (Hpow : 2 ^ (- e + 1) = 2 * 2 ^ (- e))
      by (rewrite Z.pow_add_r by lia; lia).
    assert (Hpos : 0 < 2 ^ (- e)) by (apply Z.pow_pos_nonneg; lia).
    rewrite Hpow.
    set (d := 2 * 2 ^ (- e)).
    set (x := 2 * Z.pos m * 10 ^ Z.of_nat f + 2 ^ (- e)).
    assert (Hd : 0 < d) by (unfold d; lia).
    pose proof (Z.mul_div_le x d Hd) as H1.
    pose proof (Z.mul_succ_div_gt x d Hd) as H2.
    unfold d, x in *. split; nia.
Qed.

Lemma scaledNearest_nonneg m e f : 0 <= scaledNearest m e f.
Proof.
  unfold scaledNearest. destruct (Z.leb_spec 0 e).
  - assert (0 <= 10 ^ Z.of_nat f) by (apply Z.pow_nonneg; lia).
    assert (0 <= 2 ^ e) by (apply Z.pow_nonneg; lia).
    apply Z.mul_nonneg_nonneg; [apply Z.mul_nonneg_nonneg|]; lia.
  - apply Z.div_pos.
    + assert (0 <= 10 ^ Z.of_nat f) by (apply Z.pow_nonneg; lia).
      assert (0 <= 2 ^ (- e)) by (apply Z.pow_nonneg; lia).
      nia.
    + apply Z.pow_pos_nonneg; lia.
Qed.

(* ================================================================== *)
(** * Binary64 arithmetic *)

(** ** Binary digits *)

Lemma digits2_pos_size p : digits2_pos p = Pos.size p.
Proof. induction p; simpl; congruence. Qed.

Lemma Zdigits2_bounds m :
  0 < m -> 2 ^ (Zdigits2 m - 1) <= m < 2 ^ Zdigits2 m.
Proof.
  destruct m as [|p|p]; try lia. intros _. cbn [Zdigits2].
  rewrite digits2_pos_size.
  pose proof (Pos.size_gt p) as Hgt. pose proof (Pos.size_le p) as Hle.
  assert (H2 : Zpos (2 ^ Pos.size p) = 2 ^ Zpos (Pos.size p))
    by (rewrite Pos2Z.inj_pow; reflexivity).
  assert (Hs : 2 ^ Zpos (Pos.size p) = 2 * 2 ^ (Zpos (Pos.size p) - 1)).
  { rewrite <- Z.pow_succ_r by lia. f_equal. lia. }
  split; [|lia].
  assert (Zpos (2 ^ Pos.size p) <= Zpos p~0) by exact Hle.
  lia.
Qed.

Lemma Zdigits2_nonneg m : 0 <= Zdigits2 m.
Proof. destruct m; cbn; lia. Qed.

Lemma Zdigits2_pos m : 0 < m -> 0 < Zdigits2 m.
Proof. destruct m; cbn; lia. Qed.

(** [m] has at most [d] digits when it is below [2^d]. *)
Lemma Zdigits2_le m d : 0 <= d -> 0 <= m < 2 ^ d -> Zdigits2 m <= d.
Proof.
  intros Hd [H0 Hm]. destruct (Z.eq_dec m 0) as [->|Hne]; [cbn; lia|].
  destruct (Zdigits2_bounds m ltac:(lia)) as [Hlo _].
  destruct (Z.le_gt_cases (Zdigits2 m) d) as [|Hgt]; [assumption|].
  assert (2 ^ d <= 2 ^ (Zdigits2 m - 1)) by (apply Z.pow_le_mono_r; lia).
  lia.
Qed.

Lemma Zdigits2_ge m d : 2 ^ d <= m -> d < Zdigits2 m.
Proof.
  intros Hm.
  assert (0 < 2 ^ d \/ d < 0) as [Hp|Hn].
  { destruct (Z.le_gt_cases 0 d); [left; apply Z.pow_pos_nonneg; lia | right; lia]. }
  - destruct (Zdigits2_bounds m ltac:(lia)) as [_ Hhi].
    destruct (Z.le_gt_cases (Zdigits2 m) d) as [Hle|]; [|assumption].
    assert (2 ^ Zdigits2 m <= 2 ^ d)
      by (apply Z.pow_le_mono_r; [lia | exact Hle]).
    lia.
  - pose proof (Zdigits2_nonneg m). lia.
Qed.

Lemma Zdigits2_mono a b : 0 <= a <= b -> Zdigits2 a <= Zdigits2 b.
Proof.
  intros [Ha Hab]. destruct (Z.eq_dec b 0) as [->|Hb].
  - replace a with 0 by lia. lia.
  - apply Zdigits2_le; [apply Zdigits2_nonneg|].
    destruct (Zdigits2_bounds b ltac:(lia)). lia.
Qed.

(** ** Shifting a mantissa right *)

Lemma shr_1_nonneg mrs : 0 <= shr_m mrs -> 0 <= shr_m (shr_1 mrs).
Proof.
  destruct mrs as [m r s]. cbn [shr_m]. intros Hm.
  destruct m as [|[p|p|]|p]; cbn; lia.
Qed.

Lemma shr_1_digits mrs :
  0 <= shr_m mrs ->
  Zdigits2 (shr_m (shr_1 mrs)) = Z.max 0 (Zdigits2 (shr_m mrs) - 1).
Proof.
  destruct mrs as [m r s]. cbn [shr_m]. intros Hm.
  destruct m as [|[p|p|]|p]; cbn [shr_1 shr_m Zdigits2 digits2_pos]; lia.
Qed.

Lemma iter_shr_1 n mrs :
  0 <= shr_m mrs ->
  0 <= shr_m (iter_pos shr_1 n mrs)
  /\ Zdigits2 (shr_m (iter_pos shr_1 n mrs))
     = Z.max 0 (Zdigits2 (shr_m mrs) - Zpos n).
Proof.
  revert mrs. induction n as [n IH|n IH|]; intros mrs Hm; cbn [iter_pos].
  - pose proof (shr_1_nonneg mrs Hm) as H1.
    pose proof (shr_1_digits mrs Hm) as D1.
    destruct (IH _ H1) as [H2 D2]. destruct (IH _ H2) as [H3 D3].
    split; [exact H3|]. rewrite D3, D2, D1. lia.
  - destruct (IH _ Hm) as [H2 D2]. destruct (IH _ H2) as [H3 D3].
    split; [exact H3|]. rewrite D3, D2. lia.
  - split; [apply shr_1_nonneg; exact Hm|]. apply shr_1_digits; exact Hm.
Qed.

Lemma shr_record_of_loc_m m l : shr_m (shr_record_of_loc m l) = m.
Proof. destruct l as [|[]]; reflexivity. Qed.


(** What [shr_fexp] returns: the exponent is raised to [fexp] of the
    magnitude, and the mantissa loses as many digits. *)
Lemma shr_fexp_bounds m e l :
  0 <= m ->
  let '(mrs, e') := shr_fexp 53 1024 m e l in
  0 <= shr_m mrs
  /\ e' = Z.max e (fexp 53 1024 (Zdigits2 m + e))
  /\ Zdigits2 (shr_m mrs) = Z.max 0 (Zdigits2 m - (e' - e)).
Proof.
  intros Hm. unfold shr_fexp, shr.
  set (n := fexp 53 1024 (Zdigits2 m + e) - e).
  assert (Hn : fexp 53 1024 (Zdigits2 m + e) = e + n) by (unfold n; lia).
  rewrite Hn. clearbody n.
  pose proof (Zdigits2_nonneg m).
  destruct n as [|p|p].
  - rewrite shr_record_of_loc_m. repeat split; lia.
  - destruct (iter_shr_1 p (shr_record_of_loc m l)) as [H1 H2];
      [rewrite shr_record_of_loc_m; exact Hm|].
    rewrite shr_record_of_loc_m in H2.
    split; [exact H1|]. split; [lia|]. rewrite H2. f_equal. lia.
  - rewrite shr_record_of_loc_m. repeat split; lia.
Qed.

Lemma round_nearest_even_bounds m l :
  0 <= m ->
  m <= round_nearest_even m l <= m + 1.
Proof.
  intros Hm. destruct l as [|[]]; cbn [round_nearest_even];
    try destruct (Z.even m); lia.
Qed.

Lemma Zdigits2_succ m : 0 <= m -> Zdigits2 (m + 1) <= Zdigits2 m + 1.
Proof.
  intros Hm. destruct (Z.eq_dec m 0) as [->|Hne]; [cbn; lia|].
  apply Zdigits2_le; [pose proof (Zdigits2_nonneg m); lia|].
  destruct (Zdigits2_bounds m ltac:(lia)) as [_ Hhi].
  replace (Zdigits2 m + 1) with (Z.succ (Zdigits2 m)) by lia.
  rewrite Z.pow_succ_r by apply Zdigits2_nonneg. lia.
Qed.

(** The result of rounding a non-negative mantissa: a zero, or a finite
    value of the same sign whose exponent is bounded by that of the input
    and by its magnitude; never a NaN. *)
Lemma binary_round_aux_bounds sx mx ex lx E :
  0 <= mx ->
  ex <= E -> Zdigits2 mx + ex - 52 <= E -> -1074 <= E -> E <= 971 ->
  binary_round_aux 53 1024 sx mx ex lx = S754_zero sx
  \/ exists m e,
       binary_round_aux 53 1024 sx mx ex lx = S754_finite sx m e
       /\ e <= E /\ Zdigits2 (Zpos m) <= 53.
Proof.
  intros Hm HE1 HE2 HE3 HE4. unfold binary_round_aux.
  pose proof (shr_fexp_bounds mx ex lx Hm) as H1.
  destruct (shr_fexp 53 1024 mx ex lx) as [mrs' e'].
  destruct H1 as (Hm' & He' & Hd').
  pose proof (round_nearest_even_bounds (shr_m mrs') (loc_of_shr_record mrs') Hm')
    as Hr.
  set (m2 := round_nearest_even (shr_m mrs') (loc_of_shr_record mrs')) in *.
  assert (Hm2 : 0 <= m2) by lia.
  pose proof (shr_fexp_bounds m2 e' loc_Exact Hm2) as H2.
  destruct (shr_fexp 53 1024 m2 e' loc_Exact) as [mrs'' e''].
  destruct H2 as (Hm'' & He'' & Hd'').
  assert (Hd2 : Zdigits2 m2 <= Zdigits2 (shr_m mrs') + 1).
  { etransitivity; [apply Zdigits2_mono; split; [exact Hm2 | apply Hr]|].
    apply Zdigits2_succ; exact Hm'. }
  unfold fexp, emin in *.
  pose proof (Zdigits2_nonneg mx).
  destruct (shr_m mrs'') as [|p|p] eqn:Ep; [left; reflexivity| |lia].
  right. exists p, e''.
  assert (Hle : e'' <= E) by lia.
  destruct (Z.leb_spec e'' (1024 - 53)); [|lia].
  split; [reflexivity|]. split; [exact Hle|]. lia.
Qed.

Lemma iter_xO_value p k : Zpos (Pos.iter xO p k) = Zpos p * 2 ^ Zpos k.
Proof.
  induction k as [|k IH] using Pos.peano_ind.
  - cbn [Pos.iter]. lia.
  - rewrite Pos.iter_succ, Pos2Z.inj_xO, IH, Pos2Z.inj_succ, Z.pow_succ_r by lia.
    lia.
Qed.

Lemma iter_xO_digits p k :
  Zdigits2 (Zpos (Pos.iter xO p k)) = Zdigits2 (Zpos p) + Zpos k.
Proof.
  induction k as [|k IH] using Pos.peano_ind.
  - cbn. lia.
  - rewrite Pos.iter_succ. cbn [Zdigits2 digits2_pos] in *. lia.
Qed.

(** A mantissa of 53 digits with an exponent in range is kept as it is. *)
Lemma binary_round_aux_canonical s m e :
  Zdigits2 (Zpos m) = 53 -> -1074 <= e <= 971 ->
  binary_round_aux 53 1024 s (Zpos m) e loc_Exact = S754_finite s m e.
Proof.
  intros Hd He. unfold binary_round_aux.
  assert (Hshr : shr_fexp 53 1024 (Zpos m) e loc_Exact
                 = ({| shr_m := Zpos m; shr_r := false; shr_s := false |}, e)).
  { unfold shr_fexp. rewrite Hd.
    replace (fexp 53 1024 (53 + e) - e) with 0
      by (unfold fexp, emin; lia).
    reflexivity. }
  rewrite Hshr. cbn [shr_m loc_of_shr_record round_nearest_even].
  rewrite Hshr. cbn [shr_m].
  destruct (Z.leb_spec e (1024 - 53)); [reflexivity | lia].
Qed.

(** The Number for a positive safe integer: the integer itself, with its
    digits moved up to 53. *)
Lemma toNumber_safe z :
  0 < z < 2 ^ 53 ->
  exists m,
    toNumber z = S754_finite false m (Zdigits2 z - 53)
    /\ Zdigits2 (Zpos m) = 53
    /\ Zpos m = z * 2 ^ (53 - Zdigits2 z).
Proof.
  intros [H0 H1]. destruct z as [|p|p]; try lia.
  assert (Hd : 0 < Zdigits2 (Zpos p) <= 53).
  { split; [apply Zdigits2_pos; lia|]. apply Zdigits2_le; lia. }
  unfold toNumber, binary_normalize, binary_round.
  replace (fexp 53 1024 (Zpos (digits2_pos p) + 0))
    with (Zdigits2 (Zpos p) - 53)
    by (unfold fexp, emin; cbn [Zdigits2] in *; lia).
  unfold shl_align.
  destruct (Zdigits2 (Zpos p) - 53 - 0) as [|k|k] eqn:Ek; try lia.
  - exists p. cbv iota beta.
    rewrite (binary_round_aux_canonical false p 0) by lia.
    replace (Zdigits2 (Zpos p) - 53) with 0 by lia.
    split; [reflexivity|]. split; [lia|].
    replace (53 - Zdigits2 (Zpos p)) with 0 by lia. lia.
  - exists (Pos.iter xO p k).
    assert (Hdk : Zdigits2 (Zpos (Pos.iter xO p k)) = 53)
      by (rewrite iter_xO_digits; lia).
    cbv iota beta.
    rewrite (binary_round_aux_canonical false _ _ Hdk) by lia.
    split; [reflexivity|]. split; [exact Hdk|].
    rewrite iter_xO_value. f_equal. f_equal. lia.
Qed.

(** The quotient of two 53-digit values, the first with the smaller
    exponent: a zero or a finite value with an exponent of at most -51. *)
Lemma SFdiv_bounds m1 e1 m2 e2 :
  Zdigits2 (Zpos m1) = 53 -> Zdigits2 (Zpos m2) = 53 ->
  e1 <= e2 -> -52 <= e1 -> e2 <= 0 ->
  let q := SFdiv 53 1024 (S754_finite false m1 e1) (S754_finite false m2 e2) in
  q = S754_zero false
  \/ exists m e, q = S754_finite false m e /\ e <= -51
                 /\ Zdigits2 (Zpos m) <= 53.
Proof.
  intros Hd1 Hd2 He H1 H2. cbn zeta. unfold SFdiv, SFdiv_core_binary.
  rewrite Hd1, Hd2.
  replace (Z.min (fexp 53 1024 (53 + e1 - (53 + e2))) (e1 - e2))
    with (e1 - e2 - 53) by (unfold fexp, emin; lia).
  replace (e1 - e2 - (e1 - e2 - 53)) with 53 by lia.
  cbv iota.
  pose proof (Z_div_mod (Z.shiftl (Zpos m1) 53) (Zpos m2) ltac:(lia)) as Hdm.
  destruct (Z.div_eucl (Z.shiftl (Zpos m1) 53) (Zpos m2)) as [q r].
  destruct Hdm as [Hq Hr].
  rewrite Z.shiftl_mul_pow2 in Hq by lia.
  destruct (Zdigits2_bounds (Zpos m1) ltac:(lia)) as [_ Hm1].
  destruct (Zdigits2_bounds (Zpos m2) ltac:(lia)) as [Hm2 _].
  rewrite Hd1 in Hm1. rewrite Hd2 in Hm2.
  change (2 ^ (53 - 1)) with 4503599627370496 in Hm2.
  change (2 ^ 53) with 9007199254740992 in *.
  assert (Hq0 : 0 <= q) by nia.
  assert (Hq1 : q < 2 ^ 54).
  { change (2 ^ 54) with 18014398509481984. nia. }
  pose proof (Zdigits2_le q 54 ltac:(lia) (conj Hq0 Hq1)) as Hdq.
  cbn [xorb].
  apply binary_round_aux_bounds; lia.
Qed.

(** The product of a value with an exponent of at most -51 and the Number
    100: a zero or a finite value with an exponent of at most -43. *)
Lemma SFmul_100_bounds m e :
  Zdigits2 (Zpos m) <= 53 -> e <= -51 ->
  let p := SFmul 53 1024 (S754_finite false m e) (toNumber 100) in
  p = S754_zero false
  \/ exists m' e', p = S754_finite false m' e' /\ e' <= -43.
Proof.
  intros Hd He. cbn zeta.
  change (toNumber 100)
    with (S754_finite false 7036874417766400 (-46)).
  cbn [SFmul xorb].
  assert (Hdp : Zdigits2 (Zpos (m * 7036874417766400)) <= 106).
  { apply Zdigits2_le; [lia|].
    assert (Hm : Zpos m < 2 ^ 53).
    { destruct (Zdigits2_bounds (Zpos m) ltac:(lia)) as [_ Hhi].
      eapply Z.lt_le_trans; [exact Hhi|].
      apply Z.pow_le_mono_r; lia. }
    change (2 ^ 53) with 9007199254740992 in Hm.
    change (2 ^ 106) with 81129638414606681695789005144064.
    rewrite Pos2Z.inj_mul. nia. }
  destruct (binary_round_aux_bounds false (Zpos (m * 7036874417766400))
              (e + -46) loc_Exact (-43)) as [Hz|(m' & e' & Hf & He' & _)];
    try lia.
  - left; exact Hz.
  - right. exists m', e'. split; [exact Hf | exact He'].
Qed.

(** The percentage of a count in a total: zero, or a positive finite value
    with an exponent of at most -43 (a value below 1024). *)
Lemma percentage_bounds f t :
  0 <= f <= t -> 0 < t < 2 ^ 53 ->
  percentage f t = S754_zero false
  \/ exists m e, percentage f t = S754_finite false m e /\ e <= -43.
Proof.
  intros Hf Ht. unfold percentage.
  destruct (toNumber_safe t Ht) as (m2 & E2 & Hd2 & _).
  assert (Hdt : 0 < Zdigits2 t <= 53).
  { split; [apply Zdigits2_pos; lia | apply Zdigits2_le; lia]. }
  destruct (Z.eq_dec f 0) as [->|Hne].
  - left. rewrite E2. reflexivity.
  - destruct (toNumber_safe f ltac:(lia)) as (m1 & E1 & Hd1 & _).
    assert (Hdf : 0 < Zdigits2 f <= Zdigits2 t).
    { split; [apply Zdigits2_pos; lia | apply Zdigits2_mono; lia]. }
    rewrite E1, E2.
    destruct (SFdiv_bounds m1 (Zdigits2 f - 53) m2 (Zdigits2 t - 53))
      as [Hz|(m & e & Hq & He & Hd)]; try lia.
    + left. rewrite Hz. reflexivity.
    + rewrite Hq. apply SFmul_100_bounds; assumption.
Qed.

Lemma percentage_fixedRange f t :
  0 <= f <= t -> 0 < t < 2 ^ 53 -> fixedRange (percentage f t) = true.
Proof.
  intros Hf Ht.
  destruct (percentage_bounds f t Hf Ht) as [Hz|(m & e & Hp & He)];
    rewrite ?Hz, ?Hp; [reflexivity|].
  cbn [fixedRange].
  change (toNumber (10 ^ 21))
    with (S754_finite false 7629394531250000 17).
  unfold SFleb. cbn [SFcompare].
  assert (Hc : (17 ?= e) = Gt) by (apply Z.compare_gt_iff; lia).
  rewrite Hc. reflexivity.
Qed.

(** ** The value of a rounded quotient *)

Lemma located_lower N D m l : 0 < D -> located N D m l -> m * D <= N.
Proof. destruct l as [|[]]; cbn [located]; nia. Qed.

Lemma loc_of_shr_record_of_loc m l :
  loc_of_shr_record (shr_record_of_loc m l) = l.
Proof. destruct l as [|[]]; reflexivity. Qed.

Lemma shr_1_located N D mrs :
  0 < D -> 0 <= shr_m mrs ->
  located N D (shr_m mrs) (loc_of_shr_record mrs) ->
  located N (2 * D) (shr_m (shr_1 mrs)) (loc_of_shr_record (shr_1 mrs)).
Proof.
  intros HD. destruct mrs as [m r s]. cbn [shr_m]. intros Hm.
  destruct m as [|[p|p|]|p]; try lia;
    destruct r, s; cbn [shr_1 shr_m loc_of_shr_record located orb]; nia.
Qed.

Lemma iter_shr_1_located n N D mrs :
  0 < D -> 0 <= shr_m mrs ->
  located N D (shr_m mrs) (loc_of_shr_record mrs) ->
  located N (2 ^ Zpos n * D) (shr_m (iter_pos shr_1 n mrs))
    (loc_of_shr_record (iter_pos shr_1 n mrs)).
Proof.
  revert D mrs. induction n as [n IH|n IH|]; intros D mrs HD Hm H;
    cbn [iter_pos].
  - pose proof (shr_1_located N D mrs HD Hm H) as H1.
    pose proof (shr_1_nonneg mrs Hm) as Hm1.
    assert (HD1 : 0 < 2 * D) by lia.
    pose proof (IH _ _ HD1 Hm1 H1) as H2.
    destruct (iter_shr_1 n _ Hm1) as [Hm2 _].
    assert (HD2 : 0 < 2 ^ Zpos n * (2 * D))
      by (apply Z.mul_pos_pos; [apply Z.pow_pos_nonneg; lia | lia]).
    pose proof (IH _ _ HD2 Hm2 H2) as H3.
    replace (2 ^ Zpos n~1 * D) with (2 ^ Zpos n * (2 ^ Zpos n * (2 * D)));
      [exact H3|].
    assert (E : 2 ^ Zpos n~1 = 2 ^ Zpos n * 2 ^ Zpos n * 2).
    { replace (Zpos n~1) with (Zpos n + Zpos n + 1) by lia.
      rewrite !Z.pow_add_r by lia. reflexivity. }
    rewrite E. ring.
  - pose proof (IH _ _ HD Hm H) as H2.
    destruct (iter_shr_1 n _ Hm) as [Hm2 _].
    assert (HD2 : 0 < 2 ^ Zpos n * D)
      by (apply Z.mul_pos_pos; [apply Z.pow_pos_nonneg; lia | lia]).
    pose proof (IH _ _ HD2 Hm2 H2) as H3.
    replace (2 ^ Zpos n~0 * D) with (2 ^ Zpos n * (2 ^ Zpos n * D));
      [exact H3|].
    assert (E : 2 ^ Zpos n~0 = 2 ^ Zpos n * 2 ^ Zpos n).
    { replace (Zpos n~0) with (Zpos n + Zpos n) by lia.
      rewrite !Z.pow_add_r by lia. reflexivity. }
    rewrite E. ring.
  - replace (2 ^ 1 * D) with (2 * D) by lia.
    apply shr_1_located; assumption.
Qed.

Lemma round_nearest_even_nearest N D m l :
  0 < D -> located N D m l ->
  - D <= 2 * (N - round_nearest_even m l * D) <= D.
Proof.
  intros HD. destruct l as [|[]]; cbn [located round_nearest_even];
    try destruct (Z.even m); nia.
Qed.

(** Rounding a quotient whose integer part has at least 53 digits, in the
    range of the normal numbers: the result is a finite value with a
    53-digit mantissa, within a relative error of 2^-53 of the quotient. *)
Lemma binary_round_aux_value sx mx ex lx N D :
  0 < D -> located N D mx lx -> 2 ^ 52 <= mx ->
  -1074 <= Zdigits2 mx + ex - 53 -> Zdigits2 mx + ex - 53 < 971 ->
  exists m e,
    binary_round_aux 53 1024 sx mx ex lx = S754_finite sx m e
    /\ ex <= e <= ex + (Zdigits2 mx - 53) + 1
    /\ Zdigits2 (Zpos m) = 53
    /\ 2 ^ 53 * Z.abs (N - Zpos m * 2 ^ (e - ex) * D) <= N.
Proof.
  intros HD Hloc Hmx Hlo Hhi.
  assert (Hmx0 : 0 <= mx) by (change (2 ^ 52) with 4503599627370496 in Hmx; lia).
  pose proof (Zdigits2_ge mx 52 Hmx) as Hd.
  unfold binary_round_aux.
  (* the first shift *)
  assert (H1 : exists mrs n1,
             shr_fexp 53 1024 mx ex lx = (mrs, ex + n1)
             /\ n1 = Zdigits2 mx - 53
             /\ 0 <= n1
             /\ Zdigits2 (shr_m mrs) = 53
             /\ 0 <= shr_m mrs
             /\ located N (2 ^ n1 * D) (shr_m mrs) (loc_of_shr_record mrs)).
  { unfold shr_fexp, shr.
    replace (fexp 53 1024 (Zdigits2 mx + ex) - ex) with (Zdigits2 mx - 53)
      by (unfold fexp, emin; lia).
    destruct (Zdigits2 mx - 53) as [|p|p] eqn:En; try lia.
    - exists (shr_record_of_loc mx lx), 0.
      rewrite shr_record_of_loc_m, loc_of_shr_record_of_loc.
      replace (ex + 0) with ex by lia.
      split; [reflexivity|]. split; [lia|]. split; [lia|]. split; [lia|].
      split; [lia|].
      replace (2 ^ 0 * D) with D by lia. exact Hloc.
    - exists (iter_pos shr_1 p (shr_record_of_loc mx lx)), (Zpos p).
      destruct (iter_shr_1 p (shr_record_of_loc mx lx)) as [Hn Hdig];
        [rewrite shr_record_of_loc_m; exact Hmx0|].
      rewrite shr_record_of_loc_m in Hdig.
      split; [reflexivity|]. split; [lia|]. split; [lia|]. split; [lia|].
      split; [exact Hn|].
      apply iter_shr_1_located;
        rewrite ?shr_record_of_loc_m, ?loc_of_shr_record_of_loc; assumption. }
  destruct H1 as (mrs & n1 & -> & En1 & Hn1 & Hdig & Hm' & Hloc').
  set (D' := 2 ^ n1 * D) in *.
  assert (HD' : 0 < D')
    by (apply Z.mul_pos_pos; [apply Z.pow_pos_nonneg; lia | lia]).
  set (m' := shr_m mrs) in *.
  pose proof (round_nearest_even_bounds m' (loc_of_shr_record mrs) Hm') as Hr.
  pose proof (round_nearest_even_nearest N D' m' _ HD' Hloc') as Hnear.
  pose proof (located_lower N D' m' _ HD' Hloc') as Hlow.
  set (m2 := round_nearest_even m' (loc_of_shr_record mrs)) in *.
  assert (Hm'b : 2 ^ 52 <= m' < 2 ^ 53).
  { destruct (Z.eq_dec m' 0) as [E|E]; [rewrite E in Hdig; cbn in Hdig; lia|].
    pose proof (Zdigits2_bounds m' ltac:(lia)) as Hb.
    rewrite Hdig in Hb. exact Hb. }
  change (2 ^ 52) with 4503599627370496 in *.
  change (2 ^ 53) with 9007199254740992 in *.
  assert (HN : 4503599627370496 * D' <= N) by nia.
  assert (Herr : 9007199254740992 * Z.abs (N - m2 * D') <= N) by lia.
  destruct (Z.eq_dec m2 9007199254740992) as [E2|E2].
  - (* the mantissa was rounded up to 2^53 *)
    rewrite E2 in *.
    assert (Hs : shr_fexp 53 1024 9007199254740992 (ex + n1) loc_Exact
                 = ({| shr_m := 4503599627370496; shr_r := false;
                       shr_s := false |}, ex + n1 + 1)).
    { unfold shr_fexp.
      change (Zdigits2 9007199254740992) with 54.
      replace (fexp 53 1024 (54 + (ex + n1)) - (ex + n1)) with 1
        by (unfold fexp, emin; lia).
      reflexivity. }
    rewrite Hs. cbn [shr_m].
    destruct (Z.leb_spec (ex + n1 + 1) (1024 - 53)); [|lia].
    exists 4503599627370496%positive, (ex + n1 + 1).
    split; [reflexivity|]. split; [lia|]. split; [reflexivity|].
    replace (ex + n1 + 1 - ex) with (n1 + 1) by lia.
    rewrite Z.pow_add_r by lia.
    replace (4503599627370496 * (2 ^ n1 * 2 ^ 1) * D)
      with (9007199254740992 * D') by (unfold D'; ring).
    exact Herr.
  - assert (Hd2 : Zdigits2 m2 = 53).
    { apply Z.le_antisymm.
      - apply Zdigits2_le; lia.
      - pose proof (Zdigits2_ge m2 52). change (2 ^ 52) with 4503599627370496 in *.
        lia. }
    assert (Hs : shr_fexp 53 1024 m2 (ex + n1) loc_Exact
                 = ({| shr_m := m2; shr_r := false; shr_s := false |},
                    ex + n1)).
    { unfold shr_fexp. rewrite Hd2.
      replace (fexp 53 1024 (53 + (ex + n1)) - (ex + n1)) with 0
        by (unfold fexp, emin; lia).
      reflexivity. }
    rewrite Hs. cbn [shr_m].
    destruct m2 as [|p|p] eqn:Em2; try lia.
    destruct (Z.leb_spec (ex + n1) (1024 - 53)); [|lia].
    exists p, (ex + n1).
    split; [reflexivity|]. split; [lia|]. split; [exact Hd2|].
    replace (ex + n1 - ex) with n1 by lia.
    replace (Zpos p * 2 ^ n1 * D) with (Zpos p * D') by (unfold D'; ring).
    exact Herr.
Qed.

Lemma new_location_located N D q r :
  0 < D -> N = q * D + r -> 0 <= r < D ->
  located N D q (new_location D r).
Proof.
  intros HD HN Hr. unfold new_location.
  destruct (Z.even D) eqn:Ev.
  - unfold new_location_even. destruct (Z.eqb_spec r 0) as [->|Hr0].
    + cbn [located]. lia.
    + destruct (Z.compare_spec (2 * r) D); cbn [located]; nia.
  - unfold new_location_odd. destruct (Z.eqb_spec r 0) as [->|Hr0].
    + cbn [located]. lia.
    + assert (Hodd : Z.odd D = true) by (rewrite <- Z.negb_even, Ev; reflexivity).
      apply Z.odd_spec in Hodd. destruct Hodd as [k Hk].
      destruct (Z.compare_spec (2 * r + 1) D); cbn [located]; nia.
Qed.

(** The quotient of two 53-digit values: a finite value with a 53-digit
    mantissa within a relative error of 2^-53. *)
Lemma SFdiv_value m1 e1 m2 e2 :
  Zdigits2 (Zpos m1) = 53 -> Zdigits2 (Zpos m2) = 53 ->
  e1 <= e2 -> -52 <= e1 -> e2 <= 0 ->
  exists m e,
    SFdiv 53 1024 (S754_finite false m1 e1) (S754_finite false m2 e2)
    = S754_finite false m e
    /\ e1 - e2 - 53 <= e <= e1 - e2 - 51
    /\ Zdigits2 (Zpos m) = 53
    /\ 2 ^ 53 * Z.abs (Zpos m1 * 2 ^ 53
                       - Zpos m * 2 ^ (e - (e1 - e2 - 53)) * Zpos m2)
       <= Zpos m1 * 2 ^ 53.
Proof.
  intros Hd1 Hd2 He H1 H2. unfold SFdiv, SFdiv_core_binary.
  rewrite Hd1, Hd2.
  replace (Z.min (fexp 53 1024 (53 + e1 - (53 + e2))) (e1 - e2))
    with (e1 - e2 - 53) by (unfold fexp, emin; lia).
  replace (e1 - e2 - (e1 - e2 - 53)) with 53 by lia.
  cbv iota.
  pose proof (Z_div_mod (Z.shiftl (Zpos m1) 53) (Zpos m2) ltac:(lia)) as Hdm.
  destruct (Z.div_eucl (Z.shiftl (Zpos m1) 53) (Zpos m2)) as [q r].
  destruct Hdm as [Hq Hr].
  rewrite Z.shiftl_mul_pow2 in Hq by lia.
  destruct (Zdigits2_bounds (Zpos m1) ltac:(lia)) as [Hm1l Hm1].
  destruct (Zdigits2_bounds (Zpos m2) ltac:(lia)) as [Hm2 Hm2h].
  rewrite Hd1 in Hm1, Hm1l. rewrite Hd2 in Hm2, Hm2h.
  change (2 ^ (53 - 1)) with 4503599627370496 in *.
  assert (Hq0 : 2 ^ 52 <= q).
  { change (2 ^ 52) with 4503599627370496.
    change (2 ^ 53) with 9007199254740992 in *. nia. }
  assert (Hq1 : q < 2 ^ 54).
  { change (2 ^ 54) with 18014398509481984.
    change (2 ^ 53) with 9007199254740992 in *. nia. }
  assert (Hdq : 53 <= Zdigits2 q <= 54).
  { split.
    - pose proof (Zdigits2_ge q 52 Hq0). lia.
    - apply Zdigits2_le; [lia|].
      change (2 ^ 52) with 4503599627370496 in Hq0. lia. }
  cbn [xorb].
  destruct (binary_round_aux_value false q (e1 - e2 - 53) (new_location (Zpos m2) r)
              (Zpos m1 * 2 ^ 53) (Zpos m2))
    as (m & e & Hres & He' & Hdm' & Herr); try lia.
  - apply new_location_located; lia.
  - exists m, e. split; [exact Hres|]. split; [lia|].
    split; [exact Hdm' | exact Herr].
Qed.

(** The product of a 53-digit value and the Number 100. *)
Lemma SFmul_100_value m e :
  Zdigits2 (Zpos m) = 53 -> -200 <= e <= -51 ->
  exists m' e',
    SFmul 53 1024 (S754_finite false m e) (toNumber 100)
    = S754_finite false m' e'
    /\ e - 46 <= e' <= e + 8
    /\ 2 ^ 53 * Z.abs (Zpos m * 7036874417766400
                       - Zpos m' * 2 ^ (e' - (e - 46)))
       <= Zpos m * 7036874417766400.
Proof.
  intros Hd He.
  change (toNumber 100) with (S754_finite false 7036874417766400 (-46)).
  cbn [SFmul xorb].
  destruct (Zdigits2_bounds (Zpos m) ltac:(lia)) as [Hml Hmh].
  rewrite Hd in Hml, Hmh.
  change (2 ^ (53 - 1)) with 4503599627370496 in *.
  change (2 ^ 53) with 9007199254740992 in *.
  assert (Hp0 : 2 ^ 104 <= Zpos (m * 7036874417766400)).
  { change (2 ^ 104) with 20282409603651670423947251286016.
    rewrite Pos2Z.inj_mul. nia. }
  assert (Hp1 : Zpos (m * 7036874417766400) < 2 ^ 106).
  { change (2 ^ 106) with 81129638414606681695789005144064.
    rewrite Pos2Z.inj_mul. nia. }
  assert (Hdp : 105 <= Zdigits2 (Zpos (m * 7036874417766400)) <= 106).
  { split.
    - pose proof (Zdigits2_ge _ 104 Hp0). lia.
    - apply Zdigits2_le; lia. }
  destruct (binary_round_aux_value false (Zpos (m * 7036874417766400))
              (e + -46) loc_Exact (Zpos (m * 7036874417766400)) 1)
    as (m' & e' & Hres & He' & _ & Herr); try lia.
  - cbn [located]. lia.
  - exists m', e'. split; [exact Hres|]. split; [lia|].
    rewrite Pos2Z.inj_mul in Herr.
    replace (e' - (e - 46)) with (e' - (e + -46)) by lia.
    rewrite Z.mul_1_r in Herr. exact Herr.
Qed.

Lemma abs_scale a b c : 0 <= c -> Z.abs (a * c - b * c) = Z.abs (a - b) * c.
Proof.
  intros Hc. rewrite <- Z.mul_sub_distr_r, Z.abs_mul, (Z.abs_eq c) by exact Hc.
  reflexivity.
Qed.

(** The percentage of a positive count in a total: a finite positive value
    [m * 2^e] with [e <= -43], within a relative error of 2^-51 of
    [100 * f / t]. *)
Lemma percentage_value f t :
  0 < f <= t -> t < 2 ^ 53 ->
  exists m e,
    percentage f t = S754_finite false m e
    /\ e <= -43
    /\ 2 ^ 51 * Z.abs (100 * f * 2 ^ (- e) - Zpos m * t) <= 100 * f * 2 ^ (- e).
Proof.
  intros Hf Ht. unfold percentage.
  destruct (toNumber_safe f ltac:(lia)) as (m1 & E1 & Hd1 & V1).
  destruct (toNumber_safe t ltac:(lia)) as (m2 & E2 & Hd2 & V2).
  assert (Hdf : 0 < Zdigits2 f <= Zdigits2 t).
  { split; [apply Zdigits2_pos; lia | apply Zdigits2_mono; lia]. }
  assert (Hdt : Zdigits2 t <= 53) by (apply Zdigits2_le; lia).
  rewrite E1, E2.
  set (a := 53 - Zdigits2 f) in *. set (b := 53 - Zdigits2 t) in *.
  replace (Zdigits2 f - 53) with (- a) by (unfold a; lia).
  replace (Zdigits2 t - 53) with (- b) by (unfold b; lia).
  assert (Hab : 0 <= b <= a /\ a <= 52) by (unfold a, b; lia).
  clearbody a b.
  destruct (SFdiv_value m1 (- a) m2 (- b) Hd1 Hd2)
    as (mq & eq & -> & Heq & Hdq & Rq); try lia.
  destruct (SFmul_100_value mq eq Hdq ltac:(lia))
    as (mp & ep & -> & Hep & Rp).
  exists mp, ep. split; [reflexivity|]. split; [lia|].
  (* the powers of two involved *)
  set (L := 2 ^ (- eq)). set (K := 2 ^ (- ep)).
  assert (HL : 0 < L) by (apply Z.pow_pos_nonneg; lia).
  assert (HK : 0 < K) by (apply Z.pow_pos_nonneg; lia).
  set (X := 2 ^ (eq - (- a - - b - 53))) in *.
  set (Y := 2 ^ (ep - (eq - 46))) in *.
  assert (HX : 0 < X) by (apply Z.pow_pos_nonneg; lia).
  assert (HY : 0 < Y) by (apply Z.pow_pos_nonneg; lia).
  assert (Ha : 0 < 2 ^ a) by (apply Z.pow_pos_nonneg; lia).
  assert (Hb : 0 < 2 ^ b) by (apply Z.pow_pos_nonneg; lia).
  assert (P1 : 2 ^ a * 2 ^ 53 = 2 ^ b * X * L).
  { unfold X, L. rewrite <- !Z.pow_add_r by lia. f_equal. lia. }
  assert (P2 : Y * K = 70368744177664 * L).
  { unfold Y, K, L. change 70368744177664 with (2 ^ 46).
    rewrite <- !Z.pow_add_r by lia. f_equal. lia. }
  (* the quotient: 2^53 * |f L - mq t| <= f L *)
  assert (HbX : 0 < 2 ^ b * X) by (apply Z.mul_pos_pos; assumption).
  assert (R1 : 2 ^ 53 * Z.abs (f * L - Zpos mq * t) <= f * L).
  { rewrite V1, V2 in Rq.
    replace (f * 2 ^ a * 2 ^ 53) with (f * L * (2 ^ b * X)) in Rq
      by (transitivity (f * (2 ^ a * 2 ^ 53)); [rewrite P1; ring | ring]).
    replace (Zpos mq * X * (t * 2 ^ b)) with (Zpos mq * t * (2 ^ b * X)) in Rq
      by ring.
    rewrite abs_scale in Rq by lia.
    rewrite Z.mul_assoc in Rq.
    apply Z.mul_le_mono_pos_r in Rq; [exact Rq | exact HbX]. }
  (* the product: 2^53 * |100 mq K - mp L| <= 100 mq K *)
  assert (R2 : 2 ^ 53 * Z.abs (100 * Zpos mq * K - Zpos mp * L)
               <= 100 * Zpos mq * K).
  { apply (Z.mul_le_mono_nonneg_r _ _ K) in Rp; [|lia].
    rewrite <- Z.mul_assoc, <- (Z.abs_eq K) in Rp at 1 by lia.
    rewrite <- Z.abs_mul, Z.mul_sub_distr_r in Rp.
    replace (Zpos mp * Y * K) with (Zpos mp * L * 70368744177664) in Rp
      by (transitivity (Zpos mp * (Y * K)); [rewrite P2; ring | ring]).
    replace (Zpos mq * 7036874417766400 * K)
      with (100 * Zpos mq * K * 70368744177664) in Rp by ring.
    rewrite abs_scale in Rp by lia.
    rewrite Z.mul_assoc in Rp.
    apply Z.mul_le_mono_pos_r in Rp; [exact Rp | lia]. }
  (* together, over the common denominator *)
  change (2 ^ 53) with 9007199254740992 in *.
  change (2 ^ 51) with 2251799813685248.
  fold K.
  assert (S1 : 9007199254740992 * Z.abs (f * L * K - Zpos mq * t * K)
               <= f * L * K).
  { rewrite abs_scale by lia. rewrite Z.mul_assoc.
    apply Z.mul_le_mono_nonneg_r; [lia | exact R1]. }
  assert (S2 : 9007199254740992
               * Z.abs (100 * (Zpos mq * t * K) - Zpos mp * t * L)
               <= 100 * (Zpos mq * t * K)).
  { replace (100 * (Zpos mq * t * K) - Zpos mp * t * L)
      with ((100 * Zpos mq * K) * t - (Zpos mp * L) * t) by ring.
    rewrite abs_scale by lia. rewrite Z.mul_assoc.
    replace (100 * (Zpos mq * t * K)) with (100 * Zpos mq * K * t) by ring.
    apply Z.mul_le_mono_nonneg_r; [lia | exact R2]. }
  assert (G : 2251799813685248 * Z.abs (100 * (f * L * K) - Zpos mp * t * L)
              <= 100 * (f * L * K)).
  { set (A := f * L * K) in *. set (Qs := Zpos mq * t * K) in *.
    set (Ps := Zpos mp * t * L) in *. clearbody A Qs Ps.
    clear - S1 S2. lia. }
  replace (100 * (f * L * K) - Zpos mp * t * L)
    with ((100 * f * K) * L - (Zpos mp * t) * L) in G by ring.
  rewrite abs_scale in G by lia.
  replace (100 * (f * L * K)) with (100 * f * K * L) in G by ring.
  rewrite Z.mul_assoc in G.
  apply Z.mul_le_mono_pos_r in G; [exact G | exact HL].
Qed.

(* ================================================================== *)
(** * CSV export *)

Lemma join_lines sep first rest :
  join sep (first :: rest)
  = first ++ concat (List.map (fun line => sep ++ line) rest).
Proof.
  revert first. induction rest as [|l rest IH]; intros first.
  - cbn. rewrite app_nil_r. reflexivity.
  - change (join sep (first :: l :: rest))
      with (first ++ sep ++ join sep (l :: rest)).
    rewrite IH. cbn [List.map concat]. rewrite <- app_assoc. reflexivity.
Qed.

Lemma includes_In value c : includes value c = true <-> In c value.
Proof.
  unfold includes. rewrite existsb_exists. split.
  - intros (x & Hx & E). apply N.eqb_eq in E. subst. exact Hx.
  - intros H. exists c. split; [exact H | apply N.eqb_refl].
Qed.

Lemma includes_any value :
  includes value comma || includes value quote || includes value newline = true
  <-> (In 44%N value \/ In 34%N value \/ In 10%N value).
Proof.
  rewrite !orb_true_iff, !includes_In. unfold comma, quote, newline. tauto.
Qed.

Lemma escapeCSVField_quoted value :
  escapeCSVField ([quote] ++ value ++ [quote])
  = [quote; quote; quote] ++ doubleQuotes value ++ [quote; quote; quote].
Proof.
  unfold escapeCSVField.
  assert (Hq : includes ([quote] ++ value ++ [quote]) quote = true)
    by reflexivity.
  rewrite Hq, orb_true_r. cbn [orb].
  unfold doubleQuotes. rewrite !flat_map_app. cbn [flat_map N.eqb quote].
  cbn. rewrite <- !app_assoc. reflexivity.
Qed.

Section CsvFacts.
Context {F : NumberFormat}.

(** The frequency field of a count in a total of at most 2^53: an integer
    part, a point and three decimals, which read without the point are an
    integer [n] within 1/2 + 2^-34 of [100000 * f / t]. *)
Lemma frequency_field f t :
  0 <= f <= t -> 0 < t < 2 ^ 53 ->
  exists int frac n,
    toFixed (percentage f t) 3 = int ++ lit "." ++ frac
    /\ int <> []
    /\ Forall (fun c => isDigitUnit c = true) int
    /\ length frac = 3%nat
    /\ Forall (fun c => isDigitUnit c = true) frac
    /\ decimalValue 0 (int ++ frac) = n
    /\ 2 ^ 35 * Z.abs (n * t - 100000 * f) <= (2 ^ 34 + 2) * t.
Proof.
  intros Hf Ht. destruct (Z.eq_dec f 0) as [->|Hne].
  - assert (Hz : percentage 0 t = S754_zero false).
    { destruct (percentage_bounds 0 t ltac:(lia) Ht) as [Hz|(m & e & Hp & _)];
        [exact Hz|].
      unfold percentage in Hp.
      destruct (toNumber_safe t Ht) as (m2 & E2 & _). rewrite E2 in Hp.
      discriminate Hp. }
    rewrite Hz. cbn [toFixed].
    destruct (fixedNotation_value 0 ltac:(lia))
      as (int & frac & H1 & H2 & H3 & H4 & H5 & H6).
    exists int, frac, 0. repeat split; try assumption.
    cbn [Z.mul Z.sub Z.abs]. lia.
  - destruct (percentage_value f t ltac:(lia) (proj2 Ht))
      as (m & e & Hp & He & Hacc).
    rewrite Hp. cbn [toFixed app].
    assert (Hle : SFleb (toNumber (10 ^ 21)) (S754_finite false m e) = false).
    { change (toNumber (10 ^ 21))
        with (S754_finite false 7629394531250000 17).
      unfold SFleb. cbn [SFcompare].
      assert (Hc : (17 ?= e) = Gt) by (apply Z.compare_gt_iff; lia).
      rewrite Hc. reflexivity. }
    rewrite Hle.
    destruct (fixedNotation_value (scaledNearest m e 3)
                (scaledNearest_nonneg m e 3))
      as (int & frac & H1 & H2 & H3 & H4 & H5 & H6).
    exists int, frac, (scaledNearest m e 3).
    repeat split; try assumption.
    destruct (scaledNearest_nearest m e 3) as [_ Hn].
    specialize (Hn ltac:(lia)). cbn zeta in Hn.
    set (n := scaledNearest m e 3) in *. clearbody n.
    set (K := 2 ^ (- e)) in *.
    assert (HK : 0 < K) by (apply Z.pow_pos_nonneg; lia).
    clearbody K.
    change (10 ^ Z.of_nat 3) with 1000 in Hn.
    change (2 ^ 51) with 2251799813685248 in Hacc.
    change (2 ^ 35) with 34359738368.
    change (2 ^ 34 + 2) with 17179869186.
    (* over the common denominator *)
    assert (S1 : 2 * (n * K * t) <= 2000 * (Zpos m * t) + K * t
                 /\ 2000 * (Zpos m * t) + K * t < 2 * (n * K * t) + 2 * (K * t)).
    { destruct Hn as [Hn1 Hn2]. split.
      - replace (2 * (n * K * t)) with (2 * n * K * t) by ring.
        replace (2000 * (Zpos m * t) + K * t)
          with ((2 * (Zpos m * 1000) + K) * t) by ring.
        apply Z.mul_le_mono_nonneg_r; [lia | exact Hn1].
      - replace (2 * (n * K * t) + 2 * (K * t)) with (2 * (n + 1) * K * t)
          by ring.
        replace (2000 * (Zpos m * t) + K * t)
          with ((2 * (Zpos m * 1000) + K) * t) by ring.
        apply Z.mul_lt_mono_pos_r; [lia | exact Hn2]. }
    assert (S2 : f * K <= t * K)
      by (apply Z.mul_le_mono_nonneg_r; lia).
    assert (S3 : 0 <= f * K) by (apply Z.mul_nonneg_nonneg; lia).
    assert (G : 34359738368 * Z.abs (n * K * t - 100000 * (f * K))
                <= 17179869186 * (t * K)).
    { replace (100 * f * K) with (100 * (f * K)) in Hacc by ring.
      set (X := n * K * t) in *. set (Y := Zpos m * t) in *.
      set (A := f * K) in *. set (T := t * K) in *.
      replace (K * t) with T in S1 by (unfold T; ring).
      clearbody X Y A T. clear - S1 S2 S3 Hacc. lia. }
    replace (n * K * t - 100000 * (f * K))
      with ((n * t) * K - (100000 * f) * K) in G by ring.
    rewrite abs_scale in G by lia.
    rewrite !Z.mul_assoc in G.
    apply Z.mul_le_mono_pos_r in G; [exact G | exact HK].
Qed.

(** C8. For every list of ranked entries, table type and total, the
    content of the export is the header row Rank,<TypeLabel>,Counts,Frequency
    (no space after a comma), followed for each entry by a line feed and
    the data row: the rank, a comma, the sequence with its quotes doubled
    between three quote characters on either side, a comma, the count, a
    comma, the frequency field and a percent sign. The frequency field is
    0.000 when the total is 0 (or less) and otherwise the binary64 value of
    (frequency / total) * 100 written by toFixed(3). For an entry with
    0 <= frequency <= total and a total below 2^53 the field is an integer
    part of digits, a point and exactly 3 decimals, and the number written
    is the percentage to 3 decimal places: read without the point it is an
    integer n with |n - 100000 * frequency / total| <= 1/2 + 2^-34. Ranks
    and counts from 0 to below 2^53 are written in decimal digits. A field
    value that contains a comma, a quote or a newline is wrapped in quotes
    with its quotes doubled, and any other value is left as it is. And the
    entry {sequence: a,b; frequency: 5; rank: 1} with total 10 is written
    as the row 1, then a,b inside three quotes on either side, then 5,
    then 50.000%. *)
Theorem csv_export_format (ngramData : list NGramData) (type : NGramType)
  (total : Z) :
  let label :=
    match type with
    | Monograms => lit "Monogram"
    | Bigrams => lit "Bigram"
    | Trigrams => lit "Trigram"
    | Skipgrams => lit "Skipgram"
    | Words => lit "Word"
    end in
  let field (ngram : NGramData) :=
    if 0 <? total
    then toFixed
           (SFmul 53 1024
              (SFdiv 53 1024 (binary_normalize 53 1024 (frequency ngram) 0 false)
                 (binary_normalize 53 1024 total 0 false))
              (binary_normalize 53 1024 100 0 false)) 3
    else lit "0.000" in
  let row (ngram : NGramData) :=
    numberToString (rank ngram) ++ lit ","
    ++ [34%N; 34%N; 34%N] ++ doubleQuotes (sequence ngram)
    ++ [34%N; 34%N; 34%N] ++ lit ","
    ++ numberToString (frequency ngram) ++ lit ","
    ++ field ngram ++ lit "%" in
  snd (exportToCSV ngramData type total)
  = (lit "Rank," ++ label ++ lit ",Counts,Frequency")
    ++ concat (List.map (fun ngram => [10%N] ++ row ngram) ngramData)
  /\ (forall ngram,
        0 <= frequency ngram <= total -> 0 < total < 2 ^ 53 ->
        exists int frac n,
          field ngram = int ++ lit "." ++ frac
          /\ int <> []
          /\ Forall (fun c => isDigitUnit c = true) int
          /\ length frac = 3%nat
          /\ Forall (fun c => isDigitUnit c = true) frac
          /\ decimalValue 0 (int ++ frac) = n
          /\ 2 ^ 35 * Z.abs (n * total - 100000 * frequency ngram)
             <= (2 ^ 34 + 2) * total)
  /\ (forall z, 0 <= z < 2 ^ 53 ->
        numberToString z <> []
        /\ Forall (fun c => isDigitUnit c = true) (numberToString z)
        /\ decimalValue 0 (numberToString z) = z)
  /\ (forall value,
        In 44%N value \/ In 34%N value \/ In 10%N value ->
        escapeCSVField value = [34%N] ++ doubleQuotes value ++ [34%N])
  /\ (forall value,
        ~ (In 44%N value \/ In 34%N value \/ In 10%N value) ->
        escapeCSVField value = value)
  /\ doubleQuotes [] = []
  /\ (forall c value,
        doubleQuotes (c :: value)
        = (if N.eqb c 34 then [34%N; 34%N] else [c]) ++ doubleQuotes value)
  /\ snd (exportToCSV
            [ {| sequence := lit "a,b"; frequency := 5; rank := 1 |} ]
            Words 10)
     = lit "Rank,Word,Counts,Frequency" ++ [10%N]
       ++ lit "1," ++ [34%N; 34%N; 34%N] ++ lit "a,b" ++ [34%N; 34%N; 34%N]
       ++ lit ",5,50.000%".
Proof.
  cbn zeta.
  split.
  { unfold exportToCSV, csvLines. cbn [snd].
    rewrite join_lines, map_map. apply (f_equal2 (@app jschar)).
    - unfold headerRow. destruct type; reflexivity.
    - apply (f_equal (@concat jschar)). apply map_ext. intros ngram.
      unfold dataRow.
      rewrite escapeCSVField_quoted. rewrite <- !app_assoc. reflexivity. }
  split.
  { intros ngram Hf Ht.
    rewrite (proj2 (Z.ltb_lt 0 total) (proj1 Ht)).
    exact (frequency_field (frequency ngram) total Hf Ht). }
  split.
  { intros z Hz. unfold numberToString, isSafeInteger.
    rewrite (proj2 (Z.ltb_lt (Z.abs z) (2 ^ 53))) by lia.
    destruct (decimalDigits_nonneg z (proj1 Hz)) as [H1 H2].
    split; [exact H1|]. split; [exact H2|].
    apply decimalDigits_value. exact (proj1 Hz). }
  split.
  { intros value H. apply includes_any in H.
    unfold escapeCSVField. rewrite H. reflexivity. }
  split.
  { intros value H. unfold escapeCSVField.
    destruct (includes value comma || includes value quote
              || includes value newline) eqn:E; [|reflexivity].
    apply includes_any in E. contradiction. }
  split; [reflexivity|].
  split; [intros c value; reflexivity|].
  vm_compute. reflexivity.
Qed.

End CsvFacts.

(** C8, as stated, fails: the header row is not written with a space
    after each comma. Not every export begins with the text
    Rank, <TypeLabel>, Counts, Frequency; the export of the word table
    begins with Rank,Word,Counts,Frequency. *)
Theorem csv_header_has_no_spaces :
  ~ (forall (F : NumberFormat) (ngramData : list NGramData)
       (type : NGramType) (total : Z),
       exists rest,
         snd (exportToCSV ngramData type total)
         = lit "Rank, " ++ getSequenceColumnLabel type
           ++ lit ", Counts, Frequency" ++ rest).
Proof.
  intros H. destruct (H plainFormat [] Words 0) as [rest Hrest].
  vm_compute in Hrest. discriminate Hrest.
Qed.

(** A whole export: two entries of the word table with total 10. *)
Example csv_export_of_two_words :
  exportToCSV (F := plainFormat)
    [ {| sequence := lit "a,b"; frequency := 5; rank := 1 |};
      {| sequence := lit "c"; frequency := 5; rank := 2 |} ] Words 10
  = (lit "words_export.csv",
     lit "Rank,Word,Counts,Frequency" ++ [newline]
     ++ lit "1," ++ [quote; quote; quote] ++ lit "a,b" ++ [quote; quote; quote]
     ++ lit ",5,50.000%" ++ [newline]
     ++ lit "2," ++ [quote; quote; quote] ++ lit "c" ++ [quote; quote; quote]
     ++ lit ",5,50.000%").
Proof. vm_compute. reflexivity. Qed.

(** Percentages that are not exact in binary: a third and two thirds. *)
Example percentage_of_thirds :
  toFixed (F := plainFormat) (percentage 1 3) 3 = lit "33.333"
  /\ toFixed (F := plainFormat) (percentage 2 3) 3 = lit "66.667"
  /\ fixedRange (percentage 1 3) = true.
Proof. vm_compute. repeat split. Qed.

(* ================================================================== *)
(** * URL state *)

Lemma firstValue_filter_other params name k :
  str_eqb name k = false ->
  firstValue (filter (fun p => negb (str_eqb (fst p) name)) params) k
  = firstValue params k.
Proof.
  intros Hk. induction params as [|[n v] rest IH]; simpl; auto.
  destruct (str_eqb n name) eqn:E; simpl.
  - apply str_eqb_eq in E; subst. rewrite Hk. exact IH.
  - rewrite IH. reflexivity.
Qed.

Lemma firstValue_setValue params name value k :
  firstValue (setValue params name value) k
  = if str_eqb name k then Some value else firstValue params k.
Proof.
  induction params as [|[n v] rest IH]; simpl.
  - reflexivity.
  - destruct (str_eqb n name) eqn:E; simpl.
    + apply str_eqb_eq in E; subst.
      destruct (str_eqb name k) eqn:Ek; auto.
      apply firstValue_filter_other; exact Ek.
    + destruct (str_eqb n k) eqn:En.
      * apply str_eqb_eq in En; subst. rewrite str_eqb_sym, E. reflexivity.
      * exact IH.
Qed.

Lemma params_get_set params name value k :
  params_get (params_set params name value) k
  = if str_eqb (toUSVString name) (toUSVString k)
    then Some (toUSVString value) else params_get params k.
Proof. unfold params_get, params_set. apply firstValue_setValue. Qed.

Lemma params_get_cond_set (c : bool) params name value k :
  params_get (if c then params_set params name value else params) k
  = if c && str_eqb (toUSVString name) (toUSVString k)
    then Some (toUSVString value) else params_get params k.
Proof.
  destruct c; simpl; [apply params_get_set | reflexivity].
Qed.

Lemma params_get_corpusParams c k :
  str_eqb (toUSVString (lit "corpus")) (toUSVString k) = false ->
  params_get (corpusParams c) k = None.
Proof.
  intros Hk. unfold corpusParams.
  destruct c as [c|]; [destruct (isCustom c)|];
    rewrite ?params_get_set, ?Hk; reflexivity.
Qed.

(** ** Strings without lone surrogates *)

Lemma toUSVString_plain s :
  Forall (fun c => isHighSurrogate c = false /\ isLowSurrogate c = false) s ->
  toUSVString s = s.
Proof.
  induction 1 as [|c s [Hh Hl] _ IH]; [reflexivity|].
  cbn [toUSVString]. rewrite Hh, Hl, IH. reflexivity.
Qed.

Lemma truthy_toUSVString s : truthy (toUSVString s) = truthy s.
Proof.
  destruct s as [|c s]; [reflexivity|]. cbn [toUSVString].
  destruct (isHighSurrogate c).
  - destruct s as [|d s]; [reflexivity|].
    destruct (isLowSurrogate d); reflexivity.
  - destruct (isLowSurrogate c); reflexivity.
Qed.

Lemma digit_not_surrogate c :
  isDigitUnit c = true ->
  isHighSurrogate c = false /\ isLowSurrogate c = false.
Proof.
  unfold isDigitUnit, isHighSurrogate, isLowSurrogate. intros Hc.
  apply andb_true_iff in Hc as [H1 H2]. apply N.leb_le in H1, H2.
  split; apply andb_false_iff; left; apply N.leb_gt; lia.
Qed.

Lemma toUSVString_digits ds :
  Forall (fun c => isDigitUnit c = true) ds -> toUSVString ds = ds.
Proof.
  intros H. apply toUSVString_plain.
  eapply Forall_impl; [|exact H]. intros c Hc. exact (digit_not_surrogate c Hc).
Qed.

(** [parseInt] reads back the decimal text of a positive safe integer,
    whatever follows it that is not a digit. *)
Lemma parseInt10_decimalDigits z rest :
  0 < z < 2 ^ 53 -> endsNumber rest ->
  parseInt10 (decimalDigits z ++ rest) = Some z
  /\ truthy (decimalDigits z ++ rest) = true
  /\ toUSVString (decimalDigits z) = decimalDigits z.
Proof.
  intros Hz Hrest.
  assert (Hsafe : isSafeInteger z = true)
    by (unfold isSafeInteger; apply Z.ltb_lt; lia).
  destruct z as [|p|p]; try lia.
  cbn [decimalDigits].
  pose proof (decimalValue_digitsOf (Pos.to_uint p) 0) as Hr.
  rewrite DecimalPos.Unsigned.of_to in Hr. cbn [Z.of_N Z.mul Z.add] in Hr.
  pose proof (digitsOf_digits (Pos.to_uint p)) as Hd.
  pose proof (digitsOf_nonnil _ (DecimalPos.Unsigned.to_uint_nonnil p)) as Hn.
  assert (Hall : decimalValue 0 (digitsOf (Pos.to_uint p) ++ rest) = Zpos p).
  { rewrite decimalValue_app by exact Hd. rewrite Hr.
    destruct rest as [|c rest']; [reflexivity|].
    cbn [decimalValue]. cbn [endsNumber] in Hrest. rewrite Hrest. reflexivity. }
  split; [|split; [|apply toUSVString_digits; exact Hd]].
  - destruct (digitsOf (Pos.to_uint p)) as [|c ds] eqn:E; [congruence|].
    inversion Hd as [|? ? Hc Hds]; subst.
    destruct (digit_not_space_or_sign c Hc) as (Hws & H45 & H43).
    unfold parseInt10, signedInteger. cbn [app skipWhiteSpace].
    rewrite Hws, H45, H43.
    unfold leadingInteger. rewrite Hc.
    cbn [app] in Hall. rewrite Hall. cbn [option_map].
    unfold numberFor. rewrite Hsafe. reflexivity.
  - destruct (digitsOf (Pos.to_uint p)); [congruence | reflexivity].
Qed.

(** Evaluates the comparisons of parameter names. *)
Ltac eval_names :=
  repeat match goal with
  | |- context [str_eqb (toUSVString (lit ?a)) (toUSVString (lit ?b))] =>
      let v := eval vm_compute in
                 (str_eqb (toUSVString (lit a)) (toUSVString (lit b))) in
      change (str_eqb (toUSVString (lit a)) (toUSVString (lit b))) with v
  end;
  rewrite ?andb_false_r, ?andb_true_r.

Section UrlFacts.
Context {F : NumberFormat}.

Lemma serializeState_asPartial state :
  serializeState (asPartial state)
  = let s := search state in
    let t := selectedNGramType state in
    let params := corpusParams (corpus state) in
    let params :=
      if truthy (typeName t) && negb (str_eqb (typeName t) (lit "bigrams"))
      then params_set params (lit "type") (typeName t) else params in
    let params :=
      if 0 <? limit s
      then params_set params (lit "limit") (numberToString (limit s))
      else params in
    let params :=
      if truthy (query s) then params_set params (lit "search") (query s)
      else params in
    let params :=
      if useRegex s then params_set params (lit "regex") (lit "true")
      else params in
    let params :=
      if negb (filterWhitespace (filters s))
      then params_set params (lit "whitespace") (lit "false")
      else params in
    let params :=
      if filterPunctuation (filters s)
      then params_set params (lit "punct") (lit "true")
      else params in
    if caseSensitive (filters s)
    then params_set params (lit "case") (lit "true")
    else params.
Proof.
  unfold serializeState, asPartial, corpusParams; cbn [p_corpus p_search
    p_selectedNGramType].
  destruct (corpus state) as [c|]; reflexivity.
Qed.

(** Looks a key up in the serialized form. *)
Ltac lookup_key :=
  rewrite serializeState_asPartial; cbn zeta;
  rewrite !params_get_cond_set;
  rewrite params_get_corpusParams by reflexivity;
  eval_names.

(** What the serialized form holds under each key. *)
Lemma serialized_type state :
  params_get (serializeState (asPartial state)) (lit "type")
  = if NGramType_eqb (selectedNGramType state) Bigrams then None
    else Some (typeName (selectedNGramType state)).
Proof. lookup_key. destruct (selectedNGramType state); reflexivity. Qed.

Lemma serialized_corpus state :
  params_get (serializeState (asPartial state)) (lit "corpus")
  = match corpus state with
    | Some c =>
        Some (if isCustom c then lit "custom" else toUSVString (name c))
    | None => None
    end.
Proof.
  rewrite serializeState_asPartial; cbn zeta.
  rewrite !params_get_cond_set. eval_names.
  unfold corpusParams.
  destruct (corpus state) as [c|]; [destruct (isCustom c)|];
    rewrite ?params_get_set; reflexivity.
Qed.

Lemma serialized_limit state :
  params_get (serializeState (asPartial state)) (lit "limit")
  = if 0 <? limit (search state)
    then Some (toUSVString (numberToString (limit (search state))))
    else None.
Proof. lookup_key. reflexivity. Qed.

Lemma serialized_search state :
  params_get (serializeState (asPartial state)) (lit "search")
  = if truthy (query (search state))
    then Some (toUSVString (query (search state))) else None.
Proof. lookup_key. reflexivity. Qed.

Lemma serialized_regex state :
  params_get (serializeState (asPartial state)) (lit "regex")
  = if useRegex (search state) then Some (lit "true") else None.
Proof. lookup_key. reflexivity. Qed.

Lemma serialized_whitespace state :
  params_get (serializeState (asPartial state)) (lit "whitespace")
  = if negb (filterWhitespace (filters (search state)))
    then Some (lit "false") else None.
Proof. lookup_key. reflexivity. Qed.

Lemma serialized_punct state :
  params_get (serializeState (asPartial state)) (lit "punct")
  = if filterPunctuation (filters (search state))
    then Some (lit "true") else None.
Proof. lookup_key. reflexivity. Qed.

Lemma serialized_case state :
  params_get (serializeState (asPartial state)) (lit "case")
  = if caseSensitive (filters (search state))
    then Some (lit "true") else None.
Proof. lookup_key. reflexivity. Qed.

(** What a page load restores of the search settings and the table type,
    for a limit that is below 2^53. *)
Lemma restored_fields (state : CorpusExplorerState) :
  limit (search state) < 2 ^ 53 ->
  search (restore state)
  = {| query := toUSVString (query (search state));
       useRegex := useRegex (search state);
       filters := filters (search state);
       limit := Z.max 0 (limit (search state)) |}
  /\ selectedNGramType (restore state)
     = if NGramType_eqb (selectedNGramType state) Skipgrams then Bigrams
       else selectedNGramType state.
Proof.
  intros Hsafe. unfold restore, applyURLState, deserializeState.
  cbn [p_search p_selectedNGramType search selectedNGramType].
  rewrite serialized_type, serialized_limit, serialized_search,
    serialized_regex, serialized_whitespace, serialized_punct,
    serialized_case.
  destruct state as [c [q r [fw fp cs] l] t].
  cbn [search selectedNGramType query useRegex filters limit
       filterWhitespace filterPunctuation caseSensitive] in *.
  split.
  - destruct (Z.ltb_spec 0 l) as [Hl|Hl].
    + destruct (parseInt10_decimalDigits l [] (conj Hl Hsafe) I)
        as (Hparse & Htruthy & Husv).
      rewrite app_nil_r in Hparse, Htruthy.
      assert (Hs : numberToString l = decimalDigits l).
      { unfold numberToString, isSafeInteger.
        rewrite (proj2 (Z.ltb_lt (Z.abs l) (2 ^ 53))) by lia. reflexivity. }
      rewrite Hs, Husv, Htruthy, Hparse, (proj2 (Z.ltb_lt 0 l) Hl).
      rewrite Z.max_r by lia.
      destruct q as [|q0 q]; destruct r, fw, fp, cs; reflexivity.
    + rewrite Z.max_l by lia.
      destruct q as [|q0 q]; destruct r, fw, fp, cs; reflexivity.
  - destruct t; reflexivity.
Qed.

(** The settings a page load takes from a URL that lacks a key. *)
Lemma absent_keys_give_defaults (params : URLSearchParams) :
  let restored := applyURLState initialState (deserializeState params) in
  (params_get params (lit "whitespace") = None ->
   filterWhitespace (filters (search restored)) = true)
  /\ (params_get params (lit "punct") = None ->
      filterPunctuation (filters (search restored)) = false)
  /\ (params_get params (lit "case") = None ->
      caseSensitive (filters (search restored)) = false)
  /\ (params_get params (lit "limit") = None ->
      limit (search restored) = 0).
Proof.
  cbn zeta. unfold applyURLState, deserializeState.
  cbn [p_search search].
  repeat split; intros H; rewrite H; cbn [isLiteral isSome orb];
    match goal with
    | |- context [if ?c then Some _ else None] => destruct c; reflexivity
    end.
Qed.

(** C6. For the four table types the selector offers (monograms, bigrams,
    trigrams and words), every FilterSettings, either regex flag, every
    query that is a well-formed string (no lone surrogate) and every limit
    that is an integer from 0 to below 2^53: deserializing the parameters
    the serializer writes for the state restores the same FilterSettings,
    query, regex flag, limit and table type. And whatever parameters a URL
    holds, a key that is absent gives the default: filterWhitespace=true,
    filterPunctuation=false, caseSensitive=false, limit=0. *)
Theorem selection_round_trip (state : CorpusExplorerState) :
  In (selectedNGramType state) validTypes ->
  0 <= limit (search state) < 2 ^ 53 ->
  toUSVString (query (search state)) = query (search state) ->
  search (restore state) = search state
  /\ selectedNGramType (restore state) = selectedNGramType state
  /\ (forall params : URLSearchParams,
        let restored := applyURLState initialState (deserializeState params) in
        (params_get params (lit "whitespace") = None ->
         filterWhitespace (filters (search restored)) = true)
        /\ (params_get params (lit "punct") = None ->
            filterPunctuation (filters (search restored)) = false)
        /\ (params_get params (lit "case") = None ->
            caseSensitive (filters (search restored)) = false)
        /\ (params_get params (lit "limit") = None ->
            limit (search restored) = 0)).
Proof.
  intros Htype [Hl0 Hl1] Hq.
  destruct (restored_fields state Hl1) as [Hs Ht].
  split; [|split].
  - rewrite Hs, Hq, Z.max_r by lia.
    destruct (search state); reflexivity.
  - rewrite Ht. destruct (selectedNGramType state); try reflexivity.
    cbn in Htype. intuition discriminate.
  - exact absent_keys_give_defaults.
Qed.

End UrlFacts.

Lemma selection_round_trip_witness :
  let state :=
    {| corpus := None;
       search := {| query := lit "th"; useRegex := true;
                    filters := {| filterWhitespace := false;
                                  filterPunctuation := true;
                                  caseSensitive := true |};
                    limit := 25 |};
       selectedNGramType := Words |} in
  search (restore (F := plainFormat) state) = search state
  /\ selectedNGramType (restore (F := plainFormat) state)
     = selectedNGramType state.
Proof.
  cbn zeta.
  match goal with
  | |- search (restore ?st) = _ /\ _ =>
      destruct (selection_round_trip (F := plainFormat) st) as (H1 & H2 & _)
  end.
  - cbn. auto.
  - cbn. lia.
  - reflexivity.
  - split; [exact H1 | exact H2].
Defined.

(** The trace of the table type skipgrams through the URL: it is written,
    the deserializer does not take it for a type, and the selection that
    is restored is the default. *)
Lemma skipgrams_written_and_dropped {F : NumberFormat}
  (c : option CorpusData) (s : SearchSettings) :
  let state := {| corpus := c; search := s; selectedNGramType := Skipgrams |} in
  params_get (serializeState (asPartial state)) (lit "type")
  = Some (lit "skipgrams")
  /\ p_selectedNGramType (deserializeState (serializeState (asPartial state)))
     = None
  /\ selectedNGramType (restore state) = Bigrams.
Proof.
  cbn zeta.
  pose proof (serialized_type
                {| corpus := c; search := s; selectedNGramType := Skipgrams |})
    as Ht.
  cbn [selectedNGramType NGramType_eqb typeName] in Ht.
  split; [exact Ht|].
  assert (Hd : p_selectedNGramType
                 (deserializeState
                    (serializeState
                       (asPartial {| corpus := c; search := s;
                                     selectedNGramType := Skipgrams |})))
               = None).
  { unfold deserializeState. cbn [p_selectedNGramType]. rewrite Ht.
    reflexivity. }
  split; [exact Hd|].
  unfold restore, applyURLState. cbn [selectedNGramType]. rewrite Hd.
  reflexivity.
Qed.

(** Where the round trip of the limit and of the query ends: an integer
    from 2^53 on is read back as the nearest binary64 value, a limit from
    1e21 on is written in exponent notation and read back up to the letter
    e, and a lone surrogate is written as U+FFFD. *)
Example parseInt10_rounds_to_binary64 :
  parseInt10 (lit "9007199254740993") = Some 9007199254740992
  /\ parseInt10 (lit "9007199254740992") = Some 9007199254740992
  /\ parseInt10 (lit "1e+21") = Some 1
  /\ parseInt10 (lit " -12px") = Some (-12)
  /\ parseInt10 (lit "px") = None.
Proof. vm_compute. repeat split. Qed.

Example large_limit_not_restored :
  let state :=
    {| corpus := None;
       search := {| query := []; useRegex := false;
                    filters := filters (search initialState);
                    limit := 10 ^ 21 |};
       selectedNGramType := Bigrams |} in
  params_get (serializeState (F := plainFormat) (asPartial state)) (lit "limit")
  = Some (lit "1e+21")
  /\ limit (search (restore (F := plainFormat) state)) = 1.
Proof. vm_compute. split; reflexivity. Qed.

Example lone_surrogate_not_restored :
  params_set [] (lit "search") [55357%N; 97%N]
  = [ (lit "search", [65533%N; 97%N]) ]
  /\ toUSVString [55357%N; 56832%N; 97%N] = [55357%N; 56832%N; 97%N].
Proof. vm_compute. split; reflexivity. Qed.

(** C6, as stated, fails: the round trip does not hold for all five table
    types. The state with the table type skipgrams and otherwise the
    initial settings is restored with the table type bigrams. *)
Theorem skipgrams_selection_not_restored :
  ~ (forall (F : NumberFormat) (state : CorpusExplorerState),
       0 <= limit (search state) < 2 ^ 53 ->
       toUSVString (query (search state)) = query (search state) ->
       search (restore state) = search state
       /\ selectedNGramType (restore state) = selectedNGramType state).
Proof.
  intros H.
  destruct (H plainFormat
              {| corpus := None; search := search initialState;
                 selectedNGramType := Skipgrams |})
    as [_ Ht].
  - cbn. lia.
  - reflexivity.
  - destruct (skipgrams_written_and_dropped (F := plainFormat) None
                (search initialState)) as (_ & _ & Hr).
    cbn zeta in Hr. rewrite Hr in Ht. discriminate Ht.
Qed.

(* ================================================================== *)
(** * Further properties of the scanner *)

Lemma keys_map_set_present m k v :
  In k (List.map fst m) -> List.map fst (map_set m k v) = List.map fst m.
Proof.
  induction m as [|[k' v'] m IH]; simpl; intros H; [contradiction|].
  destruct (str_eqb k' k) eqn:E; simpl.
  - reflexivity.
  - apply str_eqb_neq in E. destruct H as [H|H]; [congruence|].
    rewrite IH by exact H. reflexivity.
Qed.

Lemma map_set_distinct m k v : distinctKeys m -> distinctKeys (map_set m k v).
Proof.
  unfold distinctKeys. intros Hnd.
  destruct (in_dec (list_eq_dec N.eq_dec) k (List.map fst m)) as [Hin|Hout].
  - rewrite keys_map_set_present by exact Hin. exact Hnd.
  - rewrite (map_set_fresh m k v Hout), map_app. cbn [List.map fst].
    apply NoDup_app; [exact Hnd | repeat constructor; intros [] |].
    intros x Hx Hx'. destruct Hx' as [<-|[]]. contradiction.
Qed.

Lemma increment_distinct m k : distinctKeys m -> distinctKeys (increment m k).
Proof. apply map_set_distinct. Qed.

Lemma tally_snoc l k : tally (l ++ [k]) = increment (tally l) k.
Proof. unfold tally. rewrite fold_left_app. reflexivity. Qed.

Lemma fold_increment_distinct l m :
  distinctKeys m -> distinctKeys (fold_left increment l m).
Proof.
  revert m; induction l as [|k l IH]; intros m Hm; simpl; auto.
  apply IH, increment_distinct, Hm.
Qed.

Lemma fold_increment_positive l m :
  Forall (fun e => 1 <= snd e) m ->
  Forall (fun e => 1 <= snd e) (fold_left increment l m).
Proof.
  revert m; induction l as [|k l IH]; intros m Hm; simpl; auto.
  apply IH.
  assert (H : Forall (wellShaped (fun _ => True)) (increment m k)).
  { apply increment_wellShaped; auto.
    eapply Forall_impl; [|exact Hm]. intros e He; split; auto. }
  eapply Forall_impl; [|exact H]. intros e [_ He]; exact He.
Qed.

Lemma fold_increment_countOf l m k :
  countOf (fold_left increment l m) k = countOf m k + occurrences k l.
Proof.
  revert m; induction l as [|x l IH]; intros m; simpl.
  - unfold occurrences; simpl; lia.
  - rewrite IH, countOf_increment, occurrences_cons, (str_eqb_sym k x). lia.
Qed.

(** A table that counts the keys of a list holds for every key the number
    of its occurrences, and no key without one. *)
Lemma tally_get l k :
  map_get (tally l) k
  = (let n := occurrences k l in if n =? 0 then None else Some n).
Proof.
  pose proof (fold_increment_countOf l [] k) as H.
  fold (tally l) in H. unfold countOf in H.
  change (orZero (map_get [] k)) with 0 in H.
  rewrite orZero_id, Z.add_0_l in H.
  pose proof (fold_increment_positive l [] (Forall_nil _)) as Hp.
  fold (tally l) in Hp. cbn zeta.
  destruct (map_get (tally l) k) as [v|] eqn:E.
  - apply map_get_In in E. rewrite Forall_forall in Hp.
    specialize (Hp _ E); cbn [snd] in Hp.
    rewrite <- H. destruct (Z.eqb_spec v 0); [lia | reflexivity].
  - rewrite <- H. reflexivity.
Qed.

Lemma nth_error_bigramsOf text i :
  nth_error (bigramsOf text) i
  = match nth_error text i, nth_error text (S i) with
    | Some a, Some b => Some [a; b]
    | _, _ => None
    end.
Proof.
  revert i; induction text as [|a text IH]; intros i.
  - destruct i; reflexivity.
  - destruct text as [|b rest].
    + destruct i as [|[|i]]; reflexivity.
    + destruct i as [|i].
      * reflexivity.
      * change (bigramsOf (a :: b :: rest))
          with ([a; b] :: bigramsOf (b :: rest)).
        cbn [nth_error]. rewrite IH. reflexivity.
Qed.

Lemma nth_error_trigramsOf text i :
  nth_error (trigramsOf text) i
  = match nth_error text i, nth_error text (S i), nth_error text (S (S i)) with
    | Some a, Some b, Some c => Some [a; b; c]
    | _, _, _ => None
    end.
Proof.
  revert i; induction text as [|a text IH]; intros i.
  - destruct i; reflexivity.
  - destruct text as [|b [|c rest]].
    + destruct i as [|[|[|i]]]; reflexivity.
    + destruct i as [|[|[|i]]]; reflexivity.
    + destruct i as [|i].
      * reflexivity.
      * change (trigramsOf (a :: b :: c :: rest))
          with ([a; b; c] :: trigramsOf (b :: c :: rest)).
        cbn [nth_error]. rewrite IH. reflexivity.
Qed.

Lemma nth_error_skipgramsOf text i :
  nth_error (skipgramsOf text) i
  = match nth_error text i, nth_error text (S (S i)) with
    | Some a, Some c => Some [a; c]
    | _, _ => None
    end.
Proof.
  revert i; induction text as [|a text IH]; intros i.
  - destruct i; reflexivity.
  - destruct text as [|b [|c rest]].
    + destruct i as [|[|[|i]]]; reflexivity.
    + destruct i as [|[|[|i]]]; reflexivity.
    + destruct i as [|i].
      * reflexivity.
      * change (skipgramsOf (a :: b :: c :: rest))
          with ([a; c] :: skipgramsOf (b :: c :: rest)).
        cbn [nth_error]. rewrite IH. reflexivity.
Qed.

Lemma firstn_S_absent {A} (l : list A) n :
  nth_error l n = None -> firstn (S n) l = firstn n l.
Proof.
  intros H. apply nth_error_None in H.
  rewrite !firstn_all2 by lia. reflexivity.
Qed.

Lemma charAt_out_of_range (text : jsstring) i :
  (length text <= i)%nat -> nth_error text i = None.
Proof. intros H. apply nth_error_None. exact H. Qed.

(** After [n] iterations each n-gram table is the tally of the first [n]
    sequences of its kind. *)
Lemma scanLoop_tallies text n :
  (n <= length text)%nat ->
  let st := scanLoop text n in
  monogramCounts st = tally (firstn n (monogramsOf text))
  /\ bigramCounts st = tally (firstn n (bigramsOf text))
  /\ trigramCounts st = tally (firstn n (trigramsOf text))
  /\ skipgramCounts st = tally (firstn n (skipgramsOf text)).
Proof.
  induction n as [|n IH]; intros Hn; cbn zeta.
  - repeat split; reflexivity.
  - rewrite scanLoop_S.
    rewrite scanStep_monograms, scanStep_bigrams, scanStep_trigrams,
      scanStep_skipgrams.
    destruct IH as (Hm & Hb & Ht & Hs); [lia|].
    rewrite Hm, Hb, Ht, Hs.
    destruct (charAt_in_range text n) as (c0 & N0 & E0); [lia|].
    repeat split.
    + rewrite (firstn_snoc (monogramsOf text) n [c0]), tally_snoc, E0;
        [reflexivity|].
      unfold monogramsOf. rewrite nth_error_map, N0. reflexivity.
    + destruct (Nat.ltb_spec (n + 1) (length text)) as [H1|H1].
      * destruct (charAt_in_range text (n + 1)) as (c1 & N1 & E1); [lia|].
        rewrite (firstn_snoc (bigramsOf text) n [c0; c1]), tally_snoc, E0, E1;
          [reflexivity|].
        rewrite nth_error_bigramsOf, N0. replace (S n) with (n + 1)%nat by lia.
        rewrite N1. reflexivity.
      * rewrite firstn_S_absent; [reflexivity|].
        rewrite nth_error_bigramsOf, N0.
        rewrite (charAt_out_of_range text (S n)) by lia. reflexivity.
    + destruct (Nat.ltb_spec (n + 2) (length text)) as [H2|H2].
      * destruct (charAt_in_range text (n + 1)) as (c1 & N1 & E1); [lia|].
        destruct (charAt_in_range text (n + 2)) as (c2 & N2 & E2); [lia|].
        rewrite (firstn_snoc (trigramsOf text) n [c0; c1; c2]), tally_snoc,
          E0, E1, E2; [reflexivity|].
        rewrite nth_error_trigramsOf, N0.
        replace (S n) with (n + 1)%nat by lia. rewrite N1.
        replace (S (n + 1)) with (n + 2)%nat by lia. rewrite N2. reflexivity.
      * rewrite firstn_S_absent; [reflexivity|].
        rewrite nth_error_trigramsOf, N0.
        rewrite (charAt_out_of_range text (S (S n))) by lia.
        destruct (nth_error text (S n)); reflexivity.
    + destruct (Nat.ltb_spec (n + 2) (length text)) as [H2|H2].
      * destruct (charAt_in_range text (n + 2)) as (c2 & N2 & E2); [lia|].
        rewrite (firstn_snoc (skipgramsOf text) n [c0; c2]), tally_snoc,
          E0, E2; [reflexivity|].
        rewrite nth_error_skipgramsOf, N0.
        replace (S (S n)) with (n + 2)%nat by lia. rewrite N2. reflexivity.
      * rewrite firstn_S_absent; [reflexivity|].
        rewrite nth_error_skipgramsOf, N0.
        rewrite (charAt_out_of_range text (S (S n))) by lia. reflexivity.
Qed.

Lemma windows_length text :
  (length (monogramsOf text) <= length text)%nat
  /\ (length (bigramsOf text) <= length text)%nat
  /\ (length (trigramsOf text) <= length text)%nat
  /\ (length (skipgramsOf text) <= length text)%nat.
Proof.
  repeat split.
  - unfold monogramsOf. rewrite length_map. lia.
  - induction text as [|a [|b rest] IH]; simpl in *; lia.
  - induction text as [|a [|b [|c rest]] IH]; simpl in *; lia.
  - induction text as [|a [|b [|c rest]] IH]; simpl in *; lia.
Qed.

(** The four n-gram tables as tallies of the sequences of the text. *)
Lemma calculateNGrams_tallies text :
  let raw := calculateNGrams text in
  monograms raw = tally (monogramsOf text)
  /\ bigrams raw = tally (bigramsOf text)
  /\ trigrams raw = tally (trigramsOf text)
  /\ skipgrams raw = tally (skipgramsOf text).
Proof.
  cbn zeta. unfold calculateNGrams; cbn [monograms bigrams trigrams skipgrams].
  destruct (scanLoop_tallies text (length text) (Nat.le_refl _))
    as (Hm & Hb & Ht & Hs).
  destruct (windows_length text) as (Lm & Lb & Lt & Ls).
  rewrite Hm, Hb, Ht, Hs, !firstn_all2 by assumption.
  repeat split; reflexivity.
Qed.

(** The word table as the tally of the tokens. *)
Lemma wordFold_tally s table cur :
  testWhitespace cur = false ->
  flushWord (fold_left wordStep s (table, cur))
  = fold_left increment (nonEmptyTokens (cur ++ s)) table.
Proof.
  revert table cur; induction s as [|c s IH]; intros table cur Hcur.
  - unfold nonEmptyTokens.
    rewrite (splitOnWhitespace_prefix cur [] Hcur); simpl.
    rewrite app_nil_r. destruct cur as [|x cur]; reflexivity.
  - cbn [fold_left].
    assert (Hstep : wordStep (table, cur) c
                    = if isWhiteSpaceUnit c then
                        if (0 <? length cur)%nat
                        then (increment table cur, []) else (table, cur)
                      else (table, cur ++ [c])) by reflexivity.
    rewrite Hstep; clear Hstep.
    destruct (isWhiteSpaceUnit c) eqn:Ec.
    + unfold nonEmptyTokens.
      rewrite (splitOnWhitespace_prefix cur (c :: s) Hcur).
      cbn [splitOnWhitespace]. rewrite Ec, app_nil_r.
      destruct cur as [|x cur]; cbn [length Nat.ltb Nat.leb filter nonEmpty
                                       str_eqb negb].
      * exact (IH table [] eq_refl).
      * etransitivity; [exact (IH (increment table (x :: cur)) [] eq_refl)|].
        reflexivity.
    + rewrite IH.
      * rewrite <- app_assoc. reflexivity.
      * unfold testWhitespace in *. rewrite existsb_app, Hcur; simpl.
        rewrite Ec; reflexivity.
Qed.

Lemma calculateNGrams_words_tally text :
  words (calculateNGrams text) = tally (nonEmptyTokens text).
Proof.
  rewrite calculateNGrams_words.
  exact (wordFold_tally text [] [] eq_refl).
Qed.

(** X1. For every text and every string k, the raw monogram, bigram,
    trigram and skipgram tables hold for k exactly the number of positions
    of the text at which k occurs as the unit, the pair of adjacent units,
    the triple of adjacent units, and the pair of units one apart: k is
    absent when it occurs nowhere and present with that number otherwise. *)
Theorem raw_tables_count_occurrences (text k : jsstring) :
  let raw := calculateNGrams text in
  let held (n : Z) := if n =? 0 then None else Some n in
  map_get (monograms raw) k = held (occurrences k (monogramsOf text))
  /\ map_get (bigrams raw) k = held (occurrences k (bigramsOf text))
  /\ map_get (trigrams raw) k = held (occurrences k (trigramsOf text))
  /\ map_get (skipgrams raw) k = held (occurrences k (skipgramsOf text)).
Proof.
  cbn zeta.
  destruct (calculateNGrams_tallies text) as (Hm & Hb & Ht & Hs).
  rewrite Hm, Hb, Ht, Hs, !tally_get. repeat split; reflexivity.
Qed.

(** X2. For every text, each of the five raw tables has pairwise distinct
    keys. *)
Theorem raw_tables_distinct_keys (text : jsstring) :
  let raw := calculateNGrams text in
  distinctKeys (monograms raw) /\ distinctKeys (bigrams raw)
  /\ distinctKeys (trigrams raw) /\ distinctKeys (skipgrams raw)
  /\ distinctKeys (words raw).
Proof.
  cbn zeta.
  destruct (calculateNGrams_tallies text) as (Hm & Hb & Ht & Hs).
  rewrite Hm, Hb, Ht, Hs, calculateNGrams_words_tally.
  repeat split; apply fold_increment_distinct; constructor.
Qed.

(* ================================================================== *)
(** * Further properties of the aggregator *)

Section AggregatorMore.
Context {B : Builtins}.

Lemma countOf_map_set_add m k f s :
  countOf (map_set m k (orZero (map_get m k) + f)) s
  = countOf m s + (if str_eqb k s then f else 0).
Proof.
  unfold countOf. rewrite map_get_set, !orZero_id.
  destruct (str_eqb k s) eqn:E.
  - apply str_eqb_eq in E; subst. lia.
  - lia.
Qed.

Lemma survives_passes filters e : survives filters e = passes filters (fst e).
Proof. reflexivity. Qed.

Lemma filter_fold_countOf filters counts acc s :
  countOf (map (fold_left (filterStep filters) counts acc)) s
  = countOf (map acc) s
    + sumCounts (filter (fun e => landsOn filters s (fst e)) counts).
Proof.
  revert acc; induction counts as [|e counts IH]; intros acc.
  - simpl. lia.
  - cbn [fold_left filter]. rewrite IH. unfold landsOn at 2.
    rewrite <- survives_passes.
    destruct (survives filters e) eqn:Es.
    + rewrite (filterStep_survives _ _ _ Es). cbn [map andb].
      rewrite countOf_map_set_add.
      destruct (str_eqb _ s); [rewrite sumCounts_cons|]; lia.
    + rewrite (filterStep_discards _ _ _ Es). cbn [andb]. lia.
Qed.

(** X3. For every table, every FilterSettings and every string s, the count
    the output map of the filter/re-aggregation step holds for s (0 when s
    is absent) is the sum of the counts of the input pairs whose key passes
    the whitespace and punctuation filters and is normalized to s. *)
Theorem reaggregation_sums_per_key (counts : JSMap) (filters : FilterSettings)
  (s : jsstring) :
  countOf (map (filterAndReaggregate counts filters)) s
  = sumCounts (filter (fun e => landsOn filters s (fst e)) counts).
Proof.
  unfold filterAndReaggregate, entries. rewrite filter_fold_countOf.
  reflexivity.
Qed.

Lemma filterStep_distinct filters acc e :
  distinctKeys (map acc) -> distinctKeys (map (filterStep filters acc e)).
Proof.
  intros H. destruct (survives filters e) eqn:Es.
  - rewrite (filterStep_survives _ _ _ Es). cbn [map].
    apply map_set_distinct, H.
  - rewrite (filterStep_discards _ _ _ Es). exact H.
Qed.

Lemma filter_fold_distinct filters counts acc :
  distinctKeys (map acc) ->
  distinctKeys (map (fold_left (filterStep filters) counts acc)).
Proof.
  revert acc; induction counts as [|e counts IH]; intros acc H; simpl; auto.
  apply IH, filterStep_distinct, H.
Qed.

Lemma filterStep_positive filters acc e :
  1 <= snd e ->
  Forall (fun p => 1 <= snd p) (map acc) ->
  Forall (fun p => 1 <= snd p) (map (filterStep filters acc e)).
Proof.
  intros He H. destruct (survives filters e) eqn:Es.
  - rewrite (filterStep_survives _ _ _ Es). cbn [map].
    apply map_set_Forall; auto. cbn [snd]. rewrite orZero_id.
    destruct (map_get (map acc) _) as [v|] eqn:E; [|lia].
    apply map_get_In in E. rewrite Forall_forall in H.
    specialize (H _ E); cbn [snd] in H. lia.
  - rewrite (filterStep_discards _ _ _ Es). exact H.
Qed.

Lemma filter_fold_positive filters counts acc :
  Forall (fun p => 1 <= snd p) counts ->
  Forall (fun p => 1 <= snd p) (map acc) ->
  Forall (fun p => 1 <= snd p) (map (fold_left (filterStep filters) counts acc)).
Proof.
  revert acc; induction counts as [|e counts IH]; intros acc Hc H; simpl; auto.
  inversion Hc; subst. apply IH; auto. apply filterStep_positive; auto.
Qed.

(** X4. For every table and every FilterSettings, the output map of the
    filter/re-aggregation step has pairwise distinct keys, and when every
    input count is at least 1 so is every output count. *)
Theorem reaggregation_keeps_map_shape (counts : JSMap)
  (filters : FilterSettings) :
  distinctKeys (map (filterAndReaggregate counts filters))
  /\ (Forall (fun p => 1 <= snd p) counts ->
      Forall (fun p => 1 <= snd p) (map (filterAndReaggregate counts filters))).
Proof.
  unfold filterAndReaggregate, entries. split.
  - apply filter_fold_distinct. constructor.
  - intros H. apply filter_fold_positive; [exact H | constructor].
Qed.

Lemma asPair_ranked i l :
  List.map asPair
    (mapi_from (fun '(sequence, frequency) index =>
                  {| sequence := sequence; frequency := frequency;
                     rank := index + 1 |}) i l)
  = l.
Proof.
  revert i; induction l as [|[k v] l IH]; intros i; simpl.
  - reflexivity.
  - rewrite IH. reflexivity.
Qed.

Lemma ranked_pairs countMap :
  List.map asPair (mapToRankedArray countMap)
  = sort compareEntries (map countMap).
Proof. unfold mapToRankedArray, mapi, entries. apply asPair_ranked. Qed.

Lemma ranked_perm countMap :
  Permutation (List.map asPair (mapToRankedArray countMap)) (map countMap).
Proof. rewrite ranked_pairs. apply sort_perm. Qed.

(** X5. For every table, the ranked array holds exactly the (key, count)
    pairs of the table, each once and none added: its list of (sequence,
    frequency) pairs is a permutation of the table's pairs, and it has as
    many entries as the table. *)
Theorem ranking_keeps_entries (countMap : CountMap) :
  Permutation (List.map asPair (mapToRankedArray countMap)) (map countMap)
  /\ length (mapToRankedArray countMap) = length (map countMap).
Proof.
  pose proof (ranked_perm countMap) as H.
  split; [exact H|].
  apply Permutation_length in H. rewrite length_map in H. exact H.
Qed.

Lemma sumCounts_filter_map_set (P : jsstring -> bool) m k f :
  sumCounts (filter (fun e => P (fst e)) (map_set m k (orZero (map_get m k) + f)))
  = sumCounts (filter (fun e => P (fst e)) m) + (if P k then f else 0).
Proof.
  induction m as [|[k' v'] m IH].
  - simpl. destruct (P k); simpl; lia.
  - cbn [map_set map_get]. destruct (str_eqb k' k) eqn:E.
    + apply str_eqb_eq in E; subst k'. cbn [filter fst].
      rewrite orZero_id.
      destruct (P k); rewrite ?sumCounts_cons; cbn [snd]; lia.
    + cbn [filter fst]. destruct (P k').
      * rewrite !sumCounts_cons, IH. lia.
      * exact IH.
Qed.

Lemma sumCounts_filter_tally (P : jsstring -> bool) l m :
  sumCounts (filter (fun e => P (fst e)) (fold_left increment l m))
  = sumCounts (filter (fun e => P (fst e)) m)
    + Z.of_nat (length (filter P l)).
Proof.
  revert m; induction l as [|k l IH]; intros m.
  - simpl. lia.
  - cbn [fold_left filter]. rewrite IH. unfold increment.
    rewrite sumCounts_filter_map_set.
    destruct (P k); cbn [length]; lia.
Qed.

Lemma total_of_tally filters l :
  total (filterAndReaggregate (tally l) filters)
  = Z.of_nat (length (filter (passes filters) l)).
Proof.
  destruct (filterAndReaggregate_totals (tally l) filters) as [_ H].
  rewrite H. unfold tally.
  rewrite (filter_ext (survives filters) (fun e => passes filters (fst e)))
    by (intros e; apply survives_passes).
  rewrite sumCounts_filter_tally. simpl. lia.
Qed.

(** X6. For every text and FilterSettings, each of the five totals returned
    by [calculateFilteredNGrams] is the number of occurrences in the text
    (units, adjacent pairs, adjacent triples, pairs one apart, words) that
    pass the whitespace and punctuation filters. *)
Theorem totals_count_passing_occurrences (text : jsstring)
  (filters : FilterSettings) :
  let t := totals (calculateFilteredNGrams text filters) in
  let passing l := Z.of_nat (length (filter (passes filters) l)) in
  t_monograms t = passing (monogramsOf text)
  /\ t_bigrams t = passing (bigramsOf text)
  /\ t_trigrams t = passing (trigramsOf text)
  /\ t_skipgrams t = passing (skipgramsOf text)
  /\ t_words t = passing (nonEmptyTokens text).
Proof.
  cbn zeta. unfold calculateFilteredNGrams.
  cbn [totals t_monograms t_bigrams t_trigrams t_skipgrams t_words].
  destruct (calculateNGrams_tallies text) as (Hm & Hb & Ht & Hs).
  rewrite Hm, Hb, Ht, Hs, calculateNGrams_words_tally, !total_of_tally.
  repeat split; reflexivity.
Qed.

Lemma map_get_of_In m k v :
  distinctKeys m -> In (k, v) m -> map_get m k = Some v.
Proof.
  unfold distinctKeys.
  induction m as [|[k' v'] m IH]; simpl; intros Hnd Hin; [contradiction|].
  inversion Hnd as [|? ? Hout Hnd']; subst.
  destruct Hin as [Hin|Hin].
  - injection Hin as -> ->. rewrite str_eqb_refl. reflexivity.
  - destruct (str_eqb k' k) eqn:E.
    + apply str_eqb_eq in E; subst. exfalso; apply Hout.
      apply in_map_iff. exists (k, v); auto.
    + auto.
Qed.

Lemma In_ranked_iff countMap e :
  In e (mapToRankedArray countMap) -> In (asPair e) (map countMap).
Proof.
  intros H. eapply Permutation_in; [apply ranked_perm|].
  apply in_map. exact H.
Qed.

Lemma In_table_ranked countMap k v :
  In (k, v) (map countMap) ->
  exists e, In e (mapToRankedArray countMap) /\ sequence e = k
            /\ frequency e = v.
Proof.
  intros H.
  assert (Hin : In (k, v) (List.map asPair (mapToRankedArray countMap)))
    by (eapply Permutation_in; [symmetry; apply ranked_perm | exact H]).
  apply in_map_iff in Hin as (e & He & Hin).
  exists e. unfold asPair in He. injection He as <- <-. auto.
Qed.

(** The ranked list made from the tally of a list of sequences accounts for
    the occurrences in that list. *)
Lemma tally_accountsFor filters l :
  accountsFor filters l
    (mapToRankedArray (filterAndReaggregate (tally l) filters)).
Proof.
  set (out := filterAndReaggregate (tally l) filters).
  assert (Hnd : distinctKeys (map out))
    by (apply filter_fold_distinct; constructor).
  assert (Hpos : Forall (fun p => 1 <= snd p) (map out)).
  { apply filter_fold_positive; [|constructor].
    apply fold_increment_positive. constructor. }
  assert (Hcount : forall s,
             countOf (map out) s
             = Z.of_nat (length (filter (landsOn filters s) l))).
  { intros s. unfold out, filterAndReaggregate, entries.
    rewrite filter_fold_countOf. unfold tally.
    rewrite (sumCounts_filter_tally (landsOn filters s)). simpl. lia. }
  repeat split.
  - apply In_ranked_iff in H. rewrite Forall_forall in Hpos.
    exact (Hpos _ H).
  - apply In_ranked_iff in H.
    rewrite <- Hcount. unfold countOf.
    rewrite (map_get_of_In _ _ _ Hnd H), orZero_id. reflexivity.
  - intros w Hw Hpass.
    set (s := normalizeSequence w (caseSensitive filters)).
    assert (Hge : 1 <= countOf (map out) s).
    { rewrite Hcount.
      assert (Hin : In w (filter (landsOn filters s) l)).
      { apply filter_In. split; auto. unfold landsOn.
        rewrite Hpass. apply str_eqb_refl. }
      destruct (filter (landsOn filters s) l); [contradiction|].
      cbn [length]. lia. }
    unfold countOf in Hge. rewrite orZero_id in Hge.
    destruct (map_get (map out) s) as [v|] eqn:E; [|lia].
    apply map_get_In in E.
    destruct (In_table_ranked out s v E) as (e & He & Hs & _).
    exists e. auto.
  - assert (Hk : List.map sequence (mapToRankedArray out)
                 = List.map fst (List.map asPair (mapToRankedArray out))).
    { rewrite List.map_map. reflexivity. }
    rewrite Hk.
    eapply Permutation_NoDup; [|exact Hnd].
    apply Permutation_map. symmetry. apply ranked_perm.
Qed.

(** X7. For every text and FilterSettings, each of the five ranked lists
    returned by [calculateFilteredNGrams] accounts for the occurrences of
    its kind in the text: the frequency of an entry is the number of
    occurrences that pass the filters and are normalized to the entry's
    sequence, and is at least 1; every occurrence that passes the filters
    has an entry for its normalized sequence; and no sequence has two
    entries. *)
Theorem ranked_lists_account_for_text (text : jsstring)
  (filters : FilterSettings) :
  let r := calculateFilteredNGrams text filters in
  accountsFor filters (monogramsOf text) (r_monograms r)
  /\ accountsFor filters (bigramsOf text) (r_bigrams r)
  /\ accountsFor filters (trigramsOf text) (r_trigrams r)
  /\ accountsFor filters (skipgramsOf text) (r_skipgrams r)
  /\ accountsFor filters (nonEmptyTokens text) (r_words r).
Proof.
  cbn zeta. unfold calculateFilteredNGrams.
  cbn [r_monograms r_bigrams r_trigrams r_skipgrams r_words].
  destruct (calculateNGrams_tallies text) as (Hm & Hb & Ht & Hs).
  rewrite Hm, Hb, Ht, Hs, calculateNGrams_words_tally.
  split; [|split; [|split; [|split]]]; apply tally_accountsFor.
Qed.

End AggregatorMore.

Section AggregatorCompositions.
Context {B : Builtins}.

Lemma fold_filterStep_ext filters filters' counts acc :
  (forall e a, In e counts -> filterStep filters a e = filterStep filters' a e) ->
  fold_left (filterStep filters) counts acc
  = fold_left (filterStep filters') counts acc.
Proof.
  revert acc; induction counts as [|e counts IH]; intros acc H; simpl; auto.
  rewrite H by (left; reflexivity). apply IH.
  intros e' a Hin; apply H; right; exact Hin.
Qed.

Lemma words_ignore_whitespace_filter text fp cs :
  filterAndReaggregate (words (calculateNGrams text))
    {| filterWhitespace := true; filterPunctuation := fp;
       caseSensitive := cs |}
  = filterAndReaggregate (words (calculateNGrams text))
      {| filterWhitespace := false; filterPunctuation := fp;
         caseSensitive := cs |}.
Proof.
  unfold filterAndReaggregate, entries. apply fold_filterStep_ext.
  intros [k v] a Hin.
  pose proof (words_shape text) as Hs. rewrite Forall_forall in Hs.
  destruct (Hs _ Hin) as [[_ Hws] _]. cbn [fst] in Hws.
  unfold filterStep. cbn [filterWhitespace filterPunctuation caseSensitive].
  unfold containsWhitespace. rewrite Hws. reflexivity.
Qed.

(** X8. For every text, the whitespace filter takes nothing from the word
    table: with filterWhitespace on or off (and the other two settings the
    same) [calculateFilteredNGrams] returns the same ranked word list and
    the same word total. *)
Theorem whitespace_filter_keeps_words (text : jsstring) (fp cs : bool) :
  let on := calculateFilteredNGrams text
              {| filterWhitespace := true; filterPunctuation := fp;
                 caseSensitive := cs |} in
  let off := calculateFilteredNGrams text
               {| filterWhitespace := false; filterPunctuation := fp;
                  caseSensitive := cs |} in
  r_words on = r_words off /\ t_words (totals on) = t_words (totals off).
Proof.
  cbn zeta. unfold calculateFilteredNGrams.
  cbn [r_words totals t_words].
  rewrite words_ignore_whitespace_filter. split; reflexivity.
Qed.

Lemma sumCounts_fold_increment l m :
  sumCounts (fold_left increment l m) = sumCounts m + Z.of_nat (length l).
Proof.
  revert m; induction l as [|k l IH]; intros m.
  - simpl. lia.
  - cbn [fold_left length]. rewrite IH, sumCounts_increment. lia.
Qed.

Lemma unfiltered_tally l :
  filterAndReaggregate (tally l)
    {| filterWhitespace := false; filterPunctuation := false;
       caseSensitive := true |}
  = {| map := tally l; total := Z.of_nat (length l) |}.
Proof.
  unfold filterAndReaggregate, entries.
  rewrite identity_fold; auto.
  - cbn [app]. f_equal. unfold tally.
    rewrite sumCounts_fold_increment. simpl. lia.
  - cbn [app]. apply fold_increment_distinct. constructor.
Qed.

Lemma windows_exact_length (text : jsstring) :
  length (monogramsOf text) = length text
  /\ length (bigramsOf text) = (length text - 1)%nat
  /\ length (trigramsOf text) = (length text - 2)%nat
  /\ length (skipgramsOf text) = (length text - 2)%nat.
Proof.
  repeat split.
  - unfold monogramsOf. apply length_map.
  - induction text as [|a [|b rest] IH]; simpl in *; lia.
  - induction text as [|a [|b [|c rest]] IH]; simpl in *; lia.
  - induction text as [|a [|b [|c rest]] IH]; simpl in *; lia.
Qed.

(** X9. For every text, with filterWhitespace=false,
    filterPunctuation=false and caseSensitive=true the filter step returns
    each of the scanner's five tables unchanged, with the totals
    length(text), length(text) - 1, length(text) - 2, length(text) - 2
    (subtraction stopping at 0) and the number of words. *)
Theorem unfiltered_scan_is_kept (text : jsstring) :
  let off := {| filterWhitespace := false; filterPunctuation := false;
                caseSensitive := true |} in
  let raw := calculateNGrams text in
  filterAndReaggregate (monograms raw) off
  = {| map := monograms raw; total := Z.of_nat (length text) |}
  /\ filterAndReaggregate (bigrams raw) off
     = {| map := bigrams raw; total := Z.of_nat (length text - 1) |}
  /\ filterAndReaggregate (trigrams raw) off
     = {| map := trigrams raw; total := Z.of_nat (length text - 2) |}
  /\ filterAndReaggregate (skipgrams raw) off
     = {| map := skipgrams raw; total := Z.of_nat (length text - 2) |}
  /\ filterAndReaggregate (words raw) off
     = {| map := words raw;
          total := Z.of_nat (length (nonEmptyTokens text)) |}.
Proof.
  cbn zeta.
  destruct (calculateNGrams_tallies text) as (Hm & Hb & Ht & Hs).
  destruct (windows_exact_length text) as (Lm & Lb & Lt & Ls).
  rewrite Hm, Hb, Ht, Hs, calculateNGrams_words_tally, !unfiltered_tally.
  rewrite Lm, Lb, Lt, Ls. repeat split; reflexivity.
Qed.

End AggregatorCompositions.

Section Stability.
Context {B : Builtins} {CC : ConsistentComparator B}.

Lemma compareEntries_zero a b :
  compareEntries a b = 0 -> precedes a b /\ precedes b a.
Proof.
  intros H. split; [unfold precedes; lia|].
  apply precedes_iff.
  assert (Hp : precedes a b) by (unfold precedes; lia).
  apply precedes_iff in Hp.
  unfold compareEntries in H.
  destruct (Z.eqb_spec (snd b) (snd a)) as [E|E]; cbn [negb] in H; [|lia].
  right. split; [lia|].
  destruct (Z.lt_trichotomy (localeCompare (fst b) (fst a)) 0)
    as [Hlt|[Heq|Hgt]]; try lia.
  assert (Hc : localeCompare (fst a) (fst b) < 0) by (apply lc_flip; lia).
  lia.
Qed.

Lemma ties_exclude x y z :
  ties x y = true -> 0 < compareEntries y z -> ties x z = false.
Proof.
  unfold ties. intros Hxy Hyz.
  apply Z.eqb_eq in Hxy. apply Z.eqb_neq. intros Hxz.
  destruct (compareEntries_zero _ _ Hxy) as [_ Hyx].
  destruct (compareEntries_zero _ _ Hxz) as [Hxz' _].
  pose proof (precedes_trans _ _ _ Hyx Hxz') as H.
  unfold precedes in H. lia.
Qed.

Lemma insert_ties x y l :
  filter (ties x) (insert compareEntries y l)
  = if ties x y then y :: filter (ties x) l else filter (ties x) l.
Proof.
  induction l as [|z l IH].
  - simpl. destruct (ties x y); reflexivity.
  - cbn [insert]. destruct (Z.leb_spec (compareEntries y z) 0) as [Hle|Hgt].
    + cbn [filter]. destruct (ties x y); reflexivity.
    + cbn [filter]. rewrite IH.
      destruct (ties x y) eqn:Exy.
      * rewrite (ties_exclude x y z Exy Hgt). reflexivity.
      * reflexivity.
Qed.

Lemma sort_ties x l :
  filter (ties x) (sort compareEntries l) = filter (ties x) l.
Proof.
  induction l as [|y l IH]; [reflexivity|].
  cbn [sort filter]. rewrite insert_ties, IH.
  destruct (ties x y); reflexivity.
Qed.

(** X10. The ranking is stable: for every table and every pair x, the
    entries of the ranked array that tie with x (same count, and a key that
    [localeCompare] reports as equal) stand in the order they have in the
    table. *)
Theorem ranking_is_stable (countMap : CountMap) (x : jsstring * Z) :
  filter (ties x) (List.map asPair (mapToRankedArray countMap))
  = filter (ties x) (map countMap).
Proof. rewrite ranked_pairs. apply sort_ties. Qed.

End Stability.

Lemma ranking_is_stable_witness :
  filter (ties (B := collationBuiltins) ([233%N], 1))
    (List.map asPair
       (mapToRankedArray (B := collationBuiltins)
          {| map := [ ([101%N; 769%N], 1); (lit "z", 1); ([233%N], 1) ];
             total := 3 |}))
  = filter (ties (B := collationBuiltins) ([233%N], 1))
      [ ([101%N; 769%N], 1); (lit "z", 1); ([233%N], 1) ].
Proof.
  exact (ranking_is_stable (B := collationBuiltins)
           (CC := collation_consistent)
           {| map := [ ([101%N; 769%N], 1); (lit "z", 1); ([233%N], 1) ];
              total := 3 |} ([233%N], 1)).
Defined.

(* ================================================================== *)
(** * The data behind the table *)

Lemma fold_left_sum l a :
  fold_left (fun sum ngram => sum + frequency ngram) l a = a + sumFrequency l.
Proof.
  revert a; induction l as [|e l IH]; intros a; simpl.
  - lia.
  - rewrite IH. unfold sumFrequency. lia.
Qed.

Lemma sumOfCounts_sumFrequency l : sumOfCounts l = sumFrequency l.
Proof. unfold sumOfCounts. rewrite fold_left_sum. lia. Qed.

Lemma sumFrequency_cons e l :
  sumFrequency (e :: l) = frequency e + sumFrequency l.
Proof. reflexivity. Qed.

Lemma nth_error_rerank l i :
  nth_error (rerank l) i
  = option_map (fun e => {| sequence := sequence e; frequency := frequency e;
                            rank := Z.of_nat i + 1 |}) (nth_error l i).
Proof.
  unfold rerank, mapi. rewrite nth_error_mapi_from.
  destruct (nth_error l i); reflexivity.
Qed.

Lemma asPair_mapi_from l i :
  List.map asPair
    (mapi_from (fun ngram index =>
                  {| sequence := sequence ngram; frequency := frequency ngram;
                     rank := index + 1 |}) i l)
  = List.map asPair l.
Proof.
  revert i; induction l as [|e l IH]; intros i; simpl; [reflexivity|].
  rewrite IH. reflexivity.
Qed.

Lemma asPair_rerank l : List.map asPair (rerank l) = List.map asPair l.
Proof. apply asPair_mapi_from. Qed.

Lemma sumFrequency_asPair l :
  sumFrequency l = sumCounts (List.map asPair l).
Proof.
  induction l as [|e l IH]; [reflexivity|].
  cbn [List.map]. rewrite sumFrequency_cons, sumCounts_cons, IH. reflexivity.
Qed.

Lemma filter_asPair (p : jsstring -> bool) l :
  List.map asPair (filter (fun ngram => p (sequence ngram)) l)
  = filter (fun e => p (fst e)) (List.map asPair l).
Proof.
  induction l as [|e l IH]; [reflexivity|].
  cbn [filter List.map asPair fst]. destruct (p (sequence e)); cbn [List.map];
    rewrite IH; reflexivity.
Qed.

Lemma sumCounts_filter_le (p : jsstring * Z -> bool) l :
  Forall (fun e => 0 <= snd e) l -> sumCounts (filter p l) <= sumCounts l.
Proof.
  induction 1 as [|e l He Hl IH]; simpl; [lia|].
  destruct (p e); rewrite ?sumCounts_cons; unfold sumCounts in *; simpl; lia.
Qed.

Lemma sumCounts_nonneg l :
  Forall (fun e => 0 <= snd e) l -> 0 <= sumCounts l.
Proof.
  induction 1 as [|e l He Hl IH]; unfold sumCounts in *; simpl; lia.
Qed.

Lemma sumCounts_firstn_le n l :
  Forall (fun e => 0 <= snd e) l -> sumCounts (firstn n l) <= sumCounts l.
Proof.
  intros H; revert n; induction H as [|e l He Hl IH]; intros [|n]; simpl;
    try lia.
  - unfold sumCounts; simpl.
    pose proof (sumCounts_nonneg l Hl) as Hn. unfold sumCounts in Hn. lia.
  - specialize (IH n). unfold sumCounts in *; simpl. lia.
Qed.

Lemma Forall_prefix {A} (P : A -> Prop) n (l : list A) :
  Forall P l -> Forall P (firstn n l).
Proof.
  intros H. rewrite <- (firstn_skipn n l) in H.
  apply Forall_app in H as [H _]. exact H.
Qed.

Lemma rank_of_rerank l i e :
  nth_error (rerank l) i = Some e -> rank e = Z.of_nat i + 1.
Proof.
  rewrite nth_error_rerank. destruct (nth_error l i); simpl; [|discriminate].
  intros [= <-]. reflexivity.
Qed.

Lemma nth_error_firstn_Some {A} n (l : list A) i e :
  nth_error (firstn n l) i = Some e -> nth_error l i = Some e.
Proof.
  rewrite nth_error_firstn.
  destruct (Nat.ltb_spec i n); [auto | discriminate].
Qed.

Section DisplayFacts.
Context {M : Matcher}.

(** The pairs shown: the matching pairs when a query is set, cut to the
    limit when one is set. *)
Lemma shown_pairs data settings :
  List.map asPair (applyLimit (applySearch data settings) settings)
  = (let matching :=
       if truthy (query settings)
       then filter (fun e => matchesSearch (fst e) settings)
              (List.map asPair data)
       else List.map asPair data in
     if 0 <? limit settings then firstn (Z.to_nat (limit settings)) matching
     else matching).
Proof.
  cbn zeta. unfold applyLimit, applySearch, sliceTo.
  destruct (0 <? limit settings); destruct (truthy (query settings));
    rewrite <- ?firstn_map, ?asPair_rerank;
    rewrite ?(filter_asPair (fun k => matchesSearch k settings));
    reflexivity.
Qed.

Lemma shown_ranks data settings i e :
  truthy (query settings) = true ->
  nth_error (applyLimit (applySearch data settings) settings) i = Some e ->
  rank e = Z.of_nat i + 1.
Proof.
  intros Hq. unfold applyLimit, applySearch, sliceTo. rewrite Hq.
  destruct (0 <? limit settings); intros H.
  - apply nth_error_firstn_Some in H. exact (rank_of_rerank _ _ _ H).
  - exact (rank_of_rerank _ _ _ H).
Qed.

Lemma shown_prefix data settings i e :
  truthy (query settings) = false ->
  nth_error (applyLimit (applySearch data settings) settings) i = Some e ->
  nth_error data i = Some e.
Proof.
  intros Hq. unfold applyLimit, applySearch, sliceTo. rewrite Hq.
  destruct (0 <? limit settings); [|auto].
  apply nth_error_firstn_Some.
Qed.

Lemma shown_count_bounds data (settings : option SearchSettings) :
  Forall (fun e => 0 <= frequency e) data ->
  let rows := match settings with
              | Some s => applyLimit (applySearch data s) s
              | None => data
              end in
  0 <= sumOfCounts rows /\ sumOfCounts rows <= sumOfCounts data.
Proof.
  intros Hpos. cbn zeta.
  rewrite !sumOfCounts_sumFrequency, !sumFrequency_asPair.
  assert (Hp : Forall (fun e => 0 <= snd e) (List.map asPair data)).
  { apply Forall_forall. intros p Hin. apply in_map_iff in Hin as (e & <- & He).
    rewrite Forall_forall in Hpos. exact (Hpos _ He). }
  destruct settings as [s|].
  - rewrite shown_pairs. cbn zeta.
    set (matching := if truthy (query s)
                     then filter (fun e => matchesSearch (fst e) s)
                            (List.map asPair data)
                     else List.map asPair data).
    assert (Hm : Forall (fun e => 0 <= snd e) matching
                 /\ sumCounts matching <= sumCounts (List.map asPair data)).
    { unfold matching. destruct (truthy (query s)).
      - split; [|apply sumCounts_filter_le; exact Hp].
        apply Forall_forall. intros p Hin. apply filter_In in Hin as [Hin _].
        rewrite Forall_forall in Hp. exact (Hp _ Hin).
      - split; [exact Hp | lia]. }
    destruct Hm as [Hm1 Hm2].
    destruct (0 <? limit s).
    + pose proof (sumCounts_firstn_le (Z.to_nat (limit s)) matching Hm1).
      assert (Hf : Forall (fun e => 0 <= snd e)
                     (firstn (Z.to_nat (limit s)) matching))
        by (apply Forall_prefix; exact Hm1).
      pose proof (sumCounts_nonneg _ Hf). lia.
    + pose proof (sumCounts_nonneg _ Hm1). lia.
  - pose proof (sumCounts_nonneg _ Hp). lia.
Qed.

(** X11. For every analysis result whose list for the selected type is
    present, and every search settings, [createAnalysisDisplay] shows a
    table whose rows are, pair for pair and in order, the entries of that
    list that match the search when the query is not empty (all entries
    otherwise), cut to the first [limit] of them when the limit is
    positive; with a non-empty query the rank of the row at index i is
    i + 1; with a positive limit there are at most [limit] rows; and the
    total is the one of the analysis result, and the count before the
    search is the sum of the frequencies of the whole list. *)
Theorem display_rows (results : AnalysisResults) (selectedType : NGramType)
  (settings : SearchSettings) (data : list NGramData) :
  dataOf results selectedType = Some data ->
  exists shown,
    createAnalysisDisplay (Some results) selectedType (Some settings)
    = Some (Table shown)
    /\ List.map asPair (shownRows shown)
       = (let matching :=
            if truthy (query settings)
            then filter (fun e => matchesSearch (fst e) settings)
                   (List.map asPair data)
            else List.map asPair data in
          if 0 <? limit settings
          then firstn (Z.to_nat (limit settings)) matching
          else matching)
    /\ (truthy (query settings) = true ->
        forall i e, nth_error (shownRows shown) i = Some e ->
                    rank e = Z.of_nat i + 1)
    /\ (truthy (query settings) = false ->
        forall i e, nth_error (shownRows shown) i = Some e ->
                    nth_error data i = Some e)
    /\ (0 < limit settings ->
        Z.of_nat (length (shownRows shown)) <= limit settings)
    /\ shownTotal shown = totalOf (a_totals results) selectedType
    /\ preFilterCount shown = sumFrequency data.
Proof.
  intros Hdata. unfold createAnalysisDisplay. rewrite Hdata.
  eexists. split; [reflexivity|]. cbn [shownRows shownTotal preFilterCount].
  split; [apply shown_pairs|].
  split; [|split; [|split; [|split]]].
  - intros Hq i e. apply shown_ranks; exact Hq.
  - intros Hq i e. apply shown_prefix; exact Hq.
  - intros Hl. unfold applyLimit, sliceTo.
    rewrite (proj2 (Z.ltb_lt 0 (limit settings)) Hl).
    rewrite length_firstn. lia.
  - reflexivity.
  - apply sumOfCounts_sumFrequency.
Qed.

(** X12. When no frequency of the list is negative, the count displayed
    after search and limit is at most the count before them, and neither is
    negative. *)
Theorem displayed_count_bounded (results : AnalysisResults)
  (selectedType : NGramType) (settings : option SearchSettings)
  (data : list NGramData) (shown : Shown) :
  dataOf results selectedType = Some data ->
  Forall (fun e => 0 <= frequency e) data ->
  createAnalysisDisplay (Some results) selectedType settings
  = Some (Table shown) ->
  0 <= displayedCount shown /\ displayedCount shown <= preFilterCount shown.
Proof.
  intros Hdata Hpos. unfold createAnalysisDisplay. rewrite Hdata.
  intros [= <-]. cbn [displayedCount preFilterCount].
  pose proof (shown_count_bounds data settings Hpos) as H.
  destruct settings; exact H.
Qed.

End DisplayFacts.

(* ================================================================== *)
(** * Analysis, display and export together *)

Section SessionFacts.
Context {B : Builtins} {M : Matcher} {F : NumberFormat}.

(** What holds of every ranked list the analysis stores. *)
Lemma core_list_facts l filters :
  let ranked := mapToRankedArray (filterAndReaggregate (tally l) filters) in
  sumFrequency ranked = total (filterAndReaggregate (tally l) filters)
  /\ (forall i e, nth_error ranked i = Some e -> rank e = Z.of_nat i + 1)
  /\ Forall (fun e => 0 <= frequency e) ranked.
Proof.
  cbn zeta. split; [|split].
  - apply ranked_total.
  - intros i e H. destruct (ranked_nth _ _ _ H) as (p & _ & _ & _ & Hr).
    exact Hr.
  - apply Forall_forall. intros e He.
    destruct (tally_accountsFor filters l) as (H & _ & _).
    destruct (H e He) as [H1 _]. lia.
Qed.

Lemma shown_of_core_list results selectedType settings data :
  dataOf results selectedType = Some data ->
  sumFrequency data = totalOf (a_totals results) selectedType ->
  (forall i e, nth_error data i = Some e -> rank e = Z.of_nat i + 1) ->
  Forall (fun e => 0 <= frequency e) data ->
  exists shown,
    createAnalysisDisplay (Some results) selectedType settings
    = Some (Table shown)
    /\ preFilterCount shown = shownTotal shown
    /\ displayedCount shown <= preFilterCount shown
    /\ (forall i e, nth_error (shownRows shown) i = Some e ->
                    rank e = Z.of_nat i + 1).
Proof.
  intros Hdata Hsum Hrank Hpos.
  pose proof (shown_count_bounds data settings Hpos) as [_ Hle].
  unfold createAnalysisDisplay. rewrite Hdata.
  eexists. split; [reflexivity|].
  cbn [preFilterCount shownTotal displayedCount shownRows].
  rewrite sumOfCounts_sumFrequency at 1. split; [exact Hsum|].
  destruct settings as [s|].
  - split; [exact Hle|].
    intros i e H. destruct (truthy (query s)) eqn:E.
    + exact (shown_ranks _ _ _ _ E H).
    + apply Hrank. exact (shown_prefix _ _ _ _ E H).
  - split; [exact Hle | exact Hrank].
Qed.

(** X13. After [performAnalysis] on a session with a corpus loaded and the
    analysis section created, for each of the types monograms, bigrams,
    trigrams and words and for any search settings (or none),
    [createAnalysisDisplay] shows a table in which the count before search
    and limit equals the total of the analysis, the displayed count is at
    most that, and the row at index i has rank i + 1. *)
Theorem display_after_analysis (s : Session) (c : CorpusData)
  (selectedType : NGramType) (settings : option SearchSettings) :
  corpus (currentState s) = Some c ->
  analysisSection s = true ->
  selectedType <> Skipgrams ->
  exists shown,
    createAnalysisDisplay (analysis (performAnalysis s)) selectedType settings
    = Some (Table shown)
    /\ preFilterCount shown = shownTotal shown
    /\ displayedCount shown <= preFilterCount shown
    /\ (forall i e, nth_error (shownRows shown) i = Some e ->
                    rank e = Z.of_nat i + 1).
Proof.
  intros Hc Hs Ht. unfold performAnalysis. rewrite Hc, Hs. cbn [negb analysis].
  destruct (calculateNGrams_tallies (text c)) as (Hm & Hb & Htr & Hsk).
  pose proof (calculateNGrams_words_tally (text c)) as Hw.
  destruct selectedType; try congruence;
    (eapply shown_of_core_list;
     [ reflexivity
     | cbn [a_totals totalOf]; unfold calculateFilteredNGrams;
       cbn [r_monograms r_bigrams r_trigrams r_words totals
            t_monograms t_bigrams t_trigrams t_words];
       rewrite ?Hm, ?Hb, ?Htr, ?Hw; apply core_list_facts
     | unfold calculateFilteredNGrams;
       cbn [r_monograms r_bigrams r_trigrams r_words];
       rewrite ?Hm, ?Hb, ?Htr, ?Hw; apply core_list_facts
     | unfold calculateFilteredNGrams;
       cbn [r_monograms r_bigrams r_trigrams r_words];
       rewrite ?Hm, ?Hb, ?Htr, ?Hw; apply core_list_facts ]).
Qed.

(** X14. [performAnalysis] stores no skipgram list: after it, on a session
    with a corpus loaded and the analysis section created, showing the type
    skipgrams and exporting it both end in a TypeError, whatever the
    search settings. *)
Theorem skipgrams_cannot_be_shown (s : Session) (c : CorpusData)
  (settings : option SearchSettings) :
  corpus (currentState s) = Some c ->
  analysisSection s = true ->
  createAnalysisDisplay (analysis (performAnalysis s)) Skipgrams settings
  = None
  /\ handleExportCSV (handleNGramTypeChange (performAnalysis s) Skipgrams)
     = None.
Proof.
  intros Hc Hs. unfold performAnalysis. rewrite Hc, Hs. cbn [negb].
  split; [reflexivity|].
  unfold handleExportCSV, handleNGramTypeChange.
  cbn [analysis analysisSection currentState selectedNGramType negb dataOf
       a_skipgrams].
  reflexivity.
Qed.

(** X15. The export writes what the table shows: for every session with an
    analysis and the analysis section created, whenever
    [createAnalysisDisplay] for the current type and search settings yields
    a table, [handleExportCSV] downloads the file [exportToCSV] makes of the
    rows of that table, with the total of the analysis (not the displayed
    count) as the base of the percentages. *)
Theorem export_matches_display (s : Session) (results : AnalysisResults)
  (shown : Shown) :
  analysis s = Some results ->
  analysisSection s = true ->
  createAnalysisDisplay (Some results) (selectedNGramType (currentState s))
    (Some (search (currentState s)))
  = Some (Table shown) ->
  handleExportCSV s
  = Some (Download (exportToCSV (shownRows shown)
                      (selectedNGramType (currentState s))
                      (totalOf (a_totals results)
                         (selectedNGramType (currentState s))))).
Proof.
  intros Ha Hs. unfold handleExportCSV, createAnalysisDisplay.
  rewrite Ha, Hs. cbn [negb].
  destruct (dataOf results (selectedNGramType (currentState s)));
    [|discriminate].
  intros [= <-]. reflexivity.
Qed.

End SessionFacts.

(* ================================================================== *)
(** * The rows of the virtual scroller *)

Lemma skipn_nth_error {A} (l : list A) k x :
  nth_error l k = Some x -> skipn k l = x :: skipn (S k) l.
Proof.
  revert k; induction l as [|y l IH]; intros [|k]; simpl; try discriminate.
  - intros [= ->]; reflexivity.
  - intros H. rewrite (IH k H). destruct l; reflexivity.
Qed.

Lemma entryRows_in_range ngrams count i :
  0 <= i -> (Z.to_nat i + count <= length ngrams)%nat ->
  entryRows ngrams i count
  = Some (List.map EntryRow (firstn count (skipn (Z.to_nat i) ngrams))).
Proof.
  revert i; induction count as [|count IH]; intros i Hi Hlen.
  - reflexivity.
  - cbn [entryRows]. destruct (Z.ltb_spec i 0); [lia|].
    destruct (nth_error ngrams (Z.to_nat i)) as [e|] eqn:E.
    + rewrite IH by lia. rewrite (skipn_nth_error _ _ _ E).
      replace (Z.to_nat (i + 1)) with (S (Z.to_nat i)) by lia.
      reflexivity.
    + apply nth_error_None in E. lia.
Qed.

Lemma containerHeight_positive clientHeight parentClientHeight :
  0 <= clientHeight ->
  (forall h, parentClientHeight = Some h -> 0 <= h) ->
  0 < containerHeightOf clientHeight parentClientHeight.
Proof.
  intros Hc Hp. unfold containerHeightOf.
  destruct (Z.eqb_spec clientHeight 0); [|lia].
  destruct parentClientHeight as [h|]; [|lia].
  specialize (Hp h eq_refl). destruct (Z.eqb_spec h 0); lia.
Qed.

Lemma bodyHeight_app a b : bodyHeight (a ++ b) = bodyHeight a + bodyHeight b.
Proof.
  induction a as [|r a IH]; simpl; [reflexivity|].
  unfold bodyHeight in *; simpl. rewrite IH. lia.
Qed.

Lemma bodyHeight_entries l :
  bodyHeight (List.map EntryRow l) = ROW_HEIGHT * Z.of_nat (length l).
Proof.
  induction l as [|e l IH]; [reflexivity|].
  unfold bodyHeight in *; cbn [List.map fold_right rowHeight length].
  rewrite IH. lia.
Qed.

Lemma visible_rows_bounds_aux (ngrams : list NGramData)
  (scrollTop clientHeight : Z) (parentClientHeight : option Z) :
  let length := Z.of_nat (List.length ngrams) in
  let range := visibleRange scrollTop
                 (containerHeightOf clientHeight parentClientHeight) length in
  let startIndex := fst range in
  let endIndex := snd range in
  0 <= startIndex /\ endIndex <= length
  /\ updateVisibleRows ngrams scrollTop clientHeight parentClientHeight
     = Some ((if 0 <? startIndex
              then [SpacerRow (startIndex * ROW_HEIGHT)] else [])
             ++ List.map EntryRow
                  (firstn (Z.to_nat (endIndex - startIndex))
                     (skipn (Z.to_nat startIndex) ngrams))
             ++ (if endIndex <? length
                 then [SpacerRow ((length - endIndex) * ROW_HEIGHT)]
                 else [])).
Proof.
  cbn zeta. unfold updateVisibleRows.
  set (h := containerHeightOf clientHeight parentClientHeight).
  set (len := Z.of_nat (length ngrams)).
  unfold visibleRange. cbn [fst snd].
  set (startIndex := Z.max 0 (scrollTop / ROW_HEIGHT - BUFFER)).
  set (endIndex := Z.min len (startIndex + ceilDiv h ROW_HEIGHT + BUFFER * 2)).
  assert (Hs : 0 <= startIndex) by (unfold startIndex; lia).
  assert (He : endIndex <= len) by (unfold endIndex; lia).
  split; [exact Hs|]. split; [exact He|].
  destruct (Z.le_gt_cases endIndex startIndex) as [Hle|Hgt].
  - replace (Z.to_nat (endIndex - startIndex)) with 0%nat by lia.
    reflexivity.
  - rewrite entryRows_in_range by (unfold len in *; lia). reflexivity.
Qed.

(** X16. [updateVisibleRows] never reads past the list: for every list,
    scroll offset and heights it returns rows, which are a top spacer of
    startIndex rows when startIndex > 0, the rows of the entries at the
    indices from startIndex up to endIndex in order, and a bottom spacer of
    the remaining rows when endIndex is less than the length; and
    0 <= startIndex and endIndex <= length. *)
Theorem visible_rows_in_bounds (ngrams : list NGramData)
  (scrollTop clientHeight : Z) (parentClientHeight : option Z) :
  let length := Z.of_nat (List.length ngrams) in
  let range := visibleRange scrollTop
                 (containerHeightOf clientHeight parentClientHeight) length in
  let startIndex := fst range in
  let endIndex := snd range in
  0 <= startIndex /\ endIndex <= length
  /\ updateVisibleRows ngrams scrollTop clientHeight parentClientHeight
     = Some ((if 0 <? startIndex
              then [SpacerRow (startIndex * ROW_HEIGHT)] else [])
             ++ List.map EntryRow
                  (firstn (Z.to_nat (endIndex - startIndex))
                     (skipn (Z.to_nat startIndex) ngrams))
             ++ (if endIndex <? length
                 then [SpacerRow ((length - endIndex) * ROW_HEIGHT)]
                 else [])).
Proof. apply visible_rows_bounds_aux. Qed.

Lemma visibleRange_ordered scrollTop h len :
  0 < h -> 0 <= len -> scrollTop <= ROW_HEIGHT * len ->
  fst (visibleRange scrollTop h len) <= snd (visibleRange scrollTop h len).
Proof.
  unfold visibleRange, ceilDiv, ROW_HEIGHT, BUFFER. cbn [fst snd].
  intros. Z.div_mod_to_equations. lia.
Qed.

Lemma visibleRange_covers scrollTop h len i :
  0 < h -> 0 <= i < len ->
  ROW_HEIGHT * i < scrollTop + h -> scrollTop < ROW_HEIGHT * (i + 1) ->
  fst (visibleRange scrollTop h len) <= i < snd (visibleRange scrollTop h len).
Proof.
  unfold visibleRange, ceilDiv, ROW_HEIGHT, BUFFER. cbn [fst snd].
  intros. Z.div_mod_to_equations. lia.
Qed.

(** X17. When the heights read from the page are not negative and the
    scroll offset is at most the height of all rows, the rows
    [updateVisibleRows] returns have together the height of the whole list,
    40 pixels an entry. *)
Theorem visible_rows_keep_height (ngrams : list NGramData)
  (scrollTop clientHeight : Z) (parentClientHeight : option Z) :
  0 <= clientHeight ->
  (forall h, parentClientHeight = Some h -> 0 <= h) ->
  scrollTop <= ROW_HEIGHT * Z.of_nat (length ngrams) ->
  exists rows,
    updateVisibleRows ngrams scrollTop clientHeight parentClientHeight
    = Some rows
    /\ bodyHeight rows = ROW_HEIGHT * Z.of_nat (length ngrams).
Proof.
  intros Hc Hp Hscroll.
  pose proof (containerHeight_positive _ _ Hc Hp) as Hh.
  destruct (visible_rows_bounds_aux ngrams scrollTop clientHeight
              parentClientHeight) as (Hs & He & Hrows).
  pose proof (visibleRange_ordered scrollTop
                (containerHeightOf clientHeight parentClientHeight)
                (Z.of_nat (length ngrams)) Hh (Nat2Z.is_nonneg _) Hscroll)
    as Hord.
  revert Hs He Hrows Hord. cbn zeta.
  generalize (visibleRange scrollTop
                (containerHeightOf clientHeight parentClientHeight)
                (Z.of_nat (length ngrams))).
  intros [startIndex endIndex]. cbn [fst snd]. intros Hs He Hrows Hord.
  rewrite Hrows. eexists. split; [reflexivity|].
  rewrite !bodyHeight_app, bodyHeight_entries, length_firstn, length_skipn.
  replace (Z.of_nat (Nat.min (Z.to_nat (endIndex - startIndex))
                       (length ngrams - Z.to_nat startIndex)))
    with (endIndex - startIndex) by lia.
  destruct (Z.ltb_spec 0 startIndex);
    destruct (Z.ltb_spec endIndex (Z.of_nat (length ngrams)));
    unfold bodyHeight; cbn [fold_right rowHeight]; unfold ROW_HEIGHT in *; lia.
Qed.

Lemma nth_error_window {A} (l : list A) s c j :
  (j < c)%nat -> nth_error (firstn c (skipn s l)) j = nth_error l (s + j).
Proof.
  intros Hj. rewrite nth_error_firstn.
  destruct (Nat.ltb_spec j c); [|lia]. apply nth_error_skipn.
Qed.

(** X18. When the heights read from the page are not negative, every entry
    whose row overlaps the visible part of the table (from the scroll
    offset down the height of the container) is among the rows
    [updateVisibleRows] returns. *)
Theorem visible_entries_are_rendered (ngrams : list NGramData)
  (scrollTop clientHeight : Z) (parentClientHeight : option Z)
  (i : nat) (e : NGramData) :
  0 <= clientHeight ->
  (forall h, parentClientHeight = Some h -> 0 <= h) ->
  nth_error ngrams i = Some e ->
  ROW_HEIGHT * Z.of_nat i
  < scrollTop + containerHeightOf clientHeight parentClientHeight ->
  scrollTop < ROW_HEIGHT * (Z.of_nat i + 1) ->
  exists rows,
    updateVisibleRows ngrams scrollTop clientHeight parentClientHeight
    = Some rows
    /\ In (EntryRow e) rows.
Proof.
  intros Hc Hp Hnth Htop Hbottom.
  pose proof (containerHeight_positive _ _ Hc Hp) as Hh.
  assert (Hi : (i < length ngrams)%nat)
    by (apply nth_error_Some; congruence).
  destruct (visible_rows_bounds_aux ngrams scrollTop clientHeight
              parentClientHeight) as (Hs & He & Hrows).
  pose proof (visibleRange_covers scrollTop
                (containerHeightOf clientHeight parentClientHeight)
                (Z.of_nat (length ngrams)) (Z.of_nat i) Hh
                ltac:(lia) Htop Hbottom) as Hcov.
  revert Hs He Hrows Hcov. cbn zeta.
  generalize (visibleRange scrollTop
                (containerHeightOf clientHeight parentClientHeight)
                (Z.of_nat (length ngrams))).
  intros [startIndex endIndex]. cbn [fst snd]. intros Hs He Hrows Hcov.
  rewrite Hrows. eexists. split; [reflexivity|].
  apply in_or_app; right. apply in_or_app; left.
  apply in_map.
  apply (nth_error_In _ (i - Z.to_nat startIndex)).
  rewrite nth_error_window by lia.
  replace (Z.to_nat startIndex + (i - Z.to_nat startIndex))%nat with i by lia.
  exact Hnth.
Qed.

Lemma visible_rows_keep_height_witness :
  exists rows,
    updateVisibleRows
      [ {| sequence := lit "a"; frequency := 2; rank := 1 |};
        {| sequence := lit "b"; frequency := 1; rank := 2 |} ] 40 0 None
    = Some rows
    /\ bodyHeight rows = ROW_HEIGHT * 2.
Proof.
  refine (visible_rows_keep_height
            [ {| sequence := lit "a"; frequency := 2; rank := 1 |};
              {| sequence := lit "b"; frequency := 1; rank := 2 |} ]
            40 0 None _ _ _).
  - lia.
  - intros h H; discriminate H.
  - cbn. lia.
Defined.

Lemma visible_entries_are_rendered_witness :
  exists rows,
    updateVisibleRows
      [ {| sequence := lit "a"; frequency := 2; rank := 1 |};
        {| sequence := lit "b"; frequency := 1; rank := 2 |} ] 40 0 None
    = Some rows
    /\ In (EntryRow {| sequence := lit "b"; frequency := 1; rank := 2 |}) rows.
Proof.
  refine (visible_entries_are_rendered
            [ {| sequence := lit "a"; frequency := 2; rank := 1 |};
              {| sequence := lit "b"; frequency := 1; rank := 2 |} ]
            40 0 None 1%nat _ _ _ _ _ _).
  - lia.
  - intros h H; discriminate H.
  - reflexivity.
  - cbn. lia.
  - cbn. lia.
Defined.

(* ================================================================== *)
(** * More of the URL state *)

Section UrlStateMore.
Context {F : NumberFormat}.

(** X19. For every state with a limit below 2^53, a page load from the
    URL written for it restores the regex flag and the three filter
    settings as they are, the query with every lone surrogate replaced by
    U+FFFD (as it is when it is well formed), the limit as it is when it is
    positive and as 0 otherwise, and the table type as it is except for
    skipgrams, which becomes bigrams. *)
Theorem restore_normalizes_state (state : CorpusExplorerState) :
  limit (search state) < 2 ^ 53 ->
  search (restore state)
  = {| query := toUSVString (query (search state));
       useRegex := useRegex (search state);
       filters := filters (search state);
       limit := Z.max 0 (limit (search state)) |}
  /\ selectedNGramType (restore state)
     = if NGramType_eqb (selectedNGramType state) Skipgrams then Bigrams
       else selectedNGramType state.
Proof. exact (restored_fields state). Qed.

(** X20. For every state, the preset a page load fetches for the URL
    written for it is the name of the state's corpus, with every lone
    surrogate replaced by U+FFFD, when that corpus is not a custom file and
    its name is neither empty nor the word custom; in every other case
    nothing is fetched. *)
Theorem preset_corpus_round_trip (state : CorpusExplorerState) :
  presetToLoad (deserializeState (serializeState (asPartial state)))
  = match corpus state with
    | Some c =>
        if isCustom c || negb (truthy (name c))
           || str_eqb (toUSVString (name c)) (lit "custom")
        then None else Some (toUSVString (name c))
    | None => None
    end.
Proof.
  unfold presetToLoad, deserializeState. cbn [p_corpus].
  rewrite serialized_corpus.
  destruct (corpus state) as [c|]; [|reflexivity].
  destruct (isCustom c); [reflexivity|].
  cbn [orb]. rewrite truthy_toUSVString.
  destruct (truthy (name c)); [|reflexivity].
  cbn [negb orb].
  destruct (str_eqb (toUSVString (name c)) (lit "custom")); reflexivity.
Qed.

(** X21. For every partial state, the names of the parameters the
    serializer writes are some of corpus, type, limit, search, regex,
    whitespace, punct, case, in this order and each at most once. *)
Theorem serialized_names_in_order (state : PartialState) :
  subsequence (names (serializeState state)) parameterNames = true
  /\ NoDup (names (serializeState state)).
Proof.
  assert (Hsub : subsequence (names (serializeState state)) parameterNames
                 = true).
  { unfold serializeState.
    destruct state as [c s t]. cbn [p_corpus p_search p_selectedNGramType].
    destruct c as [[c|]|]; [destruct (isCustom c)| |];
      (destruct t as [[]|]);
      (destruct s as [[q r [fw fp cs] l]|]; [|reflexivity]);
      cbn [limit query useRegex filters filterWhitespace filterPunctuation
           caseSensitive];
      destruct (0 <? l); destruct q as [|q0 q]; destruct r, fw, fp, cs;
      reflexivity. }
  split; [exact Hsub|].
  revert Hsub. generalize (names (serializeState state)). intros l.
  assert (Hin : forall m l x, subsequence l m = true -> In x l -> In x m).
  { induction m as [|y m IH]; intros [|z l'] x; simpl; try tauto;
      try discriminate.
    destruct (str_eqb z y) eqn:E.
    - apply str_eqb_eq in E; subst. intros Hs [->|Hx]; eauto.
    - intros Hs Hx. right. eapply IH; eauto. }
  assert (Hnd : forall m, NoDup m ->
                forall l, subsequence l m = true -> NoDup l).
  { induction 1 as [|y m Hy Hm IH]; intros [|z l'] Hs; simpl in Hs;
      try constructor; try discriminate.
    - destruct (str_eqb z y) eqn:E.
      + apply str_eqb_eq in E; subst. intros Hc. apply Hy.
        eapply Hin; eauto.
      + pose proof (IH _ Hs) as Hn. inversion Hn; assumption.
    - destruct (str_eqb z y) eqn:E; [apply IH; exact Hs|].
      pose proof (IH _ Hs) as Hn. inversion Hn; assumption. }
  apply Hnd.
  unfold parameterNames.
  repeat (constructor; [simpl; intros H;
                        repeat (destruct H as [H|H]; [discriminate H|]);
                        exact H|]).
  constructor.
Qed.

(** X22. The serializer writes nothing exactly for the default settings:
    for every state, the parameters written for it are empty if and only if
    no corpus is loaded, the table type is bigrams, the limit is not
    positive, the query is empty, the regex flag is off and the filter
    settings are the initial ones. *)
Theorem url_is_empty_for_defaults_only (state : CorpusExplorerState) :
  serializeState (asPartial state) = []
  <-> (corpus state = None
       /\ selectedNGramType state = Bigrams
       /\ limit (search state) <= 0
       /\ query (search state) = []
       /\ useRegex (search state) = false
       /\ filters (search state) = filters (search initialState)).
Proof.
  split.
  - intros H.
    pose proof (serialized_corpus state) as Hc.
    pose proof (serialized_type state) as Ht.
    pose proof (serialized_limit state) as Hl.
    pose proof (serialized_search state) as Hq.
    pose proof (serialized_regex state) as Hr.
    pose proof (serialized_whitespace state) as Hw.
    pose proof (serialized_punct state) as Hp.
    pose proof (serialized_case state) as Hcs.
    rewrite H in *. cbn [params_get firstValue] in *.
    destruct state as [c [q r [fw fp cs] l] t].
    cbn [corpus search selectedNGramType query useRegex filters limit
         filterWhitespace filterPunctuation caseSensitive initialState] in *.
    split; [destruct c; [discriminate Hc | reflexivity]|].
    split; [destruct t; try discriminate Ht; reflexivity|].
    split; [destruct (Z.ltb_spec 0 l); [discriminate Hl | lia]|].
    split; [destruct q; [reflexivity | discriminate Hq]|].
    split; [destruct r; [discriminate Hr | reflexivity]|].
    destruct fw; [|discriminate Hw].
    destruct fp; [discriminate Hp|].
    destruct cs; [discriminate Hcs | reflexivity].
  - destruct state as [c [q r f l] t].
    cbn [corpus search selectedNGramType query useRegex filters limit
         initialState].
    intros (-> & -> & Hl & -> & -> & ->).
    assert (El : (0 <? l) = false) by (apply Z.ltb_ge; exact Hl).
    unfold serializeState, asPartial.
    cbn [p_corpus p_search p_selectedNGramType limit query useRegex filters
         filterWhitespace filterPunctuation caseSensitive corpus search
         selectedNGramType].
    rewrite El. reflexivity.
Qed.

End UrlStateMore.

(** X23. Whatever parameters a URL holds, the state read from it is within
    bounds: a table type that is read is one of monograms, bigrams,
    trigrams and words and is the value of the parameter type; search
    settings that are read have a limit that is not negative; a corpus that
    is read is a preset with a name that is neither empty nor the word
    custom, and with no text. Laid over the initial state, it never selects
    skipgrams and never gives a negative limit. *)
Theorem url_state_is_within_bounds (params : URLSearchParams) :
  let urlState := deserializeState params in
  (forall t, p_selectedNGramType urlState = Some t ->
     In t validTypes /\ params_get params (lit "type") = Some (typeName t))
  /\ (forall s, p_search urlState = Some s -> 0 <= limit s)
  /\ (forall c, p_corpus urlState = Some (Some c) ->
        isCustom c = false /\ text c = []
        /\ name c <> [] /\ name c <> lit "custom"
        /\ params_get params (lit "corpus") = Some (name c))
  /\ selectedNGramType (applyURLState initialState urlState) <> Skipgrams
  /\ 0 <= limit (search (applyURLState initialState urlState)).
Proof.
  cbn zeta.
  assert (Ht : forall t, p_selectedNGramType (deserializeState params) = Some t ->
     In t validTypes /\ params_get params (lit "type") = Some (typeName t)).
  { intros t. unfold deserializeState. cbn [p_selectedNGramType].
    destruct (params_get params (lit "type")) as [v|]; [|discriminate].
    destruct (truthy v); [|discriminate].
    intros H. apply find_some in H as [Hin Heq].
    apply str_eqb_eq in Heq. subst. split; [exact Hin | reflexivity]. }
  assert (Hs : forall s, p_search (deserializeState params) = Some s ->
                         0 <= limit s).
  { intros s. unfold deserializeState. cbn [p_search].
    match goal with
    | |- (if ?c then _ else _) = _ -> _ => destruct c; [|discriminate]
    end.
    intros [= <-]. cbn [limit]. unfold orElse.
    match goal with
    | |- 0 <= match ?o with Some x => x | None => 0 end =>
        destruct o as [x|] eqn:E; [|lia]
    end.
    revert E.
    match goal with
    | |- match ?o with Some _ => _ | None => _ end = _ -> _ =>
        destruct o as [v|]; [|discriminate]
    end.
    destruct (truthy v); [|discriminate].
    destruct (parseInt10 v) as [n|]; [|discriminate].
    destruct (Z.ltb_spec 0 n); [|discriminate].
    intros [= <-]. lia. }
  split; [exact Ht|]. split; [exact Hs|]. split; [|split].
  - intros c. unfold deserializeState. cbn [p_corpus].
    destruct (params_get params (lit "corpus")) as [v|]; [|discriminate].
    destruct v as [|v0 v]; [discriminate|]. cbn [truthy].
    destruct (str_eqb (v0 :: v) (lit "custom")) eqn:E; [discriminate|].
    intros [= <-]. cbn [isCustom text name].
    repeat split; try discriminate.
    intros Heq. rewrite Heq in E. discriminate E.
  - unfold applyURLState. cbn [selectedNGramType].
    destruct (p_selectedNGramType (deserializeState params)) as [t|].
    + destruct (Ht t eq_refl) as [Hin _]. intros ->.
      cbn in Hin. intuition discriminate.
    + cbn. discriminate.
  - unfold applyURLState. cbn [search].
    destruct (p_search (deserializeState params)) as [s|].
    + exact (Hs s eq_refl).
    + cbn. lia.
Qed.

(** X24. The limit is read with [parseInt], which stops at the first unit
    that is not a digit: for every positive integer n below 2^53 and every
    text that does not begin with a digit, a URL whose parameter limit is
    the decimal text of n followed by that text is read as search settings
    with the limit n. *)
Theorem limit_is_read_up_to_first_non_digit (params : URLSearchParams)
  (n : Z) (rest : jsstring) :
  0 < n < 2 ^ 53 ->
  endsNumber rest ->
  params_get params (lit "limit") = Some (decimalDigits n ++ rest) ->
  exists s, p_search (deserializeState params) = Some s /\ limit s = n.
Proof.
  intros Hn Hrest Hget.
  destruct (parseInt10_decimalDigits n rest Hn Hrest)
    as (Hparse & Htruthy & _).
  unfold deserializeState. cbn [p_search].
  rewrite Hget, Htruthy, Hparse, (proj2 (Z.ltb_lt 0 n) (proj1 Hn)).
  cbn [isSome orb]. eexists. split; reflexivity.
Qed.

Lemma limit_is_read_up_to_first_non_digit_witness :
  exists s,
    p_search (deserializeState [(lit "limit", lit "25px")]) = Some s
    /\ limit s = 25.
Proof.
  refine (limit_is_read_up_to_first_non_digit
            [(lit "limit", lit "25px")] 25 (lit "px") _ _ _).
  - lia.
  - reflexivity.
  - reflexivity.
Defined.

Lemma restore_normalizes_state_witness :
  let state :=
    {| corpus := None;
       search := {| query := [55357%N; 97%N]; useRegex := true;
                    filters := filters (search initialState);
                    limit := -3 |};
       selectedNGramType := Skipgrams |} in
  search (restore (F := plainFormat) state)
  = {| query := [65533%N; 97%N]; useRegex := true;
       filters := filters (search initialState); limit := 0 |}
  /\ selectedNGramType (restore (F := plainFormat) state) = Bigrams.
Proof.
  cbn zeta.
  match goal with
  | |- search (restore ?st) = _ /\ _ =>
      exact (restore_normalizes_state (F := plainFormat) st
               ltac:(cbn; lia))
  end.
Defined.

(* ================================================================== *)
(** * More of the export *)

Lemma doubleQuotes_injective a b :
  doubleQuotes a = doubleQuotes b -> a = b.
Proof.
  unfold doubleQuotes. revert b.
  induction a as [|x a IH]; intros [|y b]; cbn [flat_map].
  - reflexivity.
  - destruct (N.eqb y quote); discriminate.
  - destruct (N.eqb x quote); discriminate.
  - destruct (N.eqb x quote) eqn:Ex; destruct (N.eqb y quote) eqn:Ey;
      cbn [app]; intros H.
    + apply N.eqb_eq in Ex, Ey. subst. injection H as H. f_equal. exact (IH _ H).
    + injection H as H1 H2. subst y. apply N.eqb_eq in Ex. subst x.
      discriminate Ey.
    + injection H as H1 H2. subst x. apply N.eqb_eq in Ey. subst y.
      discriminate Ex.
    + injection H as H1 H2. subst. f_equal. exact (IH _ H2).
Qed.

Lemma escaped_has_quote v :
  includes ([quote] ++ doubleQuotes v ++ [quote]) quote = true.
Proof. reflexivity. Qed.

(** X25. [escapeCSVField] loses nothing: two values with the same escaped
    field are the same value. *)
Theorem escapeCSVField_injective (a b : jsstring) :
  escapeCSVField a = escapeCSVField b -> a = b.
Proof.
  unfold escapeCSVField.
  destruct (includes a comma || includes a quote || includes a newline)
    eqn:Ea;
    destruct (includes b comma || includes b quote || includes b newline)
      eqn:Eb; intros H.
  - cbn [app] in H. injection H as H. apply app_inj_tail in H as [H _].
    exact (doubleQuotes_injective _ _ H).
  - subst b. rewrite escaped_has_quote, orb_true_r in Eb. discriminate Eb.
  - subst a. rewrite escaped_has_quote, orb_true_r in Ea. discriminate Ea.
  - exact H.
Qed.

Lemma escapeCSVField_injective_witness : lit "a,b" = lit "a,b".
Proof.
  exact (escapeCSVField_injective (lit "a,b") (lit "a,b") eq_refl).
Defined.

(* ================================================================== *)
(** * The stored analysis across the handlers *)

Section SessionInvariant.
Context {B : Builtins}.

Lemma performAnalysis_recomputes s :
  (analysisIsCurrent s
   \/ (forall results, analysis s = Some results ->
         analysisSection s = true /\ corpus (currentState s) <> None)) ->
  analysisIsCurrent (performAnalysis s).
Proof.
  intros H. unfold performAnalysis.
  destruct (corpus (currentState s)) as [c|] eqn:Ec.
  - destruct (analysisSection s) eqn:Es; cbn [negb].
    + intros results. cbn [analysis analysisSection currentState].
      intros [= <-]. split; [reflexivity|]. exists c.
      split; [exact Ec | reflexivity].
    + intros results Hr. destruct H as [H|H].
      * destruct (H results Hr) as [H1 _]. congruence.
      * destruct (H results Hr) as [H1 _]. congruence.
  - intros results Hr. destruct H as [H|H].
    + destruct (H results Hr) as (_ & c & Hc & _). congruence.
    + destruct (H results Hr) as [_ H2]. congruence.
Qed.

Lemma step_current s e :
  analysisIsCurrent s -> analysisIsCurrent (step s e).
Proof.
  intros H. destruct e as [type|newFilters|settings|text name isCustom];
    cbn [step].
  - exact H.
  - unfold handleFilterChange. apply performAnalysis_recomputes. right.
    cbn [analysis analysisSection currentState corpus].
    intros results Hr. destruct (H results Hr) as (H1 & c & Hc & _).
    split; [exact H1 | congruence].
  - intros results. unfold handleSearchChange.
    cbn [analysis analysisSection currentState corpus search filters].
    exact (H results).
  - unfold handleCorpusLoad. apply performAnalysis_recomputes. right.
    cbn [analysis analysisSection currentState corpus].
    intros results Hr. destruct (H results Hr) as (H1 & _).
    split; [exact H1 | discriminate].
Qed.

Lemma run_current events s :
  analysisIsCurrent s -> analysisIsCurrent (run events s).
Proof.
  unfold run. revert s. induction events as [|e events IH]; intros s H.
  - exact H.
  - cbn [fold_left]. apply IH. apply step_current. exact H.
Qed.

(** X26. The stored analysis is never stale: after any sequence of calls of
    the handlers for the table type, the filters and the search and of the
    callback for a loaded corpus, from the initial state of the page, an
    analysis that is stored is the analysis of the text of the current
    corpus under the current filter settings, and the analysis section
    exists. *)
Theorem stored_analysis_is_current (created : bool) (events : list Event) :
  analysisIsCurrent (run events (initialSession created)).
Proof.
  apply run_current. intros results H. discriminate H.
Qed.

End SessionInvariant.

(* ================================================================== *)
(** * Instances on sample data *)

Lemma display_rows_witness :
  exists shown,
    createAnalysisDisplay (M := prefixMatcher) (Some sampleResults) Bigrams
      (Some sampleSettings)
    = Some (Table shown)
    /\ List.map asPair (shownRows shown) = [ (lit "th", 3) ]
    /\ shownTotal shown = 6
    /\ preFilterCount shown = 6.
Proof.
  destruct (display_rows (M := prefixMatcher) sampleResults Bigrams
              sampleSettings sampleBigrams eq_refl)
    as (shown & H1 & H2 & _ & _ & _ & H6 & H7).
  exists shown.
  split; [exact H1|]. split; [exact H2|]. split; [exact H6 | exact H7].
Defined.

Lemma displayed_count_bounded_witness :
  exists shown,
    createAnalysisDisplay (M := prefixMatcher) (Some sampleResults) Bigrams
      (Some sampleSettings)
    = Some (Table shown)
    /\ 0 <= displayedCount shown
    /\ displayedCount shown <= preFilterCount shown.
Proof.
  eexists. split; [reflexivity|].
  apply (displayed_count_bounded (M := prefixMatcher) sampleResults Bigrams
           (Some sampleSettings) sampleBigrams).
  - reflexivity.
  - repeat constructor; cbn; lia.
  - reflexivity.
Defined.

Lemma display_after_analysis_witness :
  exists shown,
    createAnalysisDisplay (M := prefixMatcher)
      (analysis (performAnalysis (B := codeUnitBuiltins) (sampleSession None)))
      Bigrams (Some sampleSettings)
    = Some (Table shown)
    /\ preFilterCount shown = shownTotal shown
    /\ displayedCount shown <= preFilterCount shown
    /\ (forall i e, nth_error (shownRows shown) i = Some e ->
                    rank e = Z.of_nat i + 1).
Proof.
  apply (display_after_analysis (B := codeUnitBuiltins) (M := prefixMatcher)
           (sampleSession None) sampleCorpus Bigrams (Some sampleSettings)).
  - reflexivity.
  - reflexivity.
  - discriminate.
Defined.

Lemma skipgrams_cannot_be_shown_witness :
  createAnalysisDisplay (M := prefixMatcher)
    (analysis (performAnalysis (B := codeUnitBuiltins) (sampleSession None)))
    Skipgrams (Some sampleSettings)
  = None
  /\ handleExportCSV (M := prefixMatcher) (F := plainFormat)
       (handleNGramTypeChange
          (performAnalysis (B := codeUnitBuiltins) (sampleSession None))
          Skipgrams)
     = None.
Proof.
  apply (skipgrams_cannot_be_shown (B := codeUnitBuiltins)
           (M := prefixMatcher) (F := plainFormat)
           (sampleSession None) sampleCorpus (Some sampleSettings)).
  - reflexivity.
  - reflexivity.
Defined.

Lemma export_matches_display_witness :
  exists shown,
    createAnalysisDisplay (M := prefixMatcher) (Some sampleResults) Bigrams
      (Some sampleSettings)
    = Some (Table shown)
    /\ handleExportCSV (M := prefixMatcher) (F := plainFormat)
         (sampleSession (Some sampleResults))
       = Some (Download (exportToCSV (F := plainFormat) (shownRows shown)
                           Bigrams 6)).
Proof.
  eexists. split; [reflexivity|].
  apply (export_matches_display (M := prefixMatcher) (F := plainFormat)
           (sampleSession (Some sampleResults)) sampleResults).
  - reflexivity.
  - reflexivity.
  - reflexivity.
Defined.
